(** * Dining philosophers server: the shared store, participant creation
      and the participant state machine

    Shallow embedding of [include/managers/SharedResources.c],
    [include/managers/Chopstick.c], [include/managers/ServerPhilosopher.c]
    and of the parts of [include/managers/Logs.c] they call.

    The C code runs in forked processes over one shared memory segment.
    Here every call is run on its own, from its first statement either to
    its [return], or to the semaphore it cannot pass, or to a dereference
    of a null pointer / an access outside an array. The three endings are
    the three constructors of [Outcome]. A sequence of requests is served
    one call after the other, each one having returned before the next one
    starts.

    An [int] is a [Z]. The only arithmetic the code does on one is
    [numberPhilosophers + 1], [id - 1] and [lastPhilosopherId - 1], on
    values that index an array of [MAX_PHILOSOPHERS] elements or make the
    call leave the array; identifiers and timers that come with a request
    are stored as they are. *)

From Stdlib Require Import ZArith String Ascii List Lia Bool Permutation.
From Stdlib Require Import DecimalString DecimalNat.
From stdpp Require Import base option list.

Local Open Scope string_scope.
Local Open Scope Z_scope.

(** ** Data model *)

(** [maxmin_philosophers.h] *)
Definition MIN_PHILOSOPHERS : Z := 2.
Definition MAX_PHILOSOPHERS : Z := 7.

(** [<semaphore.h>]: the largest value of a semaphore; [sem_post] on a
    semaphore holding it fails with EOVERFLOW and leaves it unchanged. *)
Definition SEM_VALUE_MAX : Z := 2147483647.

(** [Philosopher.h]: [typedef enum { THINKING, HUNGRY, EATING }]. *)
Inductive PhilosopherState := THINKING | HUNGRY | EATING.

(** [Philosopher.h]: [struct { int id; PhilosopherState state; int stateTimer; }] *)
Record Philosopher := mkPhilosopher {
  p_id : Z;
  p_state : PhilosopherState;
  p_stateTimer : Z }.

(** [Chopstick.h]: [struct { int id; sem_t usage; }]. A semaphore is
    modelled by its value. *)
Record Chopstick := mkChopstick {
  c_id : Z;
  c_usage : Z }.

(** A [Chopstick *] is either NULL or the address of a slot of the
    [chopsticks] array of the shared segment: [Some i] is
    [&sharedResources->chopsticks[i]]. *)
Definition ChopstickPtr := option nat.

(** [ServerPhilosopher.h] *)
Record ServerPhilosopher := mkServerPhilosopher {
  base : Philosopher;
  leftChopstick : ChopstickPtr;
  rightChopstick : ChopstickPtr }.

(** [SharedResources.h] *)
Record SharedResources := mkSharedResources {
  maxAllowedEating : Z;
  philosopherCreationProcess : Z;
  philosophers : list ServerPhilosopher;
  numberPhilosophers : Z;
  chopsticks : list Chopstick;
  numberChopsticks : Z;
  logsQueueId : Z }.

(** The semaphores of the segment. *)
Inductive SemRef :=
| SemMaxAllowedEating
| SemCreation
| SemUsage (i : nat).

(** [Logs.h] / [Logs.c]: a record sent on the message queue. Its type is
    [SERVER_LOG_TYPE] ([logServerState]) or the pid of the sending process
    ([logClientInfo]); its text is kept as the format string and the
    arguments it is expanded with. String literals are spelled as in the C
    source, escapes included. The queue is always
    [sharedResources->logsQueueId], and [msgsnd] is never checked: the
    records are kept in the trace of the call. *)
Inductive LogCategory := ServerLog | ClientLog.

Inductive LogArg :=
| ArgInt (z : Z)
| ArgPtr (p : ChopstickPtr)
| ArgStr (s : string).

Record LogRecord := mkLog {
  log_category : LogCategory;
  log_format : string;
  log_args : list LogArg }.

(** What a call does that another process can observe, in program order:
    the records it sends, its semaphore operations, and its writes to the
    [base] of a stored participant. *)
Inductive Event :=
| EvLog (r : LogRecord)
| EvAcquire (s : SemRef)      (* sem_trywait or sem_wait took one unit *)
| EvAgain (s : SemRef)        (* sem_trywait returned -1 with EAGAIN *)
| EvPost (s : SemRef)
| EvSetBase (slot : nat) (p : Philosopher)
| EvSetState (slot : nat) (st : PhilosopherState)
| EvSetTimer (slot : nat) (t : Z).

Record World := mkWorld {
  shm : SharedResources;
  events : list Event }.

(** ** The monad of one call *)

Inductive Outcome (A : Type) :=
| Done (a : A) (w : World)          (* the call returned a *)
| Blocked (s : SemRef) (w : World)  (* the call sleeps in sem_wait on s *)
| Fault (w : World).                (* undefined behaviour *)
Arguments Done {A} a w.
Arguments Blocked {A} s w.
Arguments Fault {A} w.

Definition M (A : Type) : Type := World -> Outcome A.

#[global] Instance M_ret : MRet M := fun A a w => Done a w.

#[global] Instance M_bind : MBind M := fun A B f m w =>
  match m w with
  | Done a w' => f a w'
  | Blocked s w' => Blocked s w'
  | Fault w' => Fault w'
  end.

Definition fault {A} : M A := fun w => Fault w.

Definition get_shm : M SharedResources := fun w => Done (shm w) w.

Definition modify_shm (f : SharedResources -> SharedResources) : M unit :=
  fun w => Done tt (mkWorld (f (shm w)) (events w)).

Definition emit (e : Event) : M unit :=
  fun w => Done tt (mkWorld (shm w) (events w ++ [e])).

(** Field updates of the shared segment. *)
Definition set_maxAllowedEating (v : Z) (r : SharedResources) :=
  mkSharedResources v (philosopherCreationProcess r) (philosophers r)
    (numberPhilosophers r) (chopsticks r) (numberChopsticks r) (logsQueueId r).

Definition set_philosopherCreationProcess (v : Z) (r : SharedResources) :=
  mkSharedResources (maxAllowedEating r) v (philosophers r)
    (numberPhilosophers r) (chopsticks r) (numberChopsticks r) (logsQueueId r).

Definition set_philosophers (l : list ServerPhilosopher) (r : SharedResources) :=
  mkSharedResources (maxAllowedEating r) (philosopherCreationProcess r) l
    (numberPhilosophers r) (chopsticks r) (numberChopsticks r) (logsQueueId r).

Definition set_numberPhilosophers (n : Z) (r : SharedResources) :=
  mkSharedResources (maxAllowedEating r) (philosopherCreationProcess r)
    (philosophers r) n (chopsticks r) (numberChopsticks r) (logsQueueId r).

Definition set_chopsticks (l : list Chopstick) (r : SharedResources) :=
  mkSharedResources (maxAllowedEating r) (philosopherCreationProcess r)
    (philosophers r) (numberPhilosophers r) l (numberChopsticks r) (logsQueueId r).

Definition set_numberChopsticks (n : Z) (r : SharedResources) :=
  mkSharedResources (maxAllowedEating r) (philosopherCreationProcess r)
    (philosophers r) (numberPhilosophers r) (chopsticks r) n (logsQueueId r).

Definition set_logsQueueId (q : Z) (r : SharedResources) :=
  mkSharedResources (maxAllowedEating r) (philosopherCreationProcess r)
    (philosophers r) (numberPhilosophers r) (chopsticks r) (numberChopsticks r) q.

Definition set_base (b : Philosopher) (sp : ServerPhilosopher) :=
  mkServerPhilosopher b (leftChopstick sp) (rightChopstick sp).

Definition set_state (st : PhilosopherState) (sp : ServerPhilosopher) :=
  set_base (mkPhilosopher (p_id (base sp)) st (p_stateTimer (base sp))) sp.

Definition set_stateTimer (t : Z) (sp : ServerPhilosopher) :=
  set_base (mkPhilosopher (p_id (base sp)) (p_state (base sp)) t) sp.

Definition set_leftChopstick (c : ChopstickPtr) (sp : ServerPhilosopher) :=
  mkServerPhilosopher (base sp) c (rightChopstick sp).

Definition set_rightChopstick (c : ChopstickPtr) (sp : ServerPhilosopher) :=
  mkServerPhilosopher (base sp) (leftChopstick sp) c.

(** *** Arrays and pointers *)

(** An [int] used as an index of one of the two arrays of
    [MAX_PHILOSOPHERS] elements; anything else is out of bounds. *)
Definition index (i : Z) : M nat :=
  if (0 <=? i) && (i <? MAX_PHILOSOPHERS) then mret (Z.to_nat i) else fault.

(** [*p] for a [Chopstick *]: NULL cannot be dereferenced. *)
Definition deref (p : ChopstickPtr) : M nat :=
  match p with
  | Some i => mret i
  | None => fault
  end.

Definition read_philosopher (i : nat) : M ServerPhilosopher :=
  r ← get_shm;
  match philosophers r !! i with
  | Some sp => mret sp
  | None => fault
  end.

(** [philosophers[i].field = ...]: the slot is rewritten from what it holds. *)
Definition write_philosopher (i : nat) (f : ServerPhilosopher -> ServerPhilosopher) : M unit :=
  sp ← read_philosopher i;
  modify_shm (fun r => set_philosophers (<[i := f sp]> (philosophers r)) r).

Definition read_chopstick (i : nat) : M Chopstick :=
  r ← get_shm;
  match chopsticks r !! i with
  | Some c => mret c
  | None => fault
  end.

Definition write_chopstick (i : nat) (c : Chopstick) : M unit :=
  _ ← read_chopstick i;
  modify_shm (fun r => set_chopsticks (<[i := c]> (chopsticks r)) r).

(** [serverPhilosopher->leftChopstick-> ...] and
    [serverPhilosopher->rightChopstick-> ...], where [serverPhilosopher] is
    the address of slot [slot]: the pointer is read from the segment and
    followed. *)
Definition follow (field : ServerPhilosopher -> ChopstickPtr) (slot : nat) : M nat :=
  sp ← read_philosopher slot;
  deref (field sp).

(** *** Semaphores *)

Definition sem_value (s : SemRef) (r : SharedResources) : option Z :=
  match s with
  | SemMaxAllowedEating => Some (maxAllowedEating r)
  | SemCreation => Some (philosopherCreationProcess r)
  | SemUsage i => c_usage <$> chopsticks r !! i
  end.

Definition sem_set (s : SemRef) (v : Z) (r : SharedResources) : SharedResources :=
  match s with
  | SemMaxAllowedEating => set_maxAllowedEating v r
  | SemCreation => set_philosopherCreationProcess v r
  | SemUsage i =>
      match chopsticks r !! i with
      | Some c => set_chopsticks (<[i := mkChopstick (c_id c) v]> (chopsticks r)) r
      | None => r
      end
  end.

(** [sem_wait]: takes one unit, or sleeps until there is one. *)
Definition sem_wait (s : SemRef) : M unit := fun w =>
  match sem_value s (shm w) with
  | None => Fault w
  | Some v =>
      if 0 <? v
      then Done tt (mkWorld (sem_set s (v - 1) (shm w)) (events w ++ [EvAcquire s]))
      else Blocked s w
  end.

(** [sem_trywait(s) == -1 && errno == EAGAIN]: [true] when the semaphore
    had no unit to take, [false] when one unit was taken. *)
Definition sem_trywait_again (s : SemRef) : M bool := fun w =>
  match sem_value s (shm w) with
  | None => Fault w
  | Some v =>
      if 0 <? v
      then Done false (mkWorld (sem_set s (v - 1) (shm w)) (events w ++ [EvAcquire s]))
      else Done true (mkWorld (shm w) (events w ++ [EvAgain s]))
  end.

(** The value [sem_post] leaves in a semaphore that held [v]. *)
Definition post_value (v : Z) : Z := if v <? SEM_VALUE_MAX then v + 1 else v.

(** [sem_post]; the code never looks at what it returns. *)
Definition sem_post (s : SemRef) : M unit := fun w =>
  match sem_value s (shm w) with
  | None => Fault w
  | Some v =>
      Done tt (mkWorld (sem_set s (post_value v) (shm w)) (events w ++ [EvPost s]))
  end.

Definition sem_getvalue (s : SemRef) : M Z := fun w =>
  match sem_value s (shm w) with
  | None => Fault w
  | Some v => Done v w
  end.

(** ** [Logs.c] *)

Definition logServerState (format : string) (args : list LogArg) : M unit :=
  emit (EvLog (mkLog ServerLog format args)).

Definition logClientInfo (message : string) : M unit :=
  emit (EvLog (mkLog ClientLog message [])).

(** [logClientInfo] of a message built by [snprintf], kept as its format
    and arguments. *)
Definition logClientInfo_record (record : LogRecord) : M unit :=
  emit (EvLog record).

(** The record [logClientAction] builds with [snprintf]. *)
Definition actionRecord (p : Philosopher) (action : string) : LogRecord :=
  mkLog ClientLog "%s %d %s %s %d%s"
    [ArgStr "Le philosophe"; ArgInt (p_id p); ArgStr "est en train de";
     ArgStr action; ArgInt (p_stateTimer p); ArgStr " secondes.\n"].

(** [logClientAction]: [action] is assigned for THINKING and EATING only;
    with any other state the uninitialised pointer is formatted. *)
Definition logClientAction (p : Philosopher) : M unit :=
  action ← match p_state p with
           | THINKING => mret "\x1B[1;34mpenser\x1B[0m :"
           | EATING => mret "\x1B[1;32mmanger\x1B[0m :"
           | HUNGRY => fault
           end;
  logClientInfo_record (actionRecord p action).

(** ** [SharedResources.c] *)

Definition zeroPhilosopher : Philosopher := mkPhilosopher 0 THINKING 0.
Definition zeroServerPhilosopher : ServerPhilosopher :=
  mkServerPhilosopher zeroPhilosopher None None.
Definition zeroChopstick : Chopstick := mkChopstick 0 0.

(** The segment as [shmget(IPC_PRIVATE, ..., IPC_CREAT | 0600)] hands it
    over: a new segment is filled with zeros. *)
Definition newSegment : SharedResources :=
  mkSharedResources 0 0
    (replicate (Z.to_nat MAX_PHILOSOPHERS) zeroServerPhilosopher) 0
    (replicate (Z.to_nat MAX_PHILOSOPHERS) zeroChopstick) 0 0.

(** [attachSharedResources]: the two [sem_init] and the three counters. *)
Definition attachSharedResources (segment : SharedResources) : SharedResources :=
  set_logsQueueId 0
    (set_numberChopsticks 0
      (set_numberPhilosophers 0
        (set_philosopherCreationProcess 1
          (set_maxAllowedEating 0 segment)))).

Definition freshWorld : World := mkWorld (attachSharedResources newSegment) [].

(** ** [Chopstick.c] *)

Definition createChopstick (id : Z) : M ChopstickPtr :=
  let chopstick := mkChopstick id 1 in        (* memset; id; sem_init(&usage, 1, 1) *)
  i ← index (id - 1);
  write_chopstick i chopstick;;               (* memcpy to chopsticks[id - 1] *)
  logServerState "Baguette %d créée (adresse %p)...\n" [ArgInt id; ArgPtr (Some i)];;
  mret (Some i).

(** ** [ServerPhilosopher.c] *)

Fixpoint getPhilosopherFromId_loop (id : Z) (l : list ServerPhilosopher) (i : nat) : option nat :=
  match l with
  | [] => None
  | sp :: l' =>
      if p_id (base sp) =? id then Some i
      else getPhilosopherFromId_loop id l' (S i)
  end.

(** The loop visits the slots [0 .. MAX_PHILOSOPHERS - 1], all of them,
    whatever [numberPhilosophers] is. The result is NULL or the address of
    a slot. *)
Definition getPhilosopherFromId (id : Z) (philosophers : list ServerPhilosopher) : option nat :=
  getPhilosopherFromId_loop id (take (Z.to_nat MAX_PHILOSOPHERS) philosophers) 0.

(** [philosopher] is the local variable of [createPhilosopher], passed by
    address: the function returns its new value. *)
Definition definePhilosopherRightChopstick (philosopher : ServerPhilosopher) : M ServerPhilosopher :=
  r ← get_shm;
  let lastPhilosopherId := numberPhilosophers r in
  let firstChopstick : ChopstickPtr := Some 0%nat in
  logServerState "Assignation de la baguette 1 (adresse %p) à droite du philosophe %d...\n"
    [ArgPtr firstChopstick; ArgInt (p_id (base philosopher))];;
  let philosopher := set_rightChopstick firstChopstick philosopher in
  l ← deref (leftChopstick philosopher);
  lc ← read_chopstick l;
  prev ← index (lastPhilosopherId - 1);
  prevPhilosopher ← read_philosopher prev;
  logServerState "Assignation de la baguette %d (adresse %p) à droite de l'avant denier philosophe %d...\n"
    [ArgInt (c_id lc); ArgPtr (leftChopstick philosopher); ArgInt (p_id (base prevPhilosopher))];;
  (if p_id (base philosopher) =? 2 then
     write_philosopher 0 (set_rightChopstick (leftChopstick philosopher))
   else if 2 <? p_id (base philosopher) then
     prev ← index (lastPhilosopherId - 1);
     previousPhlosopherOldRightChopstick ← follow rightChopstick prev;
     sem_wait (SemUsage previousPhlosopherOldRightChopstick);;
     write_philosopher prev (set_rightChopstick (leftChopstick philosopher));;
     sem_post (SemUsage previousPhlosopherOldRightChopstick)
   else mret tt);;
  mret philosopher.

Definition createPhilosopher : M ServerPhilosopher :=
  sem_wait SemCreation;;
  r ← get_shm;
  let lastPhilosopherId := numberPhilosophers r in
  let philosopher :=
    set_base (mkPhilosopher (lastPhilosopherId + 1) THINKING 0) zeroServerPhilosopher in
  logServerState "Création du philosophe %d...\n" [ArgInt (p_id (base philosopher))];;
  left ← createChopstick (p_id (base philosopher));
  let philosopher := set_leftChopstick left philosopher in
  philosopher ← (if 0 <? lastPhilosopherId
                 then definePhilosopherRightChopstick philosopher
                 else mret philosopher);
  slot ← index lastPhilosopherId;
  write_philosopher slot (fun _ => philosopher);;
  modify_shm (fun r => set_numberPhilosophers (numberPhilosophers r + 1) r);;
  r ← get_shm;
  (if Z.rem (numberPhilosophers r) 2 =? 0
   then sem_post SemMaxAllowedEating
   else mret tt);;
  sem_post SemCreation;;
  mret philosopher.

(** [serverPhilosopher->base = philosopher] followed by the trace entry. *)
Definition overwrite_base (slot : nat) (philosopher : Philosopher) : M unit :=
  write_philosopher slot (set_base philosopher);;
  emit (EvSetBase slot philosopher).

(** The [sem_trywait] probe of the HUNGRY branch: when the semaphore
    cannot be taken at once, [waiting] sends the two records and the call
    goes to sleep in [sem_wait]. *)
Definition acquire (s : SemRef) (waiting : M unit) : M unit :=
  again ← sem_trywait_again s;
  if again : bool then waiting;; sem_wait s else mret tt.

(** The result is the [ServerPhilosopher *] the C function returns: NULL,
    or the address of a slot of the [philosophers] array. *)
Definition updatePhilosopher (philosopher : Philosopher) : M (option nat) :=
  r ← get_shm;
  match getPhilosopherFromId (p_id philosopher) (philosophers r) with
  | None =>
      logClientInfo "Erreur, le philosophe à mettre à jour est introuvable dans la mémoire partagée.\n";;
      mret None
  | Some serverPhilosopher =>
      match p_state philosopher with
      | THINKING =>
          stored ← read_philosopher serverPhilosopher;
          (match p_state (base stored) with
           | EATING =>
               l ← follow leftChopstick serverPhilosopher;
               sem_post (SemUsage l);;
               logClientInfo "Baguette gauche libérée\n";;
               l ← follow leftChopstick serverPhilosopher;
               lc ← read_chopstick l;
               logServerState "Le philosophe %d libère la baguette %d à sa gauche\n"
                 [ArgInt (p_id philosopher); ArgInt (c_id lc)];;
               rt ← follow rightChopstick serverPhilosopher;
               sem_post (SemUsage rt);;
               logClientInfo "Baguette droite libérée\n";;
               rt ← follow rightChopstick serverPhilosopher;
               rc ← read_chopstick rt;
               logServerState "Le philosophe %d libère la baguette %d à sa droite\n"
                 [ArgInt (p_id philosopher); ArgInt (c_id rc)];;
               sem_post SemMaxAllowedEating;;
               logClientInfo "Compteur libéré\n";;
               logServerState "Le philosophe %d libère le compteur\n\n" [ArgInt (p_id philosopher)]
           | _ => mret tt
           end);;
          overwrite_base serverPhilosopher philosopher;;
          stored ← read_philosopher serverPhilosopher;
          logClientAction (base stored);;
          mret None
      | EATING =>
          overwrite_base serverPhilosopher philosopher;;
          stored ← read_philosopher serverPhilosopher;
          logClientAction (base stored);;
          mret None
      | HUNGRY =>
          overwrite_base serverPhilosopher philosopher;;
          acquire SemMaxAllowedEating
            (logServerState "Le philosophe %d attend que le compteur se libère\n"
               [ArgInt (p_id philosopher)];;
             logClientInfo "En attente de pouvoir manger... \n");;
          allowedEating ← sem_getvalue SemMaxAllowedEating;
          logServerState "Le philosophe %d s'ajoute au compteur (dispo restante : %d)\n"
            [ArgInt (p_id philosopher); ArgInt allowedEating];;
          l ← follow leftChopstick serverPhilosopher;
          acquire (SemUsage l)
            (l ← follow leftChopstick serverPhilosopher;
             lc ← read_chopstick l;
             logServerState "Le philosophe %d attend que la baguette %d à sa gauche se libère\n"
               [ArgInt (p_id philosopher); ArgInt (c_id lc)];;
             logClientInfo "En attente de la baguette gauche...\n");;
          l ← follow leftChopstick serverPhilosopher;
          lc ← read_chopstick l;
          logServerState "Le philosophe %d prend la baguette %d à sa gauche\n"
            [ArgInt (p_id philosopher); ArgInt (c_id lc)];;
          rt ← follow rightChopstick serverPhilosopher;
          acquire (SemUsage rt)
            (rt ← follow rightChopstick serverPhilosopher;
             rc ← read_chopstick rt;
             logServerState "Le philosophe %d attend que la baguette %d à sa droite se libère\n"
               [ArgInt (p_id philosopher); ArgInt (c_id rc)];;
             logClientInfo "En attente de la baguette droite...\n");;
          rt ← follow rightChopstick serverPhilosopher;
          rc ← read_chopstick rt;
          logServerState "Le philosophe %d prend la baguette %d à sa droite\n"
            [ArgInt (p_id philosopher); ArgInt (c_id rc)];;
          write_philosopher serverPhilosopher (set_state EATING);;
          emit (EvSetState serverPhilosopher EATING);;
          write_philosopher serverPhilosopher (set_stateTimer 0);;
          emit (EvSetTimer serverPhilosopher 0);;
          mret (Some serverPhilosopher)
      end
  end.

(** ** Sequences of calls *)

(** A request as [clientProcess] dispatches it: REQUEST_CREATE to
    [createPhilosopher], REQUEST_UPDATE to [updatePhilosopher] with the
    participant the request carries. *)
Inductive Request :=
| REQUEST_CREATE
| REQUEST_UPDATE (philosopher : Philosopher).

Definition serve (q : Request) : M unit :=
  match q with
  | REQUEST_CREATE => createPhilosopher;; mret tt
  | REQUEST_UPDATE philosopher => updatePhilosopher philosopher;; mret tt
  end.

(** The requests are served one after the other; each one has returned
    before the next one starts. *)
Fixpoint serveAll (qs : list Request) : M unit :=
  match qs with
  | [] => mret tt
  | q :: qs' => serve q;; serveAll qs'
  end.

(** ** Reading a world *)

(** The world a call leaves behind, however it ended. *)
Definition world_of {A} (o : Outcome A) : World :=
  match o with
  | Done _ w => w
  | Blocked _ w => w
  | Fault w => w
  end.

#[global] Instance ServerPhilosopher_inhabited : Inhabited ServerPhilosopher :=
  populate zeroServerPhilosopher.
#[global] Instance Chopstick_inhabited : Inhabited Chopstick :=
  populate zeroChopstick.

(** Slot [i] of each array; outside the array the zero element. *)
Definition philAt (r : SharedResources) (i : nat) : ServerPhilosopher :=
  philosophers r !!! i.

Definition chopAt (r : SharedResources) (i : nat) : Chopstick :=
  chopsticks r !!! i.

Definition stateAt (r : SharedResources) (i : nat) : PhilosopherState :=
  p_state (base (philAt r i)).

Definition usageAt (r : SharedResources) (i : nat) : Z :=
  c_usage (chopAt r i).

(** The number of participants, as a [nat]. *)
Definition joined (r : SharedResources) : nat := Z.to_nat (numberPhilosophers r).

(** ** Partial correctness of one call *)

(** [wp m Q w]: if [m] returns from [w], [Q] holds of what it returns and
    of the world it leaves. *)
Definition wp {A} (m : M A) (Q : A -> World -> Prop) (w : World) : Prop :=
  match m w with
  | Done a w' => Q a w'
  | Blocked _ _ => True
  | Fault _ => True
  end.

(** ** The ring *)

(** The right chopstick of the participant of slot [i] when [n]
    participants have joined: the left chopstick of the next one, and for
    the last one the first chopstick; nothing while the first participant
    is alone. *)
Definition rightOf (n i : nat) : ChopstickPtr :=
  if (n =? 1)%nat then None
  else Some (if (S i =? n)%nat then 0%nat else S i).

(** The layout of the two tables after [joined r] joins. *)
Record Wired (r : SharedResources) : Prop := {
  wired_count : 0 <= numberPhilosophers r <= MAX_PHILOSOPHERS;
  wired_philosophers : length (philosophers r) = Z.to_nat MAX_PHILOSOPHERS;
  wired_chopsticks : length (chopsticks r) = Z.to_nat MAX_PHILOSOPHERS;
  wired_joined : forall i, (i < joined r)%nat ->
    p_id (base (philAt r i)) = Z.of_nat i + 1 /\
    leftChopstick (philAt r i) = Some i /\
    rightChopstick (philAt r i) = rightOf (joined r) i /\
    c_id (chopAt r i) = Z.of_nat i + 1;
  wired_free : forall i, (joined r <= i)%nat ->
    p_id (base (philAt r i)) = 0 /\
    leftChopstick (philAt r i) = None /\
    rightChopstick (philAt r i) = None /\
    c_id (chopAt r i) = 0 }.

(** The chopsticks after the semaphore of chopstick [i] went from its
    value [v] to [f v]. *)
Definition usage_map (f : Z -> Z) (i : nat) (cs : list Chopstick) : list Chopstick :=
  match cs !! i with
  | Some c => <[i := mkChopstick (c_id c) (f (c_usage c))]> cs
  | None => cs
  end.

(** The number of REQUEST_CREATE in a sequence of requests. *)
Fixpoint creations (qs : list Request) : nat :=
  match qs with
  | [] => 0
  | REQUEST_CREATE :: qs' => S (creations qs')
  | REQUEST_UPDATE _ :: qs' => creations qs'
  end.

(** What one [createPhilosopher] that returned [sp] has done to the
    segment: [r] before the call, [r'] after it. *)
Record Joined (r r' : SharedResources) (sp : ServerPhilosopher) : Prop := {
  jn_room : (joined r < 7)%nat;
  jn_count : numberPhilosophers r' = numberPhilosophers r + 1;
  jn_philosopher :
    sp = mkServerPhilosopher (mkPhilosopher (numberPhilosophers r + 1) THINKING 0)
           (Some (joined r)) (if (0 <? joined r)%nat then Some 0%nat else None);
  jn_philosophers : length (philosophers r') = length (philosophers r);
  jn_chopsticks : length (chopsticks r') = length (chopsticks r);
  jn_slot : philAt r' (joined r) = sp;
  jn_chopstick : chopAt r' (joined r) = mkChopstick (numberPhilosophers r + 1) 1;
  jn_before : forall i, (i < joined r)%nat ->
    philAt r' i = (if decide (S i = joined r)
                   then set_rightChopstick (Some (joined r)) (philAt r i)
                   else philAt r i) /\
    c_id (chopAt r' i) = c_id (chopAt r i) /\
    usageAt r' i = (if decide (i = 0%nat /\ (2 <= joined r)%nat)
                    then post_value (usageAt r 0 - 1)
                    else usageAt r i);
  jn_after : forall i, (joined r < i)%nat ->
    philAt r' i = philAt r i /\ chopAt r' i = chopAt r i;
  jn_gate :
    maxAllowedEating r' =
      (if Z.even (numberPhilosophers r + 1)
       then post_value (maxAllowedEating r) else maxAllowedEating r);
  jn_first_free : (2 <= joined r)%nat -> 0 < usageAt r 0 }.

(** ** The admission gate *)

(** 1 for a participant whose stored state is EATING, 0 otherwise. *)
Definition eats (sp : ServerPhilosopher) : Z :=
  match p_state (base sp) with
  | EATING => 1
  | _ => 0
  end.

Fixpoint eating (l : list ServerPhilosopher) : Z :=
  match l with
  | [] => 0
  | sp :: l' => eats sp + eating l'
  end.

(** The number of participants whose stored state is EATING. *)
Definition eatingCount (r : SharedResources) : Z :=
  eating (take (joined r) (philosophers r)).

Definition eatsAt (r : SharedResources) (i : nat) : Z := eats (philAt r i).

(** The participant whose right chopstick is chopstick [c]. *)
Definition predOf (n c : nat) : nat :=
  if (c =? 0)%nat then (n - 1)%nat else (c - 1)%nat.

(** The value of the gate in terms of the two tables. *)
Definition gate_formula (r : SharedResources) : Prop :=
  maxAllowedEating r = numberPhilosophers r / 2 - eatingCount r.

(** The gate, and every chopstick semaphore: a chopstick is free exactly
    when neither the participant on its right (who has it as left
    chopstick) nor the one on its left is eating, and the two never eat
    together. *)
Record Balanced (r : SharedResources) : Prop := {
  bal_gate : gate_formula r;
  bal_usage : forall c, (c < joined r)%nat ->
    0 <= usageAt r c /\
    usageAt r c + eatsAt r c + eatsAt r (predOf (joined r) c) = 1 }.

(** An update that carries EATING acknowledges the grant of an earlier
    HUNGRY update: the slot it finds already holds EATING. *)
Definition acknowledges (q : Request) (r : SharedResources) : bool :=
  match q with
  | REQUEST_CREATE => true
  | REQUEST_UPDATE p =>
      match p_state p with
      | EATING =>
          match getPhilosopherFromId (p_id p) (philosophers r) with
          | Some k =>
              match stateAt r k with
              | EATING => true
              | _ => false
              end
          | None => true
          end
      | _ => true
      end
  end.

(** Every request of the sequence acknowledges, in the world the requests
    before it have left. *)
Fixpoint acknowledging (qs : list Request) (w : World) : bool :=
  match qs with
  | [] => true
  | q :: qs' =>
      acknowledges q (shm w) &&
      match serve q w with
      | Done _ w' => acknowledging qs' w'
      | _ => true
      end
  end.

(** ** Reading a trace *)

Definition is_log (e : Event) : bool :=
  match e with
  | EvLog _ => true
  | _ => false
  end.

(** The trace without the records: the semaphore operations and the
    writes, in program order. *)
Fixpoint steps (evs : list Event) : list Event :=
  match evs with
  | [] => []
  | e :: evs' => if is_log e then steps evs' else e :: steps evs'
  end.

(** The records of a trace. *)
Fixpoint records (evs : list Event) : list LogRecord :=
  match evs with
  | [] => []
  | EvLog r :: evs' => r :: records evs'
  | _ :: evs' => records evs'
  end.

(** The record [updatePhilosopher] sends when it finds no slot. *)
Definition notFoundRecord : LogRecord :=
  mkLog ClientLog
    "Erreur, le philosophe à mettre à jour est introuvable dans la mémoire partagée.\n" [].

(** ** The successor graph of the ring *)

(** The chopstick after chopstick [c]: the right chopstick of the
    participant whose left chopstick is [c]. *)
Definition successor (r : SharedResources) (c : nat) : option nat :=
  match list_find (fun sp => leftChopstick sp = Some c)
                  (take (joined r) (philosophers r)) with
  | Some (_, sp) => rightChopstick sp
  | None => None
  end.

(** [k] steps along the successor graph from chopstick [c]. *)
Fixpoint orbit (r : SharedResources) (k : nat) (c : nat) : option nat :=
  match k with
  | O => Some c
  | S k' =>
      match orbit r k' c with
      | Some c' => successor r c'
      | None => None
      end
  end.

(** The left chopsticks of the participants, in the order of the table. *)
Definition lefts (r : SharedResources) : list ChopstickPtr :=
  leftChopstick <$> take (joined r) (philosophers r).

(** The ring of [n] participants: every reference is set, the right
    chopstick of each participant is the left chopstick of the next one,
    the last one closes on the first, and the walk from the first left
    chopstick visits the left chopsticks, each once, and is back where it
    started after [n] steps. *)
Record Ring (r : SharedResources) (n : nat) : Prop := {
  ring_joined : joined r = n;
  ring_set : forall i, (i < n)%nat ->
    is_Some (leftChopstick (philAt r i)) /\ is_Some (rightChopstick (philAt r i));
  ring_next : forall i, (S i < n)%nat ->
    rightChopstick (philAt r i) = leftChopstick (philAt r (S i));
  ring_closes :
    rightChopstick (philAt r (n - 1)) = leftChopstick (philAt r 0);
  ring_cycle : exists c0,
    leftChopstick (philAt r 0) = Some c0 /\
    orbit r n c0 = Some c0 /\
    (forall k, (0 < k < n)%nat -> orbit r k c0 <> Some c0) /\
    NoDup (lefts r) /\
    (fun k => orbit r k c0) <$> seq 0 n ≡ₚ lefts r }.

(** ** Worked requests *)

(** Two joins, a meal of the first participant, a third join, and the
    second participant asking to eat. *)
Definition dinner : list Request :=
  [REQUEST_CREATE; REQUEST_CREATE;
   REQUEST_UPDATE (mkPhilosopher 1 HUNGRY 0);
   REQUEST_UPDATE (mkPhilosopher 1 EATING 7);
   REQUEST_UPDATE (mkPhilosopher 1 EATING 6);
   REQUEST_UPDATE (mkPhilosopher 1 THINKING 9);
   REQUEST_CREATE;
   REQUEST_UPDATE (mkPhilosopher 2 THINKING 4);
   REQUEST_UPDATE (mkPhilosopher 2 HUNGRY 0)].

Definition afterDinner : World := world_of (serveAll dinner freshWorld).

(** Two joins. *)
Definition tableOfTwo : World :=
  world_of (serveAll [REQUEST_CREATE; REQUEST_CREATE] freshWorld).

(** The first participant asks to eat while alone, and sleeps on the gate;
    the second participant then joins. The first slot still holds HUNGRY. *)
Definition hungrySleeper : World :=
  world_of (serve REQUEST_CREATE
    (world_of (serveAll [REQUEST_CREATE; REQUEST_UPDATE (mkPhilosopher 1 HUNGRY 0)]
                 freshWorld))).

(** An update of identity 0 that carried EATING, on the new segment. *)
Definition zeroEating : World :=
  world_of (serveAll [REQUEST_UPDATE (mkPhilosopher 0 EATING 5)] freshWorld).

(** * Around the segment: the service process, the cleanup, the client

    The rest of the server: [sockets.h], [Request.c], [Response.c], the
    service process of [server.c] and the cleanup of [ServerContext.c];
    and the client: the thread of a participant in its [main.c],
    [random.h] and [commands.h].

    A process, or a thread, holds one end of a connected socket. What the
    other end and the network do is given with the process, as the counts
    the coming calls of [read] and [write] return; a call for which no
    count is left sleeps. The calls of the service process on the segment
    are those of the first part, run to their end one after the other. *)

(** ** At rest *)

(** What the two semaphores of the segment itself hold each time a request
    has returned. *)
Record AtRest (r : SharedResources) : Prop := {
  rest_gate : 0 <= maxAllowedEating r;
  rest_creation : philosopherCreationProcess r = 1 }.

(** ** [Request.h], [Response.h], [Request.c], [Response.c] *)

(** The two structures as they travel on a socket. *)
Module Wire.

(** [typedef enum { REQUEST_CREATE, REQUEST_UPDATE } RequestType] *)
Inductive RequestType := REQUEST_CREATE | REQUEST_UPDATE.

(** [struct { RequestType type; Philosopher philosopher; }] *)
Record Request := mkRequest {
  rq_type : RequestType;
  rq_philosopher : Philosopher }.

(** [typedef enum { RESPONSE_CREATE, RESPONSE_UPDATE } ResponseType] *)
Inductive ResponseType := RESPONSE_CREATE | RESPONSE_UPDATE.

(** [struct { ResponseType type; Philosopher philosopher; }] *)
Record Response := mkResponse {
  rs_type : ResponseType;
  rs_philosopher : Philosopher }.

(** [memset(&request, 0, sizeof(request))]: the first value of each
    enumeration and the zero participant. *)
Definition zeroRequest : Request := mkRequest REQUEST_CREATE zeroPhilosopher.
Definition zeroResponse : Response := mkResponse RESPONSE_CREATE zeroPhilosopher.

Definition createRequest : Request :=
  let request := zeroRequest in
  mkRequest REQUEST_CREATE (rq_philosopher request).

Definition updateRequest (philosopher : Philosopher) : Request :=
  let request := zeroRequest in
  mkRequest REQUEST_UPDATE philosopher.

Definition createResponse (philosopher : Philosopher) : Response :=
  let response := zeroResponse in
  mkResponse RESPONSE_CREATE philosopher.

Definition updateResponse (philosopher : Philosopher) : Response :=
  let response := zeroResponse in
  mkResponse RESPONSE_UPDATE philosopher.

End Wire.

(** The request a structure read from the socket is served as: the
    [switch (request.type)] of [clientProcess]. *)
Definition dispatch (request : Wire.Request) : Request :=
  match Wire.rq_type request with
  | Wire.REQUEST_CREATE => REQUEST_CREATE
  | Wire.REQUEST_UPDATE => REQUEST_UPDATE (Wire.rq_philosopher request)
  end.

(** ** Processes and sockets *)

(** [<signal.h>], [<stdlib.h>], [sockets.h] *)
Definition SIGINT : Z := 2.
Definition SIGKILL : Z := 9.
Definition EXIT_SUCCESS : Z := 0.
Definition EXIT_FAILURE : Z := 1.
Definition MAX_ATTEMPTS : nat := 5.

(** [print_message.h] *)
Inductive MessageType := INFO | SUCCESS | WARNING | ERROR.

(** What a process does to the outside of its memory: the calls of
    [write] on its socket, each with the structure handed over and the
    count returned, [kill(getppid(), signal)], [printMessage], [perror],
    [close] of the socket and [sleep]. *)
Inductive Action (Out : Type) :=
| ActWrite (data : Out) (result : Z)
| ActKillParent (signal : Z)
| ActPrint (type : MessageType) (format : string)
| ActPerror (s : string)
| ActClose
| ActSleep (seconds : Z).
Arguments ActWrite {Out} data result.
Arguments ActSleep {Out} seconds.
Arguments ActKillParent {Out} signal.
Arguments ActPrint {Out} type format.
Arguments ActPerror {Out} s.
Arguments ActClose {Out}.

(** A process, or a thread, that holds one end of a connected socket,
    between two statements: the memory it works on, what the next calls of
    [read] on the socket will return (the count, and the structure the
    buffer then holds), what the next calls of [write] will return, and
    what it has done so far. A call of [read] or [write] for which nothing
    is left sleeps. *)
Record Process (L In Out : Type) := mkProcess {
  pr_local : L;
  pr_incoming : list (Z * In);
  pr_outgoing : list Z;
  pr_actions : list (Action Out) }.
Arguments mkProcess {L In Out} _ _ _ _.
Arguments pr_local {L In Out} _.
Arguments pr_incoming {L In Out} _.
Arguments pr_outgoing {L In Out} _.
Arguments pr_actions {L In Out} _.

(** How a process stops. *)
Inductive Ending :=
| Exited (status : Z)    (* exit(status) *)
| Asleep (s : SemRef)    (* in sem_wait *)
| Reading                (* in read *)
| Writing                (* in write *)
| Left                   (* the function of the thread has returned *)
| Crashed.               (* undefined behaviour *)

Inductive Result (L In Out A : Type) :=
| Returns (a : A) (st : Process L In Out)
| Ends (e : Ending) (st : Process L In Out).
Arguments Returns {L In Out A} a st.
Arguments Ends {L In Out A} e st.

Definition Proc (L In Out A : Type) : Type := Process L In Out -> Result L In Out A.

#[global] Instance Proc_ret {L In Out} : MRet (Proc L In Out) := fun A a st => Returns a st.

#[global] Instance Proc_bind {L In Out} : MBind (Proc L In Out) := fun A B f m st =>
  match m st with
  | Returns a st' => f a st'
  | Ends e st' => Ends e st'
  end.

Section Sockets.
Context {L In Out : Type}.

Definition sys_read : Proc L In Out (Z * In) := fun st =>
  match pr_incoming st with
  | [] => Ends Reading st
  | received :: later =>
      Returns received (mkProcess (pr_local st) later (pr_outgoing st) (pr_actions st))
  end.

Definition sys_write (data : Out) : Proc L In Out Z := fun st =>
  match pr_outgoing st with
  | [] => Ends Writing st
  | result :: later =>
      Returns result
        (mkProcess (pr_local st) (pr_incoming st) later
           (pr_actions st ++ [ActWrite data result]))
  end.

(** The calls that only show outside. *)
Definition act (a : Action Out) : Proc L In Out unit := fun st =>
  Returns tt (mkProcess (pr_local st) (pr_incoming st) (pr_outgoing st) (pr_actions st ++ [a])).

Definition sys_exit (status : Z) : Proc L In Out unit := fun st => Ends (Exited status) st.

(** *** [sockets.h] *)

(** [trySocketRead]: [read] is called until it returns something else than
    -1, at most [MAX_ATTEMPTS] times, and the last count is returned.
    [attemptsLeft] counts the calls allowed after this one. *)
Fixpoint trySocketRead_loop (attemptsLeft : nat) : Proc L In Out (Z * In) :=
  received ← sys_read;
  if fst received =? -1 then
    match attemptsLeft with
    | O => mret received
    | S attemptsLeft => trySocketRead_loop attemptsLeft
    end
  else mret received.

Definition trySocketRead : Proc L In Out (Z * In) :=
  trySocketRead_loop (MAX_ATTEMPTS - 1).

Fixpoint trySocketWrite_loop (attemptsLeft : nat) (data : Out) : Proc L In Out Z :=
  bytesSent ← sys_write data;
  if bytesSent =? -1 then
    match attemptsLeft with
    | O => mret bytesSent
    | S attemptsLeft => trySocketWrite_loop attemptsLeft data
    end
  else mret bytesSent.

Definition trySocketWrite (data : Out) : Proc L In Out Z :=
  trySocketWrite_loop (MAX_ATTEMPTS - 1) data.

End Sockets.

(** ** The service process of one client: [server.c] *)

(** The memory of the process is the shared segment, with the trace of
    the calls. *)
Definition Service : Type := Process World Wire.Request Wire.Response.
Definition Serving (A : Type) : Type := Proc World Wire.Request Wire.Response A.

(** A call of one of the functions of the segment. *)
Definition call {A} (m : M A) : Serving A := fun st =>
  let resume w := mkProcess w (pr_incoming st) (pr_outgoing st) (pr_actions st) in
  match m (pr_local st) with
  | Done a w => Returns a (resume w)
  | Blocked s w => Ends (Asleep s) (resume w)
  | Fault w => Ends Crashed (resume w)
  end.

Definition manageCreateRequest (request : Wire.Request) : Serving unit :=
  created ← call createPhilosopher;
  let response := Wire.createResponse (base created) in
  bytesSent ← trySocketWrite response;
  (if bytesSent =? -1 then
     call (logClientInfo "Erreur lors d'une tentative d'envoi d'une réponse de création.\n")
   else if bytesSent =? 0 then
     call (logClientInfo "Le client a coupé la connexion.\n")
   else mret tt);;
  (if (bytesSent =? -1) || (bytesSent =? 0)
   then act (ActKillParent SIGINT);; sys_exit EXIT_FAILURE
   else mret tt);;
  call (logClientInfo "Philosophe connecté et ajouté à la table !\n").

Definition manageUpdateRequest (request : Wire.Request) : Serving unit :=
  serverPhilosopher ← call (updatePhilosopher (Wire.rq_philosopher request));
  match serverPhilosopher with
  | None => mret tt
  | Some slot =>
      stored ← call (read_philosopher slot);
      let response := Wire.updateResponse (base stored) in
      bytesSent ← trySocketWrite response;
      (if bytesSent =? -1 then
         call (logClientInfo "Erreur lors d'une tentative d'envoi d'une réponse pour autoriser le philosophe a manger.\n")
       else if bytesSent =? 0 then
         call (logClientInfo "Le client a coupé la connexion.\n")
       else mret tt);;
      (if (bytesSent =? -1) || (bytesSent =? 0)
       then act (ActKillParent SIGINT);; sys_exit EXIT_FAILURE
       else mret tt)
  end.

(** The [while (1)] of [clientProcess], for at most [iterations] turns:
    the result [tt] stands for a loop that would go on. *)
Fixpoint clientProcess_loop (iterations : nat) : Serving unit :=
  match iterations with
  | O => mret tt
  | S iterations =>
      received ← trySocketRead;
      let bytesReceived := fst received in
      let request := snd received in
      (if bytesReceived =? -1 then
         call (logClientInfo "Erreur à la lecture du socket\n")
       else if bytesReceived =? 0 then
         call (logClientInfo "Le client a coupé la connexion.\n")
       else mret tt);;
      (if (bytesReceived =? -1) || (bytesReceived =? 0)
       then act (ActKillParent SIGINT);; sys_exit EXIT_FAILURE
       else mret tt);;
      match Wire.rq_type request with
      | Wire.REQUEST_CREATE => manageCreateRequest request
      | Wire.REQUEST_UPDATE => manageUpdateRequest request
      end;;
      clientProcess_loop iterations
  end.

(** [clientProcess]. [initRandom] seeds the generator of [rand], which the
    service process does not call. Every turn of the loop that does not
    stop the process takes at least one of the counts [read] is to return:
    one turn more than there are counts is as many turns as the loop can
    make. *)
Definition clientProcess : Serving unit := fun st =>
  (call (logClientInfo "Processus serveur ouvert pour le client !\n");;
   clientProcess_loop (S (length (pr_incoming st)))) st.

(** ** Reading a process *)

(** Where a process stands, however it got there. *)
Definition process_of {L In Out A} (o : Result L In Out A) : Process L In Out :=
  match o with
  | Returns _ st => st
  | Ends _ st => st
  end.

(** The process after [read] calls have taken all but [l] of what was to
    come in. *)
Definition set_incoming {L In Out} (l : list (Z * In)) (st : Process L In Out) : Process L In Out :=
  mkProcess (pr_local st) l (pr_outgoing st) (pr_actions st).

(** The process after [write] has been called with [data] once for every
    count of [results], [later] being the counts still to come. *)
Definition wrote {L In Out} (data : Out) (results : list Z) (later : list Z)
    (st : Process L In Out) : Process L In Out :=
  mkProcess (pr_local st) (pr_incoming st) later
    (pr_actions st ++ (ActWrite data <$> results))%list.

(** The process with [l] as its memory. *)
Definition set_local {L In Out} (l : L) (st : Process L In Out) : Process L In Out :=
  mkProcess l (pr_incoming st) (pr_outgoing st) (pr_actions st).

(** The service process after the record [record] has been sent. *)
Definition logged (record : LogRecord) (st : Service) : Service :=
  set_local (mkWorld (shm (pr_local st)) (events (pr_local st) ++ [EvLog record])%list) st.

(** The process after the action [a]. *)
Definition acted {L In Out} (a : Action Out) (st : Process L In Out) : Process L In Out :=
  mkProcess (pr_local st) (pr_incoming st) (pr_outgoing st) (pr_actions st ++ [a])%list.

(** A count that is neither the -1 of an error nor the 0 of a closed
    connection. *)
Definition transferred (count : Z) : Prop := count <> -1 /\ count <> 0.

(** The three places of [server.c] that look at a count returned by
    [trySocketRead] or [trySocketWrite] do the same with it: at -1 the
    record [error], at 0 the record of the closed connection, and in both
    cases SIGINT to the parent and [exit(EXIT_FAILURE)]. *)
Definition stop_on_failure (count : Z) (error : string) : Serving unit :=
  (if count =? -1 then call (logClientInfo error)
   else if count =? 0 then call (logClientInfo "Le client a coupé la connexion.\n")
   else mret tt);;
  (if (count =? -1) || (count =? 0)
   then act (ActKillParent SIGINT);; sys_exit EXIT_FAILURE
   else mret tt).

(** How a process may stop: by [exit] only with EXIT_FAILURE and right
    after SIGINT has been sent to the parent; in [read] or [write] only
    when nothing is left of what the call was to return. *)
Definition orderly (e : Ending) (st : Service) : Prop :=
  match e with
  | Exited status =>
      status = EXIT_FAILURE /\ last (pr_actions st) = Some (ActKillParent SIGINT)
  | Reading => pr_incoming st = []
  | Writing => pr_outgoing st = []
  | Asleep _ | Crashed => True
  | Left => False
  end.

(** A statement that stops the process in an orderly way only, and gives
    nothing back to the socket. *)
Definition Tame {A} (m : Serving A) : Prop :=
  forall st,
    match m st with
    | Returns _ st' => (length (pr_incoming st') <= length (pr_incoming st))%nat
    | Ends e st' => orderly e st'
    end.

(** ** Calls and traces *)

(** An outcome with [ev] put before its trace. *)
Definition prepend {A} (ev : list Event) (o : Outcome A) : Outcome A :=
  match o with
  | Done a w => Done a (mkWorld (shm w) (ev ++ events w))
  | Blocked s w => Blocked s (mkWorld (shm w) (ev ++ events w))
  | Fault w => Fault (mkWorld (shm w) (ev ++ events w))
  end.

(** A call that reads the segment only: what it does from a world is what
    it does from the same segment with an empty trace, after the trace of
    the world. *)
Definition Local {A} (m : M A) : Prop :=
  forall w, m w = prepend (events w) (m (mkWorld (shm w) [])).

(** Two outcomes that end the same way on the same segment. *)
Definition agree {A} (o1 o2 : Outcome A) : Prop :=
  match o1, o2 with
  | Done a1 w1, Done a2 w2 => a1 = a2 /\ shm w1 = shm w2
  | Blocked s1 w1, Blocked s2 w2 => s1 = s2 /\ shm w1 = shm w2
  | Fault w1, Fault w2 => shm w1 = shm w2
  | _, _ => False
  end.

(** How the service process stops when the call it is in ends as [o] and
    nothing is left to read. *)
Definition ending_of {A} (o : Outcome A) : Ending :=
  match o with
  | Done _ _ => Reading
  | Blocked s _ => Asleep s
  | Fault _ => Crashed
  end.


(** ** [ServerContext.h], [ServerContext.c] *)

(** A [SharedResources *]: NULL, or the address the segment is attached
    at. *)
Inductive SegmentPtr := NullSegment | AttachedSegment.

Record ServerContext := mkServerContext {
  serverSocket : Z;
  sharedResourcesMemoryId : Z;
  sharedResources : SegmentPtr;
  serviceSockets : list Z;
  numberServiceSockets : Z;
  clientsProcessIds : list Z;
  numberClients : Z }.

(** [initServerContext]: [memset] to zero, then the two identifiers at -1
    and the two counts at 0. *)
Definition initServerContext : ServerContext :=
  mkServerContext (-1) (-1) NullSegment
    (replicate (Z.to_nat MAX_PHILOSOPHERS) 0) 0
    (replicate (Z.to_nat MAX_PHILOSOPHERS) 0) 0.

(** What [cleanup] does, in program order: the messages it prints with
    [printMessage] (format and arguments), the signals it sends, the
    descriptors it closes, and what it removes. *)
Inductive CleanupStep :=
| Printed (type : MessageType) (format : string) (args : list Z)
| Killed (pid : Z) (signal : Z)
| ClosedDescriptor (fd : Z)
| QueueRemoved (id : Z)          (* msgctl(id, IPC_RMID, NULL) *)
| SemDestroyed (s : SemRef)      (* sem_destroy *)
| SegmentDetached                (* shmdt *)
| SegmentRemoved (id : Z).       (* shmctl(id, IPC_RMID, NULL) *)

(** [for (int i = 0; i < count; i++) { ... array[i] ... }], from turn [i]
    on: the steps of the turns, or nothing when a turn leaves the array. *)
Fixpoint for_each {A} (array : list A) (i : nat) (turns : nat)
    (body : nat -> A -> list CleanupStep) : option (list CleanupStep) :=
  match turns with
  | O => Some []
  | S turns =>
      x ← array !! i;
      later ← for_each array (S i) turns body;
      Some (body i x ++ later)%list
  end.

(** [cleanup]: [segment] is what the attached segment holds when the
    function runs. *)
Definition cleanup (serverContext : ServerContext) (segment : SharedResources)
    : option (list CleanupStep) :=
  killed ← for_each (clientsProcessIds serverContext) 0
              (Z.to_nat (numberClients serverContext))
              (fun _ pid =>
                 [Killed pid SIGKILL;
                  Printed SUCCESS "Processus %d tué correctement. \n" [pid]]);
  let listening :=
    if serverSocket serverContext =? -1 then []
    else [ClosedDescriptor (serverSocket serverContext);
          Printed SUCCESS "Socket principal (%d) fermé correctement.\n"
            [serverSocket serverContext]] in
  closed ← for_each (serviceSockets serverContext) 0
              (Z.to_nat (numberServiceSockets serverContext))
              (fun _ fd =>
                 [ClosedDescriptor fd;
                  Printed SUCCESS "Socket de service (%d) fermé correctement.\n" [fd]]);
  match sharedResources serverContext with
  | NullSegment => None
  | AttachedSegment =>
      let queue :=
        if logsQueueId segment =? 0 then []
        else [QueueRemoved (logsQueueId segment);
              Printed SUCCESS
                "File de message des logs (%d) correctement supprimée du système.\n"
                [logsQueueId segment]] in
      destroyed ← for_each (chopsticks segment) 0
                     (Z.to_nat (numberChopsticks segment))
                     (fun i _ => [SemDestroyed (SemUsage i)]);
      let removed :=
        if sharedResourcesMemoryId serverContext =? -1 then []
        else [SegmentRemoved (sharedResourcesMemoryId serverContext);
              Printed SUCCESS "Mémoire partagée %d correctement supprimée du système.\n"
                [sharedResourcesMemoryId serverContext]] in
      Some ([Printed INFO "Nettoyage des ressources...\n" []] ++ killed ++ listening ++
            closed ++ queue ++
            [SemDestroyed SemMaxAllowedEating; SemDestroyed SemCreation] ++ destroyed ++
            [Printed SUCCESS "Sémaphores détruits correctement.\n" [];
             SegmentDetached;
             Printed SUCCESS "Ressources en mémoire partagée détachées correctement.\n" []] ++
            removed)%list
  end.

(** The semaphores a sequence of steps destroys. *)
Fixpoint destroyed_semaphores (steps : list CleanupStep) : list SemRef :=
  match steps with
  | [] => []
  | SemDestroyed s :: steps => s :: destroyed_semaphores steps
  | _ :: steps => destroyed_semaphores steps
  end.

(** The processes a sequence of steps kills. *)
Fixpoint killed_processes (steps : list CleanupStep) : list Z :=
  match steps with
  | [] => []
  | Killed pid _ :: steps => pid :: killed_processes steps
  | _ :: steps => killed_processes steps
  end.


(** ** The order of the requests of a participant *)

(** The state carried by the last update for [id] among the requests
    served so far, the most recent first. *)
Fixpoint last_update (id : Z) (history : list Request) : option PhilosopherState :=
  match history with
  | [] => None
  | REQUEST_UPDATE p :: earlier =>
      if p_id p =? id then Some (p_state p) else last_update id earlier
  | REQUEST_CREATE :: earlier => last_update id earlier
  end.

(** A request that comes in turn after [history]: an update names a
    participant that has joined, and when it carries EATING the last update
    for this participant carried HUNGRY or EATING. *)
Definition in_turn (history : list Request) (q : Request) : bool :=
  match q with
  | REQUEST_CREATE => true
  | REQUEST_UPDATE p =>
      (1 <=? p_id p) && (p_id p <=? Z.of_nat (creations history)) &&
      match p_state p with
      | EATING =>
          match last_update (p_id p) history with
          | Some HUNGRY | Some EATING => true
          | _ => false
          end
      | _ => true
      end
  end.

(** Every request of [qs] comes in turn, after [history] and the requests
    of [qs] before it. *)
Fixpoint disciplined (history : list Request) (qs : list Request) : bool :=
  match qs with
  | [] => true
  | q :: qs' => in_turn history q && disciplined (q :: history) qs'
  end.

(** The state the segment holds for [id] once the requests of [history]
    have been served: the state of its last update, EATING in place of
    HUNGRY, and the THINKING of its creation when it has sent none. *)
Definition stored_state (id : Z) (history : list Request) : PhilosopherState :=
  match last_update id history with
  | None => THINKING
  | Some HUNGRY => EATING
  | Some s => s
  end.

(** What the requests served so far, the most recent first, say of the
    table: the participants are those the joins have created, no update
    was for another identifier, and each participant is stored in the
    state of its last update. *)
Record Follows (history : list Request) (r : SharedResources) : Prop := {
  fo_wired : Wired r;
  fo_joined : joined r = creations history;
  fo_known : forall id s, last_update id history = Some s ->
    1 <= id <= Z.of_nat (creations history);
  fo_state : forall k, (k < joined r)%nat ->
    stateAt r k = stored_state (Z.of_nat k + 1) history }.


(** ** The thread of one participant: the client's [main.c] *)

(** [maxmin_philosophers.h], [<limits.h>] *)
Definition MIN_STATE_TIME : Z := 5.
Definition MAX_STATE_TIME : Z := 10.
Definition INT_MIN : Z := -2147483648.
Definition INT_MAX : Z := 2147483647.

(** The memory a thread works on: the [base] of its [ClientPhilosopher],
    and the values the calls of [rand] return, with the number of calls
    made so far. *)
Record ThreadMemory := mkThreadMemory {
  tm_base : Philosopher;
  tm_rand : nat -> Z;
  tm_drawn : nat }.

(** A thread reads responses and writes requests. *)
Definition Participant : Type := Process ThreadMemory Wire.Response Wire.Request.
Definition Thread (A : Type) : Type := Proc ThreadMemory Wire.Response Wire.Request A.

Definition get_base : Thread Philosopher := fun st =>
  Returns (tm_base (pr_local st)) st.

Definition put_base (philosopher : Philosopher) : Thread unit := fun st =>
  Returns tt
    (mkProcess
       (mkThreadMemory philosopher (tm_rand (pr_local st)) (tm_drawn (pr_local st)))
       (pr_incoming st) (pr_outgoing st) (pr_actions st)).

(** Undefined behaviour, and the [return] of the function of a thread. *)
Definition crash {L In Out A} : Proc L In Out A := fun st => Ends Crashed st.
Definition thread_return {L In Out A} : Proc L In Out A := fun st => Ends Left st.

(** The result of an operation on [int]: a result outside of the type is
    undefined behaviour. *)
Definition checked {L In Out} (z : Z) : Proc L In Out Z :=
  if (INT_MIN <=? z) && (z <=? INT_MAX) then mret z else crash.

(** The values [rand] returns, as the memory of a process holds them:
    what the next call returns, and the memory after this call. *)
Class Randomness (L : Type) := {
  next_rand : L -> Z;
  after_rand : L -> L }.

#[global] Instance ThreadMemory_randomness : Randomness ThreadMemory := {|
  next_rand memory := tm_rand memory (tm_drawn memory);
  after_rand memory :=
    mkThreadMemory (tm_base memory) (tm_rand memory) (S (tm_drawn memory)) |}.

Section Random.
Context {L In Out : Type} `{Randomness L}.

(** The process after a call of [rand]. *)
Definition drew (st : Process L In Out) : Process L In Out :=
  mkProcess (after_rand (pr_local st)) (pr_incoming st) (pr_outgoing st) (pr_actions st).

Definition rand : Proc L In Out Z := fun st =>
  Returns (next_rand (pr_local st)) (drew st).

(** [random.h]: [rand() % (max + 1 - min) + min]. *)
Definition randomRange (min max : Z) : Proc L In Out Z :=
  r ← rand;
  upper ← checked (max + 1);
  width ← checked (upper - min);
  if (width =? 0) || ((r =? INT_MIN) && (width =? -1)) then crash
  else checked (Z.rem r width + min).

End Random.

(** The [while (1)] of [philosopherThread], for at most [iterations]
    turns: the result [tt] stands for a loop that would go on. *)
Fixpoint philosopherThread_loop (iterations : nat) : Thread unit :=
  match iterations with
  | O => mret tt
  | S iterations =>
      act (ActSleep 1);;
      philosopher ← get_base;
      stateTimer ← checked (p_stateTimer philosopher - 1);
      put_base (mkPhilosopher (p_id philosopher) (p_state philosopher) stateTimer);;
      philosopher ← get_base;
      (if p_stateTimer philosopher <=? 0 then
         match p_state philosopher with
         | THINKING =>
             put_base (mkPhilosopher (p_id philosopher) HUNGRY (p_stateTimer philosopher))
         | EATING =>
             put_base (mkPhilosopher (p_id philosopher) THINKING (p_stateTimer philosopher));;
             stateTimer ← randomRange MIN_STATE_TIME MAX_STATE_TIME;
             philosopher ← get_base;
             put_base (mkPhilosopher (p_id philosopher) (p_state philosopher) stateTimer)
         | HUNGRY =>
             act (ActPrint ERROR "L'état du philosophe n'est pas pris en charge.\n");;
             sys_exit EXIT_FAILURE
         end
       else mret tt);;
      philosopher ← get_base;
      let request := Wire.updateRequest philosopher in
      bytesSent ← trySocketWrite request;
      (if bytesSent =? -1 then
         act (ActPrint ERROR "Erreur lors d'une tentative d'envoi d'un requête de mise à jour.\n");;
         act (ActPerror "write");;
         sys_exit EXIT_FAILURE
       else mret tt);;
      philosopher ← get_base;
      match p_state philosopher with
      | HUNGRY =>
          received ← trySocketRead;
          let response := snd received in
          (if fst received =? -1 then
             act (ActPrint ERROR "Erreur lors d'une tentative d'envoi d'un requête de mise à jour.\n");;
             act (ActPerror "write");;
             act ActClose;;
             sys_exit EXIT_FAILURE
           else mret tt);;
          match Wire.rs_type response with
          | Wire.RESPONSE_UPDATE =>
              philosopher ← get_base;
              put_base (mkPhilosopher (p_id philosopher)
                          (p_state (Wire.rs_philosopher response))
                          (p_stateTimer philosopher));;
              stateTimer ← randomRange MIN_STATE_TIME MAX_STATE_TIME;
              philosopher ← get_base;
              put_base (mkPhilosopher (p_id philosopher) (p_state philosopher) stateTimer)
          | Wire.RESPONSE_CREATE =>
              act (ActPrint ERROR "Le type de réponse attendu n'est pas correct.\n");;
              act ActClose;;
              thread_return
          end
      | _ => mret tt
      end;;
      philosopherThread_loop iterations
  end.

(** [philosopherThread]. Every turn of the loop that does not stop the
    thread takes at least one of the counts [write] is to return: one turn
    more than there are counts is as many turns as the loop can make. *)
Definition philosopherThread : Thread unit := fun st =>
  philosopherThread_loop (S (length (pr_outgoing st))) st.

(** The structures among [actions] that [write] has not refused with -1,
    in the order of the calls. *)
Fixpoint delivered {Out} (actions : list (Action Out)) : list Out :=
  match actions with
  | [] => []
  | ActWrite data result :: later =>
      if result =? -1 then delivered later else data :: delivered later
  | _ :: later => delivered later
  end.

(** No state of [states] is EATING right after a THINKING, [previous]
    being the state before the first one. *)
Fixpoint eats_after_asking (previous : PhilosopherState) (states : list PhilosopherState) : bool :=
  match states with
  | [] => true
  | s :: later =>
      match previous, s with
      | THINKING, EATING => false
      | _, _ => true
      end && eats_after_asking s later
  end.

(** What the thread does in [seconds] turns of its loop in which it sends
    the state [s] and the timer goes down from [timer]. *)
Fixpoint ticks (id : Z) (s : PhilosopherState) (timer : Z) (results : list Z)
    : list (Action Wire.Request) :=
  match results with
  | [] => []
  | result :: later =>
      ActSleep 1 :: ActWrite (Wire.updateRequest (mkPhilosopher id s (timer - 1))) result
        :: ticks id s (timer - 1) later
  end.

(** The states of the requests delivered among [actions]. *)
Definition sent_states (actions : list (Action Wire.Request)) : list PhilosopherState :=
  (fun request => p_state (Wire.rq_philosopher request)) <$> delivered actions.

(** The state of the last request delivered, THINKING when there is
    none: a thread is created THINKING. *)
Definition last_sent (actions : list (Action Wire.Request)) : PhilosopherState :=
  default THINKING (last (sent_states actions)).

(** An update for the participant [id]. *)
Definition own (id : Z) (request : Wire.Request) : Prop :=
  Wire.rq_type request = Wire.REQUEST_UPDATE /\ p_id (Wire.rq_philosopher request) = id.

(** What a thread has delivered so far: updates for [id] only, and no
    EATING right after a THINKING. *)
Definition Asked (id : Z) (st : Participant) : Prop :=
  Forall (own id) (delivered (pr_actions st)) /\
  eats_after_asking THINKING (sent_states (pr_actions st)) = true.

(** What holds of a thread between two turns of its loop: it is EATING
    only when its last request was not THINKING. *)
Definition Asking (id : Z) (st : Participant) : Prop :=
  Asked id st /\
  p_id (tm_base (pr_local st)) = id /\
  (p_state (tm_base (pr_local st)) = EATING -> last_sent (pr_actions st) <> THINKING).

(** The thread with [philosopher] as its [base]. *)
Definition with_base (philosopher : Philosopher) (st : Participant) : Participant :=
  mkProcess
    (mkThreadMemory philosopher (tm_rand (pr_local st)) (tm_drawn (pr_local st)))
    (pr_incoming st) (pr_outgoing st) (pr_actions st).

(** What holds once [m] has run from [st]: [Q] of its result and of the
    process when it returns, [E] of the way the process stops otherwise. *)
Definition after {L In Out A} (m : Proc L In Out A) (st : Process L In Out)
    (Q : A -> Process L In Out -> Prop) (E : Ending -> Process L In Out -> Prop) : Prop :=
  match m st with
  | Returns a st' => Q a st'
  | Ends e st' => E e st'
  end.


(** ** Joining the table: [addPhilosophers] of the client's [main.c] *)

(** [ClientPhilosopher.h]: [struct { Philosopher base; pthread_t thread;
    Socket clientSocket; }]. Of the socket its descriptor is kept; the
    address is the same for all. The handle of the thread is written by
    [pthread_create] and not read. *)
Record ClientPhilosopher := mkClientPhilosopher {
  cp_base : Philosopher;
  cp_socket : Z }.

(** What the system answers during one turn of the loop of
    [addPhilosophers]: the descriptor [socket] returns, what [connect]
    returns on it, the counts the calls of [write] and [read] on this
    socket return, and what [pthread_create] returns. *)
Record Attempt := mkAttempt {
  at_socket : Z;
  at_connect : Z;
  at_outgoing : list Z;
  at_incoming : list (Z * Wire.Response);
  at_thread : Z }.

(** The memory of the main thread of the client: the array
    [philosophers] of [main] and its [numberOfPhilosophers], the values
    [rand] returns, the answers of the system turn after turn with the
    number of sockets opened so far, and the elements of the array on
    which a thread has been started. *)
Record ClientMemory := mkClientMemory {
  cm_philosophers : list ClientPhilosopher;
  cm_currentNumber : Z;
  cm_rand : nat -> Z;
  cm_drawn : nat;
  cm_attempts : nat -> Attempt;
  cm_opened : nat;
  cm_started : list nat }.

#[global] Instance ClientMemory_randomness : Randomness ClientMemory := {|
  next_rand memory := cm_rand memory (cm_drawn memory);
  after_rand memory :=
    mkClientMemory (cm_philosophers memory) (cm_currentNumber memory) (cm_rand memory)
      (S (cm_drawn memory)) (cm_attempts memory) (cm_opened memory) (cm_started memory) |}.

(** The main thread reads responses and writes requests, on the socket
    it has opened last. *)
Definition Client : Type := Process ClientMemory Wire.Response Wire.Request.
Definition Joining (A : Type) : Type := Proc ClientMemory Wire.Response Wire.Request A.

(** The answers for the socket opened last. *)
Definition attempt_of (memory : ClientMemory) : Attempt :=
  cm_attempts memory (pred (cm_opened memory)).

(** [sockets.h]: [getSocket] is [socket(SOCKET_FAMILY, SOCKET_TYPE, 0)]. The
    calls of [read] and [write] that follow are on the new socket. *)
Definition getSocket : Joining Z := fun st =>
  let memory := pr_local st in
  let attempt := cm_attempts memory (cm_opened memory) in
  Returns (at_socket attempt)
    (mkProcess
       (mkClientMemory (cm_philosophers memory) (cm_currentNumber memory) (cm_rand memory)
          (cm_drawn memory) (cm_attempts memory) (S (cm_opened memory)) (cm_started memory))
       (at_incoming attempt) (at_outgoing attempt) (pr_actions st)).

(** [connect] on the socket opened last. *)
Definition sys_connect : Joining Z := fun st =>
  Returns (at_connect (attempt_of (pr_local st))) st.

(** [*currentNumber] *)
Definition get_currentNumber : Joining Z := fun st =>
  Returns (cm_currentNumber (pr_local st)) st.

Definition put_currentNumber (n : Z) : Joining unit := fun st =>
  let memory := pr_local st in
  Returns tt
    (mkProcess
       (mkClientMemory (cm_philosophers memory) n (cm_rand memory) (cm_drawn memory)
          (cm_attempts memory) (cm_opened memory) (cm_started memory))
       (pr_incoming st) (pr_outgoing st) (pr_actions st)).

(** [philosophers[index] = philosopher]: outside of the array the
    behaviour is undefined. *)
Definition put_philosopher (index : Z) (philosopher : ClientPhilosopher) : Joining unit :=
  fun st =>
    let memory := pr_local st in
    if (0 <=? index) && (index <? Z.of_nat (length (cm_philosophers memory))) then
      Returns tt
        (mkProcess
           (mkClientMemory (<[Z.to_nat index := philosopher]> (cm_philosophers memory))
              (cm_currentNumber memory) (cm_rand memory) (cm_drawn memory)
              (cm_attempts memory) (cm_opened memory) (cm_started memory))
           (pr_incoming st) (pr_outgoing st) (pr_actions st))
    else Ends Crashed st.

(** [pthread_create(&philosophers[index].thread, NULL, philosopherThread,
    &philosophers[index])]: at 0 a thread has been started on the
    element. *)
Definition pthread_create (index : Z) : Joining Z := fun st =>
  let memory := pr_local st in
  let result := at_thread (attempt_of memory) in
  Returns result
    (mkProcess
       (mkClientMemory (cm_philosophers memory) (cm_currentNumber memory) (cm_rand memory)
          (cm_drawn memory) (cm_attempts memory) (cm_opened memory)
          (if result =? 0 then (cm_started memory ++ [Z.to_nat index])%list
           else cm_started memory))
       (pr_incoming st) (pr_outgoing st) (pr_actions st)).

(** The [for] loop of [addPhilosophers], with [turns] turns left. A
    [break] is the end of the loop. *)
Fixpoint addPhilosophers_loop (turns : nat) : Joining unit :=
  match turns with
  | O => mret tt
  | S turns =>
      socket ← getSocket;
      connected ← sys_connect;
      if connected =? -1 then
        act (ActPrint ERROR "Une erreur est survenue lors d'une tentative de connexion au serveur.\n");;
        act (ActPerror "connect")
      else
        let request := Wire.createRequest in
        bytesSent ← trySocketWrite request;
        if bytesSent =? -1 then
          act (ActPrint ERROR "Une erreur est survenue lors d'une requête d'ajout de philosophe.\n");;
          act (ActPerror "write");;
          act ActClose
        else
          received ← trySocketRead;
          let response := snd received in
          if fst received =? -1 then
            act (ActPrint ERROR "Une erreur est survenue lors de la réception d'une réponse d'ajout de philosophe.\n");;
            act (ActPerror "write");;
            act ActClose
          else
            match Wire.rs_type response with
            | Wire.RESPONSE_UPDATE =>
                act (ActPrint ERROR "Le type de réponse attendu n'est pas correct.\n");;
                act ActClose
            | Wire.RESPONSE_CREATE =>
                act (ActPrint INFO "Philosophe reçu par le serveur : %d \n");;
                let base := Wire.rs_philosopher response in
                let base := mkPhilosopher (p_id base) THINKING (p_stateTimer base) in
                stateTimer ← randomRange MIN_STATE_TIME MAX_STATE_TIME;
                let base := mkPhilosopher (p_id base) (p_state base) stateTimer in
                let newPhilosopher := mkClientPhilosopher base socket in
                currentNumber ← get_currentNumber;
                put_philosopher currentNumber newPhilosopher;;
                created ← pthread_create currentNumber;
                (if created =? 0 then
                   act (ActPrint SUCCESS "Le philosphe %d a été créé et connecté avec succès. \n");;
                   currentNumber ← get_currentNumber;
                   incremented ← checked (currentNumber + 1);
                   put_currentNumber incremented
                 else mret tt);;
                addPhilosophers_loop turns
            end
  end.

Definition addPhilosophers (number : Z) : Joining unit :=
  act (ActPrint INFO "\nAjout de %d philosophe%s.. \n");;
  addPhilosophers_loop (Z.to_nat number).

(** A participant as [addPhilosophers] leaves it to its thread: THINKING,
    for a time between the two bounds, on one of the sockets opened, under
    the identifier of a RESPONSE_CREATE that [read] has returned on this
    socket. *)
Definition seated (attempts : nat -> Attempt) (philosopher : ClientPhilosopher) : Prop :=
  p_state (cp_base philosopher) = THINKING /\
  MIN_STATE_TIME <= p_stateTimer (cp_base philosopher) <= MAX_STATE_TIME /\
  exists turn received,
    cp_socket philosopher = at_socket (attempts turn) /\
    In received (at_incoming (attempts turn)) /\
    fst received <> -1 /\
    Wire.rs_type (snd received) = Wire.RESPONSE_CREATE /\
    p_id (cp_base philosopher) = p_id (Wire.rs_philosopher (snd received)).

(** What a run of [addPhilosophers] for at most [turns] turns has done
    between [before] and [after]: threads started on consecutive
    elements of the array, from the number of participants on; this
    number raised by one for each of them; each of them seated; and the
    elements below left as they were. *)
Definition Added (turns : nat) (before after : ClientMemory) : Prop :=
  exists added : nat,
    (added <= turns)%nat /\
    cm_started after =
      (cm_started before ++ seq (Z.to_nat (cm_currentNumber before)) added)%list /\
    cm_currentNumber after = cm_currentNumber before + Z.of_nat added /\
    length (cm_philosophers after) = length (cm_philosophers before) /\
    cm_rand after = cm_rand before /\
    cm_attempts after = cm_attempts before /\
    (forall k, (k < Z.to_nat (cm_currentNumber before))%nat ->
       cm_philosophers after !! k = cm_philosophers before !! k) /\
    (forall k, (Z.to_nat (cm_currentNumber before) <= k < Z.to_nat (cm_currentNumber after))%nat ->
       exists philosopher,
         cm_philosophers after !! k = Some philosopher /\
         seated (cm_attempts before) philosopher).


(** ** [commands.h] *)

(** A command is the string the buffer holds, without its terminating
    zero. *)
Definition ADD_COMMAND : string := "/add".
Definition QUIT_COMMAND : string := "/quit".

(** [<string.h>]: the string a buffer holds after [strncpy(buffer, source, n)]
    and [buffer[n] = 0]. *)
Definition strncpy (source : string) (n : nat) : string := substring 0 n source.

(** [<ctype.h>]: [isdigit] of a character of a command. On a byte above
    127, a negative [char] where [char] is signed, the model answers that
    it is no digit. *)
Definition isdigit (c : ascii) : bool :=
  (48 <=? nat_of_ascii c)%nat && (nat_of_ascii c <=? 57)%nat.

(** [<stdlib.h>]: [atoi] on a string of digits; [accumulator] is the value
    of the digits read so far. A value outside of [int] is undefined
    behaviour. *)
Fixpoint atoi_digits (accumulator : Z) (digits : string) : Z :=
  match digits with
  | EmptyString => accumulator
  | String c later =>
      atoi_digits (10 * accumulator + (Z.of_nat (nat_of_ascii c) - 48)) later
  end.

Definition atoi (digits : string) : option Z :=
  let value := atoi_digits 0 digits in
  if value <=? 2147483647 then Some value else None.

Definition isAddCommand (command : string) : bool :=
  let addCommand := strncpy command (String.length ADD_COMMAND) in
  if String.eqb addCommand ADD_COMMAND then true else false.

Definition isQuitCommand (command : string) : bool :=
  if String.eqb command QUIT_COMMAND then true else false.

(** The characters of [s], for the loop over them. *)
Fixpoint characters (s : string) : list ascii :=
  match s with
  | EmptyString => []
  | String c later => c :: characters later
  end.

(** [getAddCommandNumber]. [command + strlen(ADD_COMMAND) + 1] is the
    command without its first five characters; on a shorter command the
    pointer is past the terminating zero, and what the function reads is
    not the command: [None]. *)
Definition getAddCommandNumber (command : string) : option Z :=
  let skipped := (String.length ADD_COMMAND + 1)%nat in
  if (String.length command <? skipped)%nat then None
  else
    let numberOfPhilosophers :=
      substring skipped (String.length command - skipped) command in
    if forallb isdigit (characters numberOfPhilosophers)
    then atoi numberOfPhilosophers
    else Some (-1).

(** [n] written in base ten. *)
Definition decimal (n : nat) : string := NilEmpty.string_of_uint (Nat.to_uint n).

(** * Proofs *)

(** ** The rules of [wp] *)

Section WpRules.
Context {A B : Type}.

Lemma wp_done (m : M A) (Q : A -> World -> Prop) w a w' :
  m w = Done a w' -> wp m Q w -> Q a w'.
Proof. unfold wp. intros ->. auto. Qed.

Lemma wp_ret (a : A) (Q : A -> World -> Prop) w :
  Q a w -> wp (mret a) Q w.
Proof. auto. Qed.

Lemma wp_bind (m : M A) (f : A -> M B) (Q : B -> World -> Prop) w :
  wp m (fun a w' => wp (f a) Q w') w -> wp (m ≫= f) Q w.
Proof.
  unfold wp, mbind, M_bind. destruct (m w); auto.
Qed.

Lemma wp_mono (m : M A) (Q Q' : A -> World -> Prop) w :
  (forall a w', Q a w' -> Q' a w') -> wp m Q w -> wp m Q' w.
Proof. unfold wp. destruct (m w); auto. Qed.

Lemma wp_fault (Q : A -> World -> Prop) w : wp fault Q w.
Proof. exact I. Qed.
End WpRules.

(** The rules of the primitives say how the segment changes; the trace
    they extend is left arbitrary. *)

Lemma wp_get_shm (Q : SharedResources -> World -> Prop) w :
  Q (shm w) w -> wp get_shm Q w.
Proof. auto. Qed.

Lemma wp_modify_shm f (Q : unit -> World -> Prop) w :
  (forall ev, Q tt (mkWorld (f (shm w)) ev)) -> wp (modify_shm f) Q w.
Proof. intros H. apply H. Qed.

Lemma wp_emit e (Q : unit -> World -> Prop) w :
  (forall ev, Q tt (mkWorld (shm w) ev)) -> wp (emit e) Q w.
Proof. intros H. apply H. Qed.

Lemma wp_logServerState format args (Q : unit -> World -> Prop) w :
  (forall ev, Q tt (mkWorld (shm w) ev)) -> wp (logServerState format args) Q w.
Proof. apply wp_emit. Qed.

Lemma wp_logClientInfo message (Q : unit -> World -> Prop) w :
  (forall ev, Q tt (mkWorld (shm w) ev)) -> wp (logClientInfo message) Q w.
Proof. apply wp_emit. Qed.

Lemma wp_logClientAction p (Q : unit -> World -> Prop) w :
  (forall ev, Q tt (mkWorld (shm w) ev)) -> wp (logClientAction p) Q w.
Proof.
  intros H. unfold logClientAction. apply wp_bind.
  destruct (p_state p); try exact I; apply wp_ret, wp_emit, H.
Qed.

Lemma wp_index i (Q : nat -> World -> Prop) w :
  (0 <= i < MAX_PHILOSOPHERS -> Q (Z.to_nat i) w) -> wp (index i) Q w.
Proof.
  intros H. unfold index.
  destruct (0 <=? i) eqn:E1; destruct (i <? MAX_PHILOSOPHERS) eqn:E2; try exact I.
  apply wp_ret, H. lia.
Qed.

Lemma wp_deref p (Q : nat -> World -> Prop) w :
  (forall i, p = Some i -> Q i w) -> wp (deref p) Q w.
Proof. intros H. destruct p; [apply wp_ret; auto | exact I]. Qed.

Lemma wp_read_philosopher i (Q : ServerPhilosopher -> World -> Prop) w :
  (forall sp, philosophers (shm w) !! i = Some sp -> Q sp w) ->
  wp (read_philosopher i) Q w.
Proof.
  intros H. unfold read_philosopher. apply wp_bind, wp_get_shm.
  destruct (philosophers (shm w) !! i); [apply wp_ret; auto | exact I].
Qed.

Lemma wp_write_philosopher i f (Q : unit -> World -> Prop) w :
  (forall sp ev, philosophers (shm w) !! i = Some sp ->
     Q tt (mkWorld (set_philosophers (<[i := f sp]> (philosophers (shm w))) (shm w)) ev)) ->
  wp (write_philosopher i f) Q w.
Proof.
  intros H. unfold write_philosopher. apply wp_bind, wp_read_philosopher.
  intros sp Hsp. apply wp_modify_shm. auto.
Qed.

Lemma wp_read_chopstick i (Q : Chopstick -> World -> Prop) w :
  (forall c, chopsticks (shm w) !! i = Some c -> Q c w) ->
  wp (read_chopstick i) Q w.
Proof.
  intros H. unfold read_chopstick. apply wp_bind, wp_get_shm.
  destruct (chopsticks (shm w) !! i); [apply wp_ret; auto | exact I].
Qed.

Lemma wp_write_chopstick i c (Q : unit -> World -> Prop) w :
  (forall c0 ev, chopsticks (shm w) !! i = Some c0 ->
     Q tt (mkWorld (set_chopsticks (<[i := c]> (chopsticks (shm w))) (shm w)) ev)) ->
  wp (write_chopstick i c) Q w.
Proof.
  intros H. unfold write_chopstick. apply wp_bind, wp_read_chopstick.
  intros c0 Hc0. apply wp_modify_shm. eauto.
Qed.

Lemma wp_follow field slot (Q : nat -> World -> Prop) w :
  (forall sp i, philosophers (shm w) !! slot = Some sp -> field sp = Some i -> Q i w) ->
  wp (follow field slot) Q w.
Proof.
  intros H. unfold follow. apply wp_bind, wp_read_philosopher.
  intros sp Hsp. apply wp_deref. eauto.
Qed.

Lemma wp_sem_wait s (Q : unit -> World -> Prop) w :
  (forall v ev, sem_value s (shm w) = Some v -> 0 < v ->
     Q tt (mkWorld (sem_set s (v - 1) (shm w)) ev)) ->
  wp (sem_wait s) Q w.
Proof.
  intros H. unfold wp, sem_wait.
  destruct (sem_value s (shm w)) as [v|]; [|exact I].
  destruct (0 <? v) eqn:E; [|exact I]. apply H; [done | lia].
Qed.

Lemma wp_sem_post s (Q : unit -> World -> Prop) w :
  (forall v ev, sem_value s (shm w) = Some v ->
     Q tt (mkWorld (sem_set s (post_value v) (shm w)) ev)) ->
  wp (sem_post s) Q w.
Proof.
  intros H. unfold wp, sem_post.
  destruct (sem_value s (shm w)) as [v|]; [|exact I]. auto.
Qed.

Lemma wp_sem_getvalue s (Q : Z -> World -> Prop) w :
  (forall v, sem_value s (shm w) = Some v -> Q v w) ->
  wp (sem_getvalue s) Q w.
Proof.
  intros H. unfold wp, sem_getvalue.
  destruct (sem_value s (shm w)) as [v|]; [|exact I]. auto.
Qed.

(** [acquire] returns only when the probe took the unit: after a failed
    probe the semaphore is still empty and [sem_wait] sleeps. *)
Lemma wp_acquire s waiting (Q : unit -> World -> Prop) w :
  (forall w0, shm w0 = shm w -> wp waiting (fun _ w1 => shm w1 = shm w0) w0) ->
  (forall v ev, sem_value s (shm w) = Some v -> 0 < v ->
     Q tt (mkWorld (sem_set s (v - 1) (shm w)) ev)) ->
  wp (acquire s waiting) Q w.
Proof.
  intros Hw H. unfold acquire. apply wp_bind.
  unfold wp at 1, sem_trywait_again.
  destruct (sem_value s (shm w)) as [v|] eqn:Hv; [|exact I].
  destruct (0 <? v) eqn:E.
  - apply wp_ret, H; [done | lia].
  - apply wp_bind.
    eapply wp_mono; [|apply Hw; reflexivity].
    cbn. intros _ w1 Hw1. apply wp_sem_wait. rewrite Hw1. intros v' ev Hv' Hpos.
    rewrite Hv in Hv'. injection Hv' as <-. lia.
Qed.

(** ** How [createPhilosopher] changes the segment *)

(** Projections of the records through the field updates. *)
Ltac seg :=
  unfold set_maxAllowedEating, set_philosopherCreationProcess, set_philosophers,
    set_numberPhilosophers, set_chopsticks, set_numberChopsticks, set_logsQueueId in *;
  cbn [shm events philosophers chopsticks numberPhilosophers maxAllowedEating
       philosopherCreationProcess numberChopsticks logsQueueId
       base leftChopstick rightChopstick set_base set_leftChopstick
       set_rightChopstick set_state set_stateTimer
       p_id p_state p_stateTimer c_id c_usage
       zeroServerPhilosopher zeroPhilosopher zeroChopstick] in *.

(** The same, with the two semaphores of the segment itself. *)
Ltac segs := cbn [sem_set sem_value] in *; seg.

Lemma sem_value_usage i r v :
  sem_value (SemUsage i) r = Some v ->
  exists c, chopsticks r !! i = Some c /\ c_usage c = v.
Proof.
  cbn. destruct (chopsticks r !! i) as [c|]; cbn; [|done].
  intros [= <-]. eauto.
Qed.

Lemma sem_set_usage i r v c :
  chopsticks r !! i = Some c ->
  sem_set (SemUsage i) v r = set_chopsticks (<[i := mkChopstick (c_id c) v]> (chopsticks r)) r.
Proof. cbn. intros ->. done. Qed.

Lemma joined_count r : 0 <= numberPhilosophers r -> numberPhilosophers r = Z.of_nat (joined r).
Proof. unfold joined. lia. Qed.

(** The statements of [createPhilosopher] after the right chopstick is
    defined. *)
Ltac create_tail :=
  apply wp_bind, wp_index; intros _; rewrite ?Nat2Z.id;
  apply wp_bind, wp_write_philosopher; seg; intros ?old ?ev ?Hold;
  apply wp_bind, wp_modify_shm; intros ?ev; seg;
  apply wp_bind, wp_get_shm; seg;
  match goal with
  | Hn : numberPhilosophers _ = Z.of_nat _, Hpar : (_ =? 0) = Z.even _ |- _ =>
      rewrite ?Hn, Hpar
  end;
  apply wp_bind;
  [ match goal with
    | |- context [Z.even ?x] =>
        destruct (Z.even x) eqn:Heven;
        [ apply wp_sem_post; segs; intros ?v ?ev [= <-] | apply wp_ret ]
    end;
    apply wp_bind, wp_sem_post; segs; intros ?v ?ev [= <-]; apply wp_ret; seg ].

Lemma philAt_lookup r i sp : philosophers r !! i = Some sp -> philAt r i = sp.
Proof. apply list_lookup_total_correct. Qed.

Lemma chopAt_lookup r i c : chopsticks r !! i = Some c -> chopAt r i = c.
Proof. apply list_lookup_total_correct. Qed.

Lemma createPhilosopher_effect w (Q : ServerPhilosopher -> World -> Prop) :
  let r := shm w in
  Wired r ->
  (forall ev n sp,
     n = joined r -> (n < 7)%nat ->
     sp = mkServerPhilosopher (mkPhilosopher (Z.of_nat n + 1) THINKING 0) (Some n)
            (if (0 <? n)%nat then Some 0%nat else None) ->
     0 < philosopherCreationProcess r ->
     ((2 <= n)%nat -> 0 < usageAt r 0) ->
     Q sp (mkWorld
       (mkSharedResources
          (if Z.even (Z.of_nat n + 1) then post_value (maxAllowedEating r) else maxAllowedEating r)
          (post_value (philosopherCreationProcess r - 1))
          (<[n := sp]>
             (if (0 <? n)%nat
              then <[(n - 1)%nat := set_rightChopstick (Some n) (philAt r (n - 1))]> (philosophers r)
              else philosophers r))
          (Z.of_nat n + 1)
          (<[n := mkChopstick (Z.of_nat n + 1) 1]>
             (if (2 <=? n)%nat
              then <[0%nat := mkChopstick (c_id (chopAt r 0)) (post_value (usageAt r 0 - 1))]> (chopsticks r)
              else chopsticks r))
          (numberChopsticks r)
          (logsQueueId r)) ev)) ->
  wp createPhilosopher Q w.
Proof.
  intros r HW HQ. subst r. unfold createPhilosopher.
  pose proof (wired_count _ HW) as Hc.
  pose proof (joined_count _ (proj1 Hc)) as Hn.
  pose proof (wired_philosophers _ HW) as Hpl.
  pose proof (wired_chopsticks _ HW) as Hcl.
  pose proof (wired_joined _ HW) as Hj.
  change (Z.to_nat MAX_PHILOSOPHERS) with 7%nat in *.
  remember (joined (shm w)) as n eqn:Hjn.
  apply wp_bind, wp_sem_wait. intros v ev0 Hv Hpos. cbn in Hv. injection Hv as <-.
  apply wp_bind, wp_get_shm. segs. rewrite ?Hn.
  apply wp_bind, wp_logServerState; intros ?ev. seg.
  apply wp_bind. unfold createChopstick.
  apply wp_bind, wp_index. intros Hidx. replace (Z.to_nat (Z.of_nat n + 1 - 1)) with n by lia.
  apply wp_bind, wp_write_chopstick. seg. intros c0 ?ev Hc0.
  apply wp_bind, wp_logServerState; intros ?ev. seg. apply wp_ret.
  assert (Hlt : (n < 7)%nat) by (unfold MAX_PHILOSOPHERS in Hidx; lia).
  assert (Hpar : (Z.rem (Z.of_nat n + 1) 2 =? 0) = Z.even (Z.of_nat n + 1)).
  { rewrite Z.rem_mod_nonneg, Zmod_even by lia.
    destruct (Z.even (Z.of_nat n + 1)); reflexivity. }
  apply wp_bind.
  destruct (0 <? Z.of_nat n) eqn:En.
  - (* not the first participant *)
    unfold definePhilosopherRightChopstick.
    apply wp_bind, wp_get_shm. seg. rewrite ?Hn.
    apply wp_bind, wp_logServerState; intros ?ev. seg.
    apply wp_bind, wp_deref. intros l [= <-].
    apply wp_bind, wp_read_chopstick. seg. intros lc Hlc.
    apply wp_bind, wp_index. intros Hprev.
    replace (Z.to_nat (Z.of_nat n - 1)) with (n - 1)%nat by lia.
    apply wp_bind, wp_read_philosopher. seg. intros pp Hpp.
    apply philAt_lookup in Hpp as Hpp'. subst pp.
    apply wp_bind, wp_logServerState; intros ?ev. seg.
    apply wp_bind.
    destruct (Z.of_nat n + 1 =? 2) eqn:E2.
    + (* the second participant *)
      assert (n = 1%nat) as -> by lia.
      apply wp_write_philosopher. seg. intros p0 ?ev Hp0.
      apply philAt_lookup in Hp0 as <-.
      apply wp_ret. create_tail.
      all: try discriminate Heven.
      eapply (HQ _ 1%nat); try reflexivity; try done; lia.
    + destruct (2 <? Z.of_nat n + 1) eqn:E3; [|lia].
      assert (2 <= n)%nat as Hn2 by lia.
      apply wp_bind, wp_index. intros _.
      replace (Z.to_nat (Z.of_nat n - 1)) with (n - 1)%nat by lia.
      apply wp_bind, wp_follow. seg. intros pp c Hpp2 Hright.
      rewrite Hpp in Hpp2. injection Hpp2 as <-.
      destruct (Hj (n - 1)%nat ltac:(lia)) as (_ & _ & Hr & _).
      rewrite Hr in Hright. unfold rightOf in Hright.
      destruct (Nat.eqb_spec n 1); [lia|].
      destruct (Nat.eqb_spec (S (n - 1)) n); [|lia].
      injection Hright as <-.
      apply wp_bind, wp_sem_wait. intros v ?ev Hv Hvpos.
      apply sem_value_usage in Hv as (ch0 & Hch0 & <-). seg.
      rewrite list_lookup_insert_ne in Hch0 by lia.
      erewrite sem_set_usage
        by (seg; rewrite list_lookup_insert_ne by lia; exact Hch0).
      seg.
      apply chopAt_lookup in Hch0 as Hch0'. subst ch0.
      apply wp_bind, wp_write_philosopher. seg. intros pp ?ev Hpp2.
      rewrite Hpp in Hpp2. injection Hpp2 as <-.
      apply wp_sem_post. seg. intros v ?ev Hv.
      apply sem_value_usage in Hv as (ch1 & Hch1 & <-). seg.
      erewrite sem_set_usage by (seg; exact Hch1).
      seg.
      rewrite list_lookup_insert_eq in Hch1
        by (rewrite length_insert; lia).
      injection Hch1 as <-. seg.
      apply wp_ret. create_tail.
      all: rewrite list_insert_insert_eq,
             (list_insert_insert_ne _ 0 n) by lia.
      all: match goal with
           | |- _ _ (mkWorld _ ?e) =>
               specialize (HQ e n _ eq_refl Hlt eq_refl Hpos (fun _ => Hvpos))
           end.
      all: destruct (Nat.ltb_spec 0 n); [|lia].
      all: destruct (Nat.leb_spec 2 n); [|lia].
      all: rewrite Heven in HQ; exact HQ.
  - assert (n = 0%nat) as -> by lia.
    apply wp_ret. create_tail.
    all: try discriminate Heven.
    eapply (HQ _ 0%nat); try reflexivity; try done; lia.
Qed.

(** ** [getPhilosopherFromId] *)

Lemma getPhilosopherFromId_loop_Some id l i k :
  getPhilosopherFromId_loop id l i = Some k ->
  (i <= k)%nat /\
  (exists sp, l !! (k - i)%nat = Some sp /\ p_id (base sp) = id) /\
  (forall j sp, (j < k - i)%nat -> l !! j = Some sp -> p_id (base sp) <> id).
Proof.
  revert i. induction l as [|sp l IH]; intros i; cbn; [done|].
  destruct (Z.eqb_spec (p_id (base sp)) id) as [Heq|Hne].
  - intros [= <-]. rewrite Nat.sub_diag. split; [lia|]. split; [eauto|].
    intros j ? Hj. lia.
  - intros H. apply IH in H as (Hle & (sp' & Hsp' & Hid) & Hfirst).
    split; [lia|]. replace (k - i)%nat with (S (k - S i)) by lia.
    split; [eauto|].
    intros [|j] sp0 Hj; cbn; [intros [= <-]; done|].
    apply Hfirst. lia.
Qed.

Lemma getPhilosopherFromId_loop_None id l i :
  getPhilosopherFromId_loop id l i = None ->
  forall j sp, l !! j = Some sp -> p_id (base sp) <> id.
Proof.
  revert i. induction l as [|sp l IH]; intros i; cbn; [done|].
  destruct (Z.eqb_spec (p_id (base sp)) id) as [Heq|Hne]; [done|].
  intros H [|j] sp0; cbn; [intros [= <-]; done|]. eauto.
Qed.

(** The slot found holds the identifier asked for, and is the first one
    that does. *)
Lemma getPhilosopherFromId_Some id l k :
  getPhilosopherFromId id l = Some k ->
  (k < 7)%nat /\
  (exists sp, l !! k = Some sp /\ p_id (base sp) = id) /\
  (forall j sp, (j < k)%nat -> l !! j = Some sp -> p_id (base sp) <> id).
Proof.
  unfold getPhilosopherFromId. change (Z.to_nat MAX_PHILOSOPHERS) with 7%nat.
  intros H. apply getPhilosopherFromId_loop_Some in H as (_ & (sp & Hsp & Hid) & Hfirst).
  rewrite Nat.sub_0_r in *.
  apply lookup_take_Some in Hsp as [Hsp Hk].
  split; [done|]. split; [eauto|].
  intros j sp0 Hj Hsp0. apply (Hfirst j); [done|].
  rewrite lookup_take_lt by lia. done.
Qed.

Lemma getPhilosopherFromId_None id l :
  getPhilosopherFromId id l = None ->
  forall j sp, (j < 7)%nat -> l !! j = Some sp -> p_id (base sp) <> id.
Proof.
  unfold getPhilosopherFromId. change (Z.to_nat MAX_PHILOSOPHERS) with 7%nat.
  intros H j sp Hj Hsp.
  apply (getPhilosopherFromId_loop_None _ _ _ H j).
  rewrite lookup_take_lt by lia. done.
Qed.

(** Conversely, the first slot that holds [id] is the one found. *)
Lemma getPhilosopherFromId_first id l k sp :
  (k < 7)%nat -> l !! k = Some sp -> p_id (base sp) = id ->
  (forall j sp', (j < k)%nat -> l !! j = Some sp' -> p_id (base sp') <> id) ->
  getPhilosopherFromId id l = Some k.
Proof.
  intros Hk Hsp Hid Hfirst.
  destruct (getPhilosopherFromId id l) as [k'|] eqn:E.
  - apply getPhilosopherFromId_Some in E as (Hk' & (sp' & Hsp' & Hid') & Hfirst').
    destruct (Nat.lt_trichotomy k k') as [Hlt|[->|Hgt]]; [|done|].
    + exfalso. eapply Hfirst'; eauto.
    + exfalso. eapply Hfirst; eauto.
  - exfalso. eapply getPhilosopherFromId_None; eauto.
Qed.

(** ** How [updatePhilosopher] changes the segment *)

Lemma sem_set_usage_map f i r v :
  sem_value (SemUsage i) r = Some v ->
  sem_set (SemUsage i) (f v) r = set_chopsticks (usage_map f i (chopsticks r)) r.
Proof.
  unfold usage_map. cbn. destruct (chopsticks r !! i) as [c|]; cbn; [|done].
  intros [= <-]. done.
Qed.

Lemma sem_value_length i r v :
  sem_value (SemUsage i) r = Some v -> (i < length (chopsticks r))%nat.
Proof.
  intros H. apply sem_value_usage in H as (c & Hc & _).
  eapply lookup_lt_Some; eauto.
Qed.

Lemma sem_value_usageAt i r v :
  sem_value (SemUsage i) r = Some v -> usageAt r i = v.
Proof.
  intros H. apply sem_value_usage in H as (c & Hc & <-).
  unfold usageAt. by rewrite (chopAt_lookup _ _ _ Hc).
Qed.

Lemma updatePhilosopher_effect p w (Q : option nat -> World -> Prop) :
  let r := shm w in
  (getPhilosopherFromId (p_id p) (philosophers r) = None ->
   forall ev, Q None (mkWorld r ev)) ->
  (forall k sp ev,
     getPhilosopherFromId (p_id p) (philosophers r) = Some k ->
     philosophers r !! k = Some sp ->
     match p_state p with
     | THINKING =>
         match p_state (base sp) with
         | EATING =>
             forall l rt,
               leftChopstick sp = Some l -> rightChopstick sp = Some rt ->
               (l < length (chopsticks r))%nat -> (rt < length (chopsticks r))%nat ->
               Q None (mkWorld
                 (mkSharedResources (post_value (maxAllowedEating r))
                    (philosopherCreationProcess r)
                    (<[k := set_base p sp]> (philosophers r))
                    (numberPhilosophers r)
                    (usage_map post_value rt (usage_map post_value l (chopsticks r)))
                    (numberChopsticks r) (logsQueueId r)) ev)
         | _ =>
             Q None (mkWorld (set_philosophers (<[k := set_base p sp]> (philosophers r)) r) ev)
         end
     | EATING =>
         Q None (mkWorld (set_philosophers (<[k := set_base p sp]> (philosophers r)) r) ev)
     | HUNGRY =>
         forall l rt,
           leftChopstick sp = Some l -> rightChopstick sp = Some rt ->
           0 < maxAllowedEating r ->
           0 < usageAt r l ->
           0 < c_usage (usage_map Z.pred l (chopsticks r) !!! rt) ->
           Q (Some k) (mkWorld
             (mkSharedResources (maxAllowedEating r - 1)
                (philosopherCreationProcess r)
                (<[k := set_base (mkPhilosopher (p_id p) EATING 0) sp]> (philosophers r))
                (numberPhilosophers r)
                (usage_map Z.pred rt (usage_map Z.pred l (chopsticks r)))
                (numberChopsticks r) (logsQueueId r)) ev)
     end) ->
  wp (updatePhilosopher p) Q w.
Proof.
  intros r Hnone Hsome. subst r. unfold updatePhilosopher.
  apply wp_bind, wp_get_shm.
  destruct (getPhilosopherFromId (p_id p) (philosophers (shm w))) as [k|] eqn:Hfind.
  2:{ apply wp_bind, wp_logClientInfo. intros ev. apply wp_ret. auto. }
  clear Hnone.
  destruct (p_state p) eqn:Hst.
  - (* THINKING *)
    apply wp_bind, wp_read_philosopher. intros sp Hsp.
    specialize (Hsome k sp).
    apply wp_bind.
    destruct (p_state (base sp)) eqn:Hstored.
    + apply wp_ret. unfold overwrite_base.
      apply wp_bind, wp_bind, wp_write_philosopher. seg. intros sp' ?ev Hsp'.
      rewrite Hsp in Hsp'. injection Hsp' as <-.
      apply wp_emit. intros ?ev. seg.
      apply wp_bind, wp_read_philosopher. seg. intros ? _.
      apply wp_bind, wp_logClientAction. intros ?ev. apply wp_ret. seg. eauto.
    + apply wp_ret. unfold overwrite_base.
      apply wp_bind, wp_bind, wp_write_philosopher. seg. intros sp' ?ev Hsp'.
      rewrite Hsp in Hsp'. injection Hsp' as <-.
      apply wp_emit. intros ?ev. seg.
      apply wp_bind, wp_read_philosopher. seg. intros ? _.
      apply wp_bind, wp_logClientAction. intros ?ev. apply wp_ret. seg. eauto.
    + apply wp_bind, wp_follow. intros sp' l Hsp' Hl.
      rewrite Hsp in Hsp'. injection Hsp' as <-.
      apply wp_bind, wp_sem_post. intros v ?ev Hv.
      pose proof (sem_value_length _ _ _ Hv) as Hllen.
      rewrite (sem_set_usage_map post_value) by done.
      apply wp_bind, wp_logClientInfo. intros ?ev. seg.
      apply wp_bind, wp_follow. seg. intros ? ? _ _.
      apply wp_bind, wp_read_chopstick. seg. intros ? _.
      apply wp_bind, wp_logServerState. intros ?ev. seg.
      apply wp_bind, wp_follow. seg. intros sp' rt Hsp' Hrt.
      rewrite Hsp in Hsp'. injection Hsp' as <-.
      apply wp_bind, wp_sem_post. seg. intros v' ?ev Hv'.
      pose proof (sem_value_length _ _ _ Hv') as Hrlen.
      rewrite (sem_set_usage_map post_value) by done. seg.
      apply wp_bind, wp_logClientInfo. intros ?ev. seg.
      apply wp_bind, wp_follow. seg. intros ? ? _ _.
      apply wp_bind, wp_read_chopstick. seg. intros ? _.
      apply wp_bind, wp_logServerState. intros ?ev. seg.
      apply wp_bind, wp_sem_post. segs. intros ? ?ev [= <-].
      apply wp_bind, wp_logClientInfo. intros ?ev. seg.
      apply wp_logServerState. intros ?ev. seg.
      unfold overwrite_base.
      apply wp_bind, wp_bind, wp_write_philosopher. seg. intros sp' ?ev Hsp'.
      rewrite Hsp in Hsp'. injection Hsp' as <-.
      apply wp_emit. intros ?ev. seg.
      apply wp_bind, wp_read_philosopher. seg. intros ? _.
      apply wp_bind, wp_logClientAction. intros ?ev. apply wp_ret.
      seg. apply Hsome; try done.
      unfold usage_map in Hrlen. destruct (chopsticks (shm w) !! l); [|done].
      by rewrite length_insert in Hrlen.
  - (* HUNGRY *)
    unfold overwrite_base.
    apply wp_bind, wp_bind, wp_write_philosopher. seg. intros sp ?ev Hsp.
    specialize (Hsome k sp).
    assert (Hk : (k < length (philosophers (shm w)))%nat)
      by (eapply lookup_lt_Some; eauto).
    apply wp_emit. intros ?ev. seg.
    apply wp_bind, wp_acquire.
    { intros w0 Hw0. apply wp_bind, wp_logServerState. intros ?ev.
      apply wp_logClientInfo. intros ?ev. done. }
    segs. intros ? ?ev [= <-] Hgate.
    apply wp_bind, wp_sem_getvalue. segs. intros ? _.
    apply wp_bind, wp_logServerState. intros ?ev. seg.
    apply wp_bind, wp_follow. seg. intros sp' l Hsp' Hl.
    rewrite list_lookup_insert_eq in Hsp' by done. injection Hsp' as <-. seg.
    apply wp_bind, wp_acquire.
    { intros w0 Hw0. apply wp_bind, wp_follow. intros ? ? _ _.
      apply wp_bind, wp_read_chopstick. intros ? _.
      apply wp_bind, wp_logServerState. intros ?ev.
      apply wp_logClientInfo. intros ?ev. done. }
    intros v1 ?ev Hv Hvpos.
    pose proof (sem_value_usageAt _ _ _ Hv) as Hul. unfold usageAt, chopAt in Hul. seg.
    change (v1 - 1) with (Z.pred v1).
    rewrite (sem_set_usage_map Z.pred) by done. seg.
    apply wp_bind, wp_follow. seg. intros ? ? _ _.
    apply wp_bind, wp_read_chopstick. seg. intros ? _.
    apply wp_bind, wp_logServerState. intros ?ev. seg.
    apply wp_bind, wp_follow. seg. intros sp' rt Hsp' Hrt.
    rewrite list_lookup_insert_eq in Hsp' by done. injection Hsp' as <-. seg.
    apply wp_bind, wp_acquire.
    { intros w0 Hw0. apply wp_bind, wp_follow. intros ? ? _ _.
      apply wp_bind, wp_read_chopstick. intros ? _.
      apply wp_bind, wp_logServerState. intros ?ev.
      apply wp_logClientInfo. intros ?ev. done. }
    intros v' ?ev Hv' Hvpos'.
    pose proof (sem_value_usageAt _ _ _ Hv') as Hur. unfold usageAt, chopAt in Hur. seg.
    change (v' - 1) with (Z.pred v').
    rewrite (sem_set_usage_map Z.pred) by done. seg.
    apply wp_bind, wp_follow. seg. intros ? ? _ _.
    apply wp_bind, wp_read_chopstick. seg. intros ? _.
    apply wp_bind, wp_logServerState. intros ?ev. seg.
    apply wp_bind, wp_write_philosopher. seg. intros sp' ?ev Hsp'.
    rewrite list_lookup_insert_eq in Hsp' by done. injection Hsp' as <-. seg.
    apply wp_bind, wp_emit. intros ?ev. seg.
    apply wp_bind, wp_write_philosopher. seg. intros sp' ?ev Hsp'.
    rewrite list_lookup_insert_eq in Hsp' by (by rewrite length_insert).
    injection Hsp' as <-. unfold set_stateTimer. seg.
    apply wp_bind, wp_emit. intros ?ev. seg.
    apply wp_ret. seg.
    rewrite !list_insert_insert_eq.
    apply Hsome; try done; unfold usageAt, chopAt; lia.
  - (* EATING *)
    unfold overwrite_base.
    apply wp_bind, wp_bind, wp_write_philosopher. seg. intros sp ?ev Hsp.
    apply wp_emit. intros ?ev. seg.
    apply wp_bind, wp_read_philosopher. seg. intros ? _.
    apply wp_bind, wp_logClientAction. intros ?ev. apply wp_ret. seg.
    apply (Hsome k sp); done.
Qed.

(** ** The layout of the tables is kept by every call *)

Lemma usage_map_length f i cs : length (usage_map f i cs) = length cs.
Proof. unfold usage_map. destruct (cs !! i); [apply length_insert | done]. Qed.

Lemma usage_map_lookup f i cs j :
  usage_map f i cs !!! j =
  if decide (i = j /\ (i < length cs)%nat)
  then mkChopstick (c_id (cs !!! i)) (f (c_usage (cs !!! i)))
  else cs !!! j.
Proof.
  unfold usage_map. destruct (cs !! i) as [c|] eqn:Hc.
  - rewrite list_lookup_total_insert, (list_lookup_total_correct _ _ _ Hc). done.
  - apply lookup_ge_None in Hc. case_decide; [lia | done].
Qed.

Lemma usage_map_id f i cs j : c_id (usage_map f i cs !!! j) = c_id (cs !!! j).
Proof. rewrite usage_map_lookup. case_decide as H; [destruct H as [-> _]|]; done. Qed.

Lemma fresh_Wired : Wired (shm freshWorld).
Proof.
  split.
  - cbn. unfold MAX_PHILOSOPHERS. lia.
  - reflexivity.
  - reflexivity.
  - intros i Hi. unfold joined in Hi. cbn in Hi. lia.
  - intros i _. unfold philAt, chopAt. cbn.
    do 7 (destruct i as [|i]; [done|]). done.
Qed.

Lemma rightOf_grow n i : (S i < n)%nat -> rightOf (S n) i = rightOf n i.
Proof.
  intros H. unfold rightOf.
  destruct (Nat.eqb_spec (S n) 1), (Nat.eqb_spec n 1); try lia.
  destruct (Nat.eqb_spec (S i) (S n)), (Nat.eqb_spec (S i) n); try lia. done.
Qed.

(** Names the segment a call leaves and keeps it as the equations of its
    fields. *)
Ltac name_store r' :=
  match goal with
  | |- context [mkWorld (mkSharedResources ?g ?c ?ps ?n ?cs ?nc ?q) _] =>
      let E := fresh "E" in
      remember (mkSharedResources g c ps n cs nc q) as r' eqn:E;
      assert (maxAllowedEating r' = g) by (rewrite E; reflexivity);
      assert (philosophers r' = ps) by (rewrite E; reflexivity);
      assert (numberPhilosophers r' = n) by (rewrite E; reflexivity);
      assert (chopsticks r' = cs) by (rewrite E; reflexivity);
      clear E
  end.

Lemma createPhilosopher_Joined w :
  Wired (shm w) ->
  wp createPhilosopher (fun sp w' => Joined (shm w) (shm w') sp) w.
Proof.
  intros HW. apply createPhilosopher_effect; [done|].
  intros ev n sp Hn Hlt Hsp _ Hfree.
  pose proof (wired_count _ HW) as Hc.
  pose proof (wired_philosophers _ HW) as Hpl.
  pose proof (wired_chopsticks _ HW) as Hcl.
  pose proof (joined_count _ (proj1 Hc)) as HN. rewrite <- Hn in HN.
  change (Z.to_nat MAX_PHILOSOPHERS) with 7%nat in *.
  name_store r'. rename H into Hg, H0 into Hps, H1 into Hnp, H2 into Hcs.
  cbn [shm].
  split; rewrite <- ?Hn, ?HN; try done.
  - rewrite Hps, Hpl. destruct (0 <? n)%nat; rewrite ?length_insert; done.
  - rewrite Hcs, Hcl. destruct (2 <=? n)%nat; rewrite ?length_insert; done.
  - unfold philAt. rewrite Hps. apply list_lookup_total_insert_eq.
    destruct (0 <? n)%nat; rewrite ?length_insert; lia.
  - unfold chopAt. rewrite Hcs. apply list_lookup_total_insert_eq.
    destruct (2 <=? n)%nat; rewrite ?length_insert; lia.
  - intros i Hi. unfold usageAt, philAt, chopAt. rewrite Hps, Hcs.
    rewrite !list_lookup_total_insert_ne by lia.
    destruct (Nat.ltb_spec 0 n); [|lia]. split; [|split].
    + rewrite list_lookup_total_insert.
      destruct (decide (S i = n)) as [Hin|Hin].
      * rewrite decide_True by (split; lia).
        replace (n - 1)%nat with i by lia. done.
      * rewrite decide_False by (intros [? _]; lia). done.
    + destruct (2 <=? n)%nat; [|done].
      rewrite list_lookup_total_insert. case_decide as Hd; [|done].
      destruct Hd as [<- _]. done.
    + destruct (Nat.leb_spec 2 n).
      * rewrite list_lookup_total_insert.
        destruct (decide (i = 0%nat)) as [->|Hi0].
        -- rewrite !decide_True by (split; [done | lia]). done.
        -- rewrite !decide_False by (intros [? _]; done). done.
      * rewrite decide_False by lia. done.
  - intros i Hi. unfold philAt, chopAt. rewrite Hps, Hcs.
    rewrite !list_lookup_total_insert_ne by lia.
    destruct (0 <? n)%nat, (2 <=? n)%nat;
      rewrite ?list_lookup_total_insert_ne by lia; done.
Qed.

Lemma Wired_Joined r r' sp :
  Wired r -> Joined r r' sp -> Wired r' /\ joined r' = S (joined r).
Proof.
  intros HW HJ.
  pose proof (wired_count _ HW) as Hc.
  pose proof (joined_count _ (proj1 Hc)) as HN.
  pose proof (jn_room _ _ _ HJ) as Hroom.
  pose proof (jn_count _ _ _ HJ) as Hcount.
  assert (Hj : joined r' = S (joined r)) by (unfold joined in *; lia).
  split; [|done]. split.
  - rewrite Hcount. unfold MAX_PHILOSOPHERS. lia.
  - rewrite (jn_philosophers _ _ _ HJ). apply HW.
  - rewrite (jn_chopsticks _ _ _ HJ). apply HW.
  - rewrite Hj. intros i Hi.
    destruct (decide (i = joined r)) as [->|Hne].
    + rewrite (jn_slot _ _ _ HJ), (jn_chopstick _ _ _ HJ), (jn_philosopher _ _ _ HJ).
      cbn [base p_id leftChopstick rightChopstick c_id]. unfold rightOf.
      repeat split; try lia.
      destruct (joined r) as [|m]; cbn; rewrite ?Nat.eqb_refl; done.
    + assert (Hi' : (i < joined r)%nat) by lia.
      destruct (jn_before _ _ _ HJ i Hi') as (-> & -> & _).
      destruct (wired_joined _ HW i Hi') as (Hid & Hl & Hr & Hcid).
      destruct (decide (S i = joined r)) as [Hin|Hin]; cbn; repeat split; try done.
      * unfold rightOf. destruct (Nat.eqb_spec (S (joined r)) 1); [lia|].
        destruct (Nat.eqb_spec (S i) (S (joined r))); [lia|]. f_equal. lia.
      * rewrite rightOf_grow by lia. done.
  - rewrite Hj. intros i Hi.
    destruct (jn_after _ _ _ HJ i ltac:(lia)) as [-> ->].
    apply (wired_free _ HW). lia.
Qed.

Lemma createPhilosopher_Wired w :
  Wired (shm w) ->
  wp createPhilosopher
    (fun sp w' =>
       Wired (shm w') /\ joined (shm w') = S (joined (shm w)) /\
       philAt (shm w') (joined (shm w)) = sp)
    w.
Proof.
  intros HW. eapply wp_mono; [|by apply createPhilosopher_Joined].
  intros sp w' HJ. destruct (Wired_Joined _ _ _ HW HJ) as [H1 H2].
  split; [done|]. split; [done|]. apply HJ.
Qed.

(** Two segments with the same participants' identifiers and references
    and the same chopsticks' identifiers. *)
Lemma Wired_same_layout r r' :
  Wired r ->
  numberPhilosophers r' = numberPhilosophers r ->
  length (philosophers r') = length (philosophers r) ->
  length (chopsticks r') = length (chopsticks r) ->
  (forall i, p_id (base (philAt r' i)) = p_id (base (philAt r i)) /\
             leftChopstick (philAt r' i) = leftChopstick (philAt r i) /\
             rightChopstick (philAt r' i) = rightChopstick (philAt r i) /\
             c_id (chopAt r' i) = c_id (chopAt r i)) ->
  Wired r'.
Proof.
  intros HW Hn Hpl Hcl Hsame.
  assert (Hj : joined r' = joined r) by (unfold joined; congruence).
  split.
  - rewrite Hn. apply HW.
  - rewrite Hpl. apply HW.
  - rewrite Hcl. apply HW.
  - rewrite Hj. intros i Hi.
    destruct (Hsame i) as (-> & -> & -> & ->). by apply HW.
  - rewrite Hj. intros i Hi.
    destruct (Hsame i) as (-> & -> & -> & ->). by apply HW.
Qed.

(** Rewriting the [base] of a slot with the identifier it holds. *)
Lemma same_layout_set_base (ps : list ServerPhilosopher) k sp b i :
  ps !! k = Some sp -> p_id b = p_id (base sp) ->
  p_id (base (<[k := set_base b sp]> ps !!! i)) = p_id (base (ps !!! i)) /\
  leftChopstick (<[k := set_base b sp]> ps !!! i) = leftChopstick (ps !!! i) /\
  rightChopstick (<[k := set_base b sp]> ps !!! i) = rightChopstick (ps !!! i).
Proof.
  intros Hsp Hid. rewrite list_lookup_total_insert.
  case_decide as Hd; [|done]. destruct Hd as [<- _].
  rewrite (list_lookup_total_correct _ _ _ Hsp). done.
Qed.

Lemma updatePhilosopher_Wired p w :
  Wired (shm w) ->
  wp (updatePhilosopher p)
    (fun _ w' => Wired (shm w') /\ joined (shm w') = joined (shm w)) w.
Proof.
  intros HW. apply updatePhilosopher_effect.
  - intros _ ev. done.
  - intros k sp ev Hfind Hsp.
    apply getPhilosopherFromId_Some in Hfind as (_ & (sp' & Hsp' & Hid) & _).
    rewrite Hsp in Hsp'. injection Hsp' as <-.
    assert (Hgen : forall g cs b,
              p_id b = p_id (base sp) ->
              length cs = length (chopsticks (shm w)) ->
              (forall i, c_id (cs !!! i) = c_id (chopsticks (shm w) !!! i)) ->
              let r' := mkSharedResources g (philosopherCreationProcess (shm w))
                          (<[k := set_base b sp]> (philosophers (shm w)))
                          (numberPhilosophers (shm w)) cs
                          (numberChopsticks (shm w)) (logsQueueId (shm w)) in
              Wired r' /\ joined r' = joined (shm w)).
    { intros g cs b Hb Hlen Hids r'. split; [|done].
      apply (Wired_same_layout (shm w)); try done.
      - apply length_insert.
      - intros i. unfold philAt, chopAt. cbn.
        destruct (same_layout_set_base (philosophers (shm w)) k sp b i Hsp Hb)
          as (-> & -> & ->). by rewrite Hids. }
    destruct (p_state p) eqn:Hst.
    + destruct (p_state (base sp)) eqn:Hstored.
      * apply (Hgen (maxAllowedEating (shm w)) (chopsticks (shm w)) p); done.
      * apply (Hgen (maxAllowedEating (shm w)) (chopsticks (shm w)) p); done.
      * intros l rt _ _ _ _. apply Hgen; [done| |].
        -- by rewrite !usage_map_length.
        -- intros i. by rewrite !usage_map_id.
    + intros l rt _ _ _ _ _. apply Hgen; [done| |].
      * by rewrite !usage_map_length.
      * intros i. by rewrite !usage_map_id.
    + apply (Hgen (maxAllowedEating (shm w)) (chopsticks (shm w)) p); done.
Qed.

(** ** What every served sequence of requests leaves *)

Lemma serve_Wired q w :
  Wired (shm w) ->
  wp (serve q)
    (fun _ w' =>
       Wired (shm w') /\
       joined (shm w') =
         match q with
         | REQUEST_CREATE => S (joined (shm w))
         | REQUEST_UPDATE _ => joined (shm w)
         end) w.
Proof.
  intros HW. destruct q as [|p]; cbn [serve]; apply wp_bind.
  - eapply wp_mono; [|by apply createPhilosopher_Wired].
    intros sp w' (H1 & H2 & _). by apply wp_ret.
  - eapply wp_mono; [|by apply updatePhilosopher_Wired].
    intros o w' (H1 & H2). by apply wp_ret.
Qed.

(** The joins of a sequence are counted by [numberPhilosophers]. *)
Lemma serveAll_Wired qs w :
  Wired (shm w) ->
  wp (serveAll qs)
    (fun _ w' =>
       Wired (shm w') /\
       joined (shm w') = (joined (shm w) + creations qs)%nat) w.
Proof.
  revert w. induction qs as [|q qs IH]; intros w HW; cbn [serveAll creations].
  - apply wp_ret. split; [done | lia].
  - apply wp_bind. eapply wp_mono; [|by apply serve_Wired].
    intros _ w' [HW' Hj]. eapply wp_mono; [|by apply IH].
    intros _ w'' [HW'' Hj']. split; [done|].
    rewrite Hj', Hj. destruct q; cbn; lia.
Qed.

(** ** The gate and the chopstick semaphores *)

Lemma wp_conj {A} (m : M A) (Q1 Q2 : A -> World -> Prop) w :
  wp m Q1 w -> wp m Q2 w -> wp m (fun a w' => Q1 a w' /\ Q2 a w') w.
Proof. unfold wp. destruct (m w); auto. Qed.

Lemma eats_bounds sp : 0 <= eats sp <= 1.
Proof. unfold eats. destruct (p_state (base sp)); lia. Qed.

Lemma eats_set_rightChopstick c sp : eats (set_rightChopstick c sp) = eats sp.
Proof. done. Qed.

Lemma eating_app l1 l2 : eating (l1 ++ l2) = eating l1 + eating l2.
Proof. induction l1 as [|sp l1 IH]; cbn [eating app]; lia. Qed.

Lemma eating_insert l k sp x :
  l !! k = Some sp -> eating (<[k := x]> l) = eating l - eats sp + eats x.
Proof.
  revert k. induction l as [|y l IH]; intros [|k]; try done.
  - intros [= ->]. cbn. lia.
  - intros H. change (<[S k:=x]> (y :: l)) with (y :: <[k:=x]> l).
    cbn [eating]. rewrite (IH k H). lia.
Qed.

Lemma eating_take_S l n :
  (n < length l)%nat -> eating (take (S n) l) = eating (take n l) + eats (l !!! n).
Proof.
  intros H. rewrite (take_S_r l n (l !!! n)) by (by apply list_lookup_lookup_total_lt).
  rewrite eating_app. cbn. lia.
Qed.

(** Rewriting slot [k] changes the count by what slot [k] contributes,
    when it is a participant's. *)
Lemma eating_take_insert l n k x :
  (k < length l)%nat ->
  eating (take n (<[k := x]> l)) =
  eating (take n l) + (if decide (k < n)%nat then eats x - eats (l !!! k) else 0).
Proof.
  intros Hk. case_decide as Hkn.
  - rewrite take_insert_lt by done.
    rewrite (eating_insert _ k (l !!! k)); [lia|].
    rewrite lookup_take_lt by done. by apply list_lookup_lookup_total_lt.
  - rewrite take_insert_ge by lia. lia.
Qed.

Lemma rightOf_predOf n c :
  (2 <= n)%nat -> (c < n)%nat ->
  (predOf n c < n)%nat /\ rightOf n (predOf n c) = Some c.
Proof.
  intros Hn Hc. unfold predOf, rightOf.
  destruct (Nat.eqb_spec n 1); [lia|].
  destruct (Nat.eqb_spec c 0%nat) as [->|Hc0].
  - split; [lia|]. destruct (Nat.eqb_spec (S (n - 1)) n); [done | lia].
  - split; [lia|]. destruct (Nat.eqb_spec (S (c - 1)) n); [lia|].
    f_equal. lia.
Qed.

Lemma predOf_rightOf n k rt :
  (k < n)%nat -> rightOf n k = Some rt ->
  (2 <= n)%nat /\ (rt < n)%nat /\ rt <> k /\ predOf n rt = k.
Proof.
  unfold rightOf, predOf. intros Hk.
  destruct (Nat.eqb_spec n 1); [done|].
  destruct (Nat.eqb_spec (S k) n); intros [= <-].
  - cbn. lia.
  - destruct (Nat.eqb_spec (S k) 0%nat); lia.
Qed.

Lemma predOf_inj n c c' :
  (c < n)%nat -> (c' < n)%nat -> predOf n c = predOf n c' -> c = c'.
Proof.
  unfold predOf. intros Hc Hc'.
  destruct (Nat.eqb_spec c 0%nat), (Nat.eqb_spec c' 0%nat); lia.
Qed.

Lemma post_value_small v : v < SEM_VALUE_MAX -> post_value v = v + 1.
Proof. unfold post_value. intros H. destruct (Z.ltb_spec v SEM_VALUE_MAX); lia. Qed.

Lemma eatingCount_bounds r :
  0 <= eatingCount r <= Z.of_nat (joined r).
Proof.
  unfold eatingCount.
  assert (H : forall l, 0 <= eating l <= Z.of_nat (length l)).
  { induction l as [|sp l IH]; cbn [eating length]; [lia|].
    pose proof (eats_bounds sp). lia. }
  pose proof (H (take (joined r) (philosophers r))) as H'.
  rewrite length_take in H'. lia.
Qed.

Lemma fresh_Balanced : Balanced (shm freshWorld).
Proof.
  split.
  - reflexivity.
  - intros c Hc. unfold joined in Hc. cbn in Hc. lia.
Qed.

Lemma eating_take_ext l l' n :
  (n <= length l)%nat -> (n <= length l')%nat ->
  (forall i, (i < n)%nat -> eats (l !!! i) = eats (l' !!! i)) ->
  eating (take n l) = eating (take n l').
Proof.
  induction n as [|n IH]; intros Hl Hl' H.
  - by rewrite !take_0.
  - rewrite !eating_take_S by lia. rewrite IH by (auto with lia).
    rewrite H by lia. done.
Qed.

Lemma half_succ N :
  0 <= N ->
  (N + 1) / 2 = if Z.even (N + 1) then N / 2 + 1 else N / 2.
Proof.
  intros HN. destruct (Z.even (N + 1)) eqn:E.
  - apply Z.even_spec in E as [m Hm]. Z.div_mod_to_equations. lia.
  - rewrite <- Z.negb_odd in E. apply negb_false_iff, Z.odd_spec in E as [m Hm].
    Z.div_mod_to_equations. lia.
Qed.

(** A join keeps the gate and the chopstick semaphores balanced. *)
Lemma Balanced_Joined r r' sp :
  Wired r -> Balanced r -> Joined r r' sp -> Balanced r'.
Proof.
  intros HW HB HJ.
  destruct (Wired_Joined _ _ _ HW HJ) as [HW' Hj].
  pose proof (wired_count _ HW) as Hc.
  pose proof (joined_count _ (proj1 Hc)) as HN.
  pose proof (jn_room _ _ _ HJ) as Hroom.
  pose proof (wired_philosophers _ HW) as Hpl.
  pose proof (wired_philosophers _ HW') as Hpl'.
  change (Z.to_nat MAX_PHILOSOPHERS) with 7%nat in *.
  pose proof (jn_slot _ _ _ HJ) as Hslot.
  pose proof (jn_philosopher _ _ _ HJ) as Hsp.
  pose proof (jn_chopstick _ _ _ HJ) as Hchop.
  pose proof (jn_before _ _ _ HJ) as Hbefore.
  pose proof (jn_first_free _ _ _ HJ) as Hfree.
  pose proof (jn_gate _ _ _ HJ) as Hgate.
  pose proof (jn_count _ _ _ HJ) as Hcount.
  pose proof (bal_usage _ HB) as Husage.
  pose proof (bal_gate _ HB) as Hg. unfold gate_formula in Hg.
  pose proof (eatingCount_bounds r) as Hb.
  clear HJ.
  remember (joined r) as n eqn:Hn.
  assert (Heats : forall i, (i < n)%nat -> eatsAt r' i = eatsAt r i).
  { intros i Hi. unfold eatsAt.
    destruct (Hbefore i Hi) as (-> & _ & _). destruct (decide _); reflexivity. }
  assert (Hnew : eatsAt r' n = 0).
  { unfold eatsAt. rewrite Hslot, Hsp. done. }
  assert (Hnewu : usageAt r' n = 1).
  { unfold usageAt. rewrite Hchop. done. }
  split.
  - (* the gate *)
    unfold gate_formula. unfold eatingCount in *. rewrite Hj, <- Hn in *.
    rewrite eating_take_S by lia.
    change (eats (philosophers r' !!! n)) with (eatsAt r' n). rewrite Hnew.
    rewrite (eating_take_ext _ (philosophers r) n) by (auto with lia).
    rewrite Hgate, Hcount, half_succ by lia.
    assert (maxAllowedEating r < SEM_VALUE_MAX).
    { unfold SEM_VALUE_MAX. Z.div_mod_to_equations. lia. }
    destruct (Z.even (numberPhilosophers r + 1)); [rewrite post_value_small by done|]; lia.
  - (* the chopsticks *)
    rewrite Hj. intros c Hc'.
    destruct (Nat.eq_dec n 0%nat) as [Hn0|Hn0].
    { assert (c = 0%nat) as -> by lia. rewrite Hn0 in *.
      cbn [predOf Nat.eqb Nat.sub]. lia. }
    (* chopstick 0 before the join *)
    destruct (Husage 0%nat ltac:(lia)) as [Hu0 He0].
    unfold predOf in He0. cbn [Nat.eqb] in He0.
    pose proof (eats_bounds (philAt r 0)) as Hb0. fold (eatsAt r 0) in Hb0.
    pose proof (eats_bounds (philAt r (n - 1))) as Hbl. fold (eatsAt r (n - 1)) in Hbl.
    assert (Hfirst : eatsAt r 0 = 0 /\ eatsAt r (n - 1) = 0 /\ usageAt r' 0 = 1).
    { destruct (Hbefore 0%nat ltac:(lia)) as (_ & _ & Hu).
      destruct (le_lt_dec 2 n) as [H2|H1].
      - specialize (Hfree H2).
        rewrite decide_True in Hu by done.
        rewrite post_value_small in Hu by (unfold SEM_VALUE_MAX; lia). lia.
      - assert (n = 1%nat) as Hn1 by lia. rewrite Hn1 in *. cbn [Nat.sub] in *.
        rewrite decide_False in Hu by lia. lia. }
    destruct Hfirst as (He00 & Hel & Hu0').
    destruct (decide (c = n)) as [->|Hcn].
    + rewrite Hnewu, Hnew. unfold predOf.
      destruct (Nat.eqb_spec n 0%nat); [lia|].
      replace (S n - 1)%nat with n by lia.
      rewrite Heats by lia. lia.
    + destruct (decide (c = 0%nat)) as [->|Hc0].
      * rewrite Hu0', Heats by lia. unfold predOf. cbn [Nat.eqb].
        replace (S n - 1)%nat with n by lia. lia.
      * destruct (Husage c ltac:(lia)) as [Hu He].
        destruct (Hbefore c ltac:(lia)) as (_ & _ & ->).
        rewrite decide_False by (intros [? _]; done).
        unfold predOf in *. destruct (Nat.eqb_spec c 0%nat); [done|].
        rewrite !Heats by lia. lia.
Qed.

(** The count of eating participants when only slot [k] changes. *)
Lemma eatingCount_slot r r' k :
  numberPhilosophers r' = numberPhilosophers r ->
  (joined r <= length (philosophers r))%nat ->
  (joined r <= length (philosophers r'))%nat ->
  (forall i, i <> k -> eatsAt r' i = eatsAt r i) ->
  eatingCount r' =
  eatingCount r + (if decide (k < joined r)%nat then eatsAt r' k - eatsAt r k else 0).
Proof.
  intros HN Hl Hl' Hother. unfold eatingCount.
  assert (Hj : joined r' = joined r) by (unfold joined; congruence).
  rewrite Hj. clear Hj HN. generalize dependent (joined r). intros n Hl Hl'.
  induction n as [|n IH].
  - rewrite !take_0. case_decide; cbn [eating]; lia.
  - rewrite !eating_take_S by lia. rewrite IH by lia.
    change (eats (philosophers r' !!! n)) with (eatsAt r' n).
    change (eats (philosophers r !!! n)) with (eatsAt r n).
    destruct (decide (n = k)) as [->|Hne].
    + rewrite decide_False, decide_True by lia. lia.
    + rewrite (Hother n Hne). repeat case_decide; lia.
Qed.

(** Participant [k] starts ([d = -1]) or stops ([d = 1]) eating: the gate
    and its two chopsticks move by [d], everything else stays. *)
Lemma Balanced_shift r r' k rt d :
  Wired r -> Balanced r ->
  (k < joined r)%nat -> rightOf (joined r) k = Some rt ->
  numberPhilosophers r' = numberPhilosophers r ->
  length (philosophers r') = length (philosophers r) ->
  eatsAt r' k = eatsAt r k - d ->
  (forall i, i <> k -> eatsAt r' i = eatsAt r i) ->
  usageAt r' k = usageAt r k + d ->
  usageAt r' rt = usageAt r rt + d ->
  (forall c, c <> k -> c <> rt -> usageAt r' c = usageAt r c) ->
  maxAllowedEating r' = maxAllowedEating r + d ->
  0 <= usageAt r' k -> 0 <= usageAt r' rt ->
  Balanced r'.
Proof.
  intros HW HB Hk Hrt HN Hlen Hek Heo Huk Hurt Huo Hg Hk0 Hrt0.
  assert (Hj : joined r' = joined r) by (unfold joined; congruence).
  destruct (predOf_rightOf _ _ _ Hk Hrt) as (Hn2 & Hrtn & Hne & Hpred).
  pose proof (wired_philosophers _ HW) as Hpl.
  change (Z.to_nat MAX_PHILOSOPHERS) with 7%nat in *.
  pose proof (wired_count _ HW) as Hc.
  assert (Hn7 : (joined r <= 7)%nat) by (unfold joined, MAX_PHILOSOPHERS in *; lia).
  split.
  - unfold gate_formula.
    rewrite (eatingCount_slot r r' k) by (auto; lia).
    rewrite decide_True by done. rewrite HN, Hg, Hek.
    pose proof (bal_gate _ HB) as Hg0. unfold gate_formula in Hg0. lia.
  - rewrite Hj. intros c Hc'.
    destruct (bal_usage _ HB c Hc') as [Hu He].
    destruct (decide (c = k)) as [->|Hck].
    + split; [done|].
      assert (predOf (joined r) k <> k) by (unfold predOf; destruct (Nat.eqb_spec k 0); lia).
      rewrite Huk, Hek, Heo by done. lia.
    + destruct (decide (c = rt)) as [->|Hcrt].
      * split; [done|]. rewrite Hpred in *.
        rewrite Hurt, Hek, Heo by done. lia.
      * assert (predOf (joined r) c <> k).
        { intros Hp. apply Hcrt. apply (predOf_inj (joined r)); [done..|]. congruence. }
        rewrite Huo, !Heo by done. done.
Qed.

(** The segment after a call that only rewrote the [base] of slot [k] and
    moved chopstick semaphores. *)
Lemma eatsAt_insert r g c k x n cs nc q i :
  (k < length (philosophers r))%nat ->
  eatsAt (mkSharedResources g c (<[k := x]> (philosophers r)) n cs nc q) i =
  if decide (i = k) then eats x else eatsAt r i.
Proof.
  intros Hk. unfold eatsAt, philAt. cbn [philosophers].
  rewrite list_lookup_total_insert.
  destruct (decide (i = k)) as [->|Hne].
  - by rewrite decide_True.
  - rewrite decide_False by (intros [? _]; done). done.
Qed.

Lemma usageAt_two f r g c ps n l rt nc q i :
  l <> rt ->
  (l < length (chopsticks r))%nat -> (rt < length (chopsticks r))%nat ->
  usageAt (mkSharedResources g c ps n
             (usage_map f rt (usage_map f l (chopsticks r))) nc q) i =
  if decide (i = l \/ i = rt) then f (usageAt r i) else usageAt r i.
Proof.
  intros Hne Hl Hrt. unfold usageAt, chopAt. cbn [chopsticks].
  rewrite !usage_map_lookup, usage_map_length.
  destruct (decide (rt = i)) as [<-|Hri].
  - rewrite decide_True by done. rewrite decide_False by (intros [? _]; done).
    rewrite decide_True by auto. done.
  - rewrite decide_False by (intros [? _]; done).
    destruct (decide (l = i)) as [<-|Hli].
    + rewrite !decide_True by auto. done.
    + rewrite decide_False by (intros [? _]; done).
      rewrite decide_False by (intros [?|?]; done). done.
Qed.

Lemma updatePhilosopher_Balanced p w :
  Wired (shm w) -> Balanced (shm w) ->
  acknowledges (REQUEST_UPDATE p) (shm w) = true ->
  wp (updatePhilosopher p) (fun _ w' => Balanced (shm w')) w.
Proof.
  intros HW HB Hack. apply updatePhilosopher_effect.
  - intros _ ev. done.
  - intros k sp ev Hfind Hsp.
    pose proof (lookup_lt_Some _ _ _ Hsp) as Hklen.
    pose proof (philAt_lookup _ _ _ Hsp) as Hat.
    pose proof (wired_philosophers _ HW) as Hpl.
    pose proof (wired_chopsticks _ HW) as Hcl.
    change (Z.to_nat MAX_PHILOSOPHERS) with 7%nat in *.
    (* a rewritten base that eats as the stored one did changes nothing *)
    assert (Hsame : forall b, eats (set_base b sp) = eats sp ->
              Balanced (set_philosophers (<[k := set_base b sp]> (philosophers (shm w))) (shm w))).
    { intros b Hb. unfold set_philosophers.
      assert (He : forall i, eatsAt (mkSharedResources (maxAllowedEating (shm w))
                     (philosopherCreationProcess (shm w))
                     (<[k:=set_base b sp]> (philosophers (shm w)))
                     (numberPhilosophers (shm w)) (chopsticks (shm w))
                     (numberChopsticks (shm w)) (logsQueueId (shm w))) i = eatsAt (shm w) i).
      { intros i. rewrite eatsAt_insert by done. case_decide as Hd; [|done].
        subst i. unfold eatsAt. by rewrite Hat. }
      split.
      - unfold gate_formula. cbn [maxAllowedEating numberPhilosophers].
        rewrite (eatingCount_slot (shm w) _ k); try done.
        + rewrite He. replace (if decide _ then _ else _) with 0 by (case_decide; lia).
          pose proof (bal_gate _ HB) as Hg. unfold gate_formula in Hg. lia.
        + pose proof (wired_count _ HW). unfold joined, MAX_PHILOSOPHERS in *. lia.
        + cbn [philosophers]. rewrite length_insert.
          pose proof (wired_count _ HW). unfold joined, MAX_PHILOSOPHERS in *. lia.
      - intros c Hc. rewrite !He. apply (bal_usage _ HB c Hc). }
    destruct (p_state p) eqn:Hst.
    + (* THINKING *)
      destruct (p_state (base sp)) eqn:Hstored.
      * apply Hsame. unfold eats. cbn. by rewrite Hst, Hstored.
      * apply Hsame. unfold eats. cbn. by rewrite Hst, Hstored.
      * intros l rt Hl Hrt Hllen Hrtlen. cbn [shm].
        (* the slot is a participant's, and the chopsticks are its own *)
        assert (Hk : (k < joined (shm w))%nat).
        { destruct (le_lt_dec (joined (shm w)) k) as [Hge|]; [|done].
          destruct (wired_free _ HW k Hge) as (_ & Hnone & _).
          rewrite Hat, Hl in Hnone. done. }
        destruct (wired_joined _ HW k Hk) as (_ & Hleft & Hright & _).
        rewrite Hat in Hleft, Hright. rewrite Hl in Hleft. injection Hleft as ->.
        rewrite Hrt in Hright. symmetry in Hright.
        destruct (predOf_rightOf _ _ _ Hk Hright) as (Hn2 & Hrtn & Hne & Hpred).
        destruct (bal_usage _ HB k Hk) as [Huk Hek].
        destruct (bal_usage _ HB rt Hrtn) as [Hur Her]. rewrite Hpred in Her.
        assert (Heat : eatsAt (shm w) k = 1) by (unfold eatsAt, eats; by rewrite Hat, Hstored).
        pose proof (eats_bounds (philAt (shm w) (predOf (joined (shm w)) k))) as Hb1.
        pose proof (eats_bounds (philAt (shm w) rt)) as Hb2.
        fold (eatsAt (shm w) (predOf (joined (shm w)) k)) in Hb1.
        fold (eatsAt (shm w) rt) in Hb2.
        pose proof (bal_gate _ HB) as Hg. unfold gate_formula in Hg.
        pose proof (eatingCount_bounds (shm w)) as Hcb.
        pose proof (wired_count _ HW) as Hc.
        apply (Balanced_shift (shm w) _ k rt 1); try done.
        -- cbn [philosophers]. apply length_insert.
        -- rewrite eatsAt_insert, decide_True by done.
           unfold eats. cbn. rewrite Hst. lia.
        -- intros i Hi. rewrite eatsAt_insert, decide_False by done. done.
        -- rewrite usageAt_two, decide_True by auto.
           apply post_value_small. unfold SEM_VALUE_MAX. lia.
        -- rewrite usageAt_two, decide_True by auto.
           apply post_value_small. unfold SEM_VALUE_MAX. lia.
        -- intros c Hck Hcrt. rewrite usageAt_two, decide_False by (auto; intros [?|?]; done).
           done.
        -- cbn [maxAllowedEating]. apply post_value_small.
           unfold SEM_VALUE_MAX, joined, MAX_PHILOSOPHERS in *.
           Z.div_mod_to_equations. lia.
        -- rewrite usageAt_two, decide_True by auto.
           rewrite post_value_small by (unfold SEM_VALUE_MAX; lia). lia.
        -- rewrite usageAt_two, decide_True by auto.
           rewrite post_value_small by (unfold SEM_VALUE_MAX; lia). lia.
    + (* HUNGRY *)
      intros l rt Hl Hrt Hgate Hul Hurt. cbn [shm].
      assert (Hk : (k < joined (shm w))%nat).
      { destruct (le_lt_dec (joined (shm w)) k) as [Hge|]; [|done].
        destruct (wired_free _ HW k Hge) as (_ & Hnone & _).
        rewrite Hat, Hl in Hnone. done. }
      destruct (wired_joined _ HW k Hk) as (_ & Hleft & Hright & _).
      rewrite Hat in Hleft, Hright. rewrite Hl in Hleft. injection Hleft as ->.
      rewrite Hrt in Hright. symmetry in Hright.
      destruct (predOf_rightOf _ _ _ Hk Hright) as (Hn2 & Hrtn & Hne & Hpred).
      assert (Hllen : (k < length (chopsticks (shm w)))%nat) by lia.
      assert (Hrtlen : (rt < length (chopsticks (shm w)))%nat).
      { pose proof (wired_count _ HW). unfold joined, MAX_PHILOSOPHERS in *. lia. }
      rewrite usage_map_lookup, decide_False in Hurt by (intros [? _]; done).
      change (c_usage (chopsticks (shm w) !!! rt)) with (usageAt (shm w) rt) in Hurt.
      destruct (bal_usage _ HB k Hk) as [Huk Hek].
      destruct (bal_usage _ HB rt Hrtn) as [Hur Her]. rewrite Hpred in Her.
      pose proof (eats_bounds (philAt (shm w) k)) as Hb0.
      pose proof (eats_bounds (philAt (shm w) (predOf (joined (shm w)) k))) as Hb1.
      pose proof (eats_bounds (philAt (shm w) rt)) as Hb2.
      fold (eatsAt (shm w) k) in Hb0.
      fold (eatsAt (shm w) (predOf (joined (shm w)) k)) in Hb1.
      fold (eatsAt (shm w) rt) in Hb2.
      apply (Balanced_shift (shm w) _ k rt (-1)); try done.
      * cbn [philosophers]. apply length_insert.
      * rewrite eatsAt_insert, decide_True by done.
        unfold eats. cbn. lia.
      * intros i Hi. rewrite eatsAt_insert, decide_False by done. done.
      * rewrite usageAt_two, decide_True by auto. lia.
      * rewrite usageAt_two, decide_True by auto. lia.
      * intros c Hck Hcrt. rewrite usageAt_two, decide_False by (auto; intros [?|?]; done).
        done.
      * rewrite usageAt_two, decide_True by auto. lia.
      * rewrite usageAt_two, decide_True by auto. lia.
    + (* EATING *)
      apply Hsame. cbn [acknowledges] in Hack. rewrite Hst, Hfind in Hack.
      unfold stateAt in Hack. rewrite Hat in Hack.
      unfold eats. cbn. rewrite Hst. destruct (p_state (base sp)); done.
Qed.

(** ** Sequences of requests *)

Lemma serve_invariant q w :
  Wired (shm w) -> Balanced (shm w) -> acknowledges q (shm w) = true ->
  wp (serve q) (fun _ w' => Wired (shm w') /\ Balanced (shm w')) w.
Proof.
  intros HW HB Hack. destruct q as [|p]; cbn [serve]; apply wp_bind.
  - eapply wp_mono; [|by apply createPhilosopher_Joined].
    intros sp w' HJ. apply wp_ret. split.
    + by destruct (Wired_Joined _ _ _ HW HJ).
    + by apply (Balanced_Joined _ _ _ HW HB HJ).
  - eapply wp_mono; [|apply wp_conj;
      [by apply updatePhilosopher_Wired | by apply updatePhilosopher_Balanced]].
    intros o w' [[H1 _] H2]. by apply wp_ret.
Qed.

Lemma serveAll_invariant qs w :
  Wired (shm w) -> Balanced (shm w) -> acknowledging qs w = true ->
  wp (serveAll qs) (fun _ w' => Wired (shm w') /\ Balanced (shm w')) w.
Proof.
  revert w. induction qs as [|q qs IH]; intros w HW HB Hack.
  - by apply wp_ret.
  - cbn [acknowledging] in Hack. apply andb_true_iff in Hack as [Hq Hqs].
    pose proof (serve_invariant q w HW HB Hq) as Hstep.
    cbn [serveAll]. unfold wp, mbind, M_bind in *.
    destruct (serve q w) as [[] w1| |]; [|done..].
    destruct Hstep as [HW1 HB1]. by apply IH.
Qed.

Lemma serveAll_app qs1 qs2 w :
  serveAll (qs1 ++ qs2) w =
  match serveAll qs1 w with
  | Done _ w' => serveAll qs2 w'
  | Blocked s w' => Blocked s w'
  | Fault w' => Fault w'
  end.
Proof.
  revert w. induction qs1 as [|q qs1 IH]; intros w; [done|].
  cbn [serveAll app]. unfold mbind, M_bind.
  destruct (serve q w); [apply IH | done..].
Qed.

(** ** Running [updatePhilosopher] *)

(** The equations of the primitives, for running a call forward. *)
Lemma run_bind {A B} (m : M A) (f : A -> M B) w a w' :
  m w = Done a w' -> (m ≫= f) w = f a w'.
Proof. unfold mbind, M_bind. by intros ->. Qed.

Lemma run_read_philosopher i w sp :
  philosophers (shm w) !! i = Some sp -> read_philosopher i w = Done sp w.
Proof. unfold read_philosopher, mbind, M_bind, get_shm. by intros ->. Qed.

Lemma run_write_philosopher i f w sp :
  philosophers (shm w) !! i = Some sp ->
  write_philosopher i f w =
  Done tt (mkWorld (set_philosophers (<[i := f sp]> (philosophers (shm w))) (shm w)) (events w)).
Proof.
  intros H. unfold write_philosopher.
  by rewrite (run_bind _ _ _ _ _ (run_read_philosopher _ _ _ H)).
Qed.

Lemma run_read_chopstick i w c :
  chopsticks (shm w) !! i = Some c -> read_chopstick i w = Done c w.
Proof. unfold read_chopstick, mbind, M_bind, get_shm. by intros ->. Qed.

Lemma run_follow field slot w sp i :
  philosophers (shm w) !! slot = Some sp -> field sp = Some i ->
  follow field slot w = Done i w.
Proof.
  intros H Hf. unfold follow.
  rewrite (run_bind _ _ _ _ _ (run_read_philosopher _ _ _ H)). by rewrite Hf.
Qed.

Lemma run_follow_null field slot w sp :
  philosophers (shm w) !! slot = Some sp -> field sp = None ->
  follow field slot w = Fault w.
Proof.
  intros H Hf. unfold follow.
  rewrite (run_bind _ _ _ _ _ (run_read_philosopher _ _ _ H)). by rewrite Hf.
Qed.

Lemma run_acquire s waiting w v :
  sem_value s (shm w) = Some v -> 0 < v ->
  acquire s waiting w =
  Done tt (mkWorld (sem_set s (v - 1) (shm w)) (events w ++ [EvAcquire s])).
Proof.
  intros Hv Hpos. unfold acquire, mbind, M_bind, sem_trywait_again.
  rewrite Hv. destruct (Z.ltb_spec 0 v); [done | lia].
Qed.

Lemma run_overwrite_base slot p w sp :
  philosophers (shm w) !! slot = Some sp ->
  overwrite_base slot p w =
  Done tt (mkWorld (set_philosophers (<[slot := set_base p sp]> (philosophers (shm w))) (shm w))
             (events w ++ [EvSetBase slot p])).
Proof.
  intros H. unfold overwrite_base.
  by rewrite (run_bind _ _ _ _ _ (run_write_philosopher _ _ _ _ H)).
Qed.

Lemma run_emit e w : emit e w = Done tt (mkWorld (shm w) (events w ++ [e])).
Proof. done. Qed.

Lemma run_sem_post s w v :
  sem_value s (shm w) = Some v ->
  sem_post s w = Done tt (mkWorld (sem_set s (post_value v) (shm w)) (events w ++ [EvPost s])).
Proof. unfold sem_post. by intros ->. Qed.

Lemma run_sem_getvalue s w v :
  sem_value s (shm w) = Some v -> sem_getvalue s w = Done v w.
Proof. unfold sem_getvalue. by intros ->. Qed.

(** One statement forward: the equation of the primitive, then the
    segment back to one record. *)
Ltac lookups :=
  segs;
  rewrite ?list_lookup_insert_eq by (rewrite ?length_insert; lia);
  rewrite ?list_lookup_insert_ne by done.

Ltac step lem := erewrite run_bind by (apply lem; lookups; eauto); lookups.

Ltac step_follow field :=
  erewrite run_bind
    by (eapply (run_follow field); [lookups; reflexivity | seg; eassumption]);
  lookups.

(** The trace as what was there followed by what the call added. *)
Ltac trace_split := cbn [events]; rewrite <- ?app_assoc; cbn [app].

(** *** The grant *)

Lemma updatePhilosopher_grant p w k sp l rt cl cr :
  p_state p = HUNGRY ->
  getPhilosopherFromId (p_id p) (philosophers (shm w)) = Some k ->
  philosophers (shm w) !! k = Some sp ->
  leftChopstick sp = Some l -> rightChopstick sp = Some rt -> l <> rt ->
  chopsticks (shm w) !! l = Some cl -> chopsticks (shm w) !! rt = Some cr ->
  0 < maxAllowedEating (shm w) -> 0 < c_usage cl -> 0 < c_usage cr ->
  exists w' (added : list Event),
    updatePhilosopher p w = Done (Some k) w' /\
    events w' = (events w ++ added)%list /\
    steps added =
      [EvSetBase k p; EvAcquire SemMaxAllowedEating; EvAcquire (SemUsage l);
       EvAcquire (SemUsage rt); EvSetState k EATING; EvSetTimer k 0] /\
    shm w' =
      mkSharedResources (maxAllowedEating (shm w) - 1)
        (philosopherCreationProcess (shm w))
        (<[k := set_base (mkPhilosopher (p_id p) EATING 0) sp]> (philosophers (shm w)))
        (numberPhilosophers (shm w))
        (<[rt := mkChopstick (c_id cr) (c_usage cr - 1)]>
           (<[l := mkChopstick (c_id cl) (c_usage cl - 1)]> (chopsticks (shm w))))
        (numberChopsticks (shm w)) (logsQueueId (shm w)).
Proof.
  intros Hst Hfind Hsp Hl Hrt Hne Hcl Hcr Hg Hul Hur.
  pose proof (lookup_lt_Some _ _ _ Hsp) as Hk.
  pose proof (lookup_lt_Some _ _ _ Hcl) as Hllen.
  pose proof (lookup_lt_Some _ _ _ Hcr) as Hrlen.
  do 2 eexists. split; [|split; [|split]].
  - unfold updatePhilosopher.
    rewrite (run_bind get_shm _ w (shm w) w eq_refl). rewrite Hfind, Hst.
    step run_overwrite_base.
    step (run_acquire SemMaxAllowedEating).
    step (run_sem_getvalue SemMaxAllowedEating).
    step run_emit.
    step_follow leftChopstick.
    erewrite run_bind by (apply (run_acquire (SemUsage l)); lookups; [by rewrite Hcl | done]).
    lookups. rewrite Hcl. seg.
    step_follow leftChopstick.
    step run_read_chopstick.
    step run_emit.
    step_follow rightChopstick.
    erewrite run_bind by (apply (run_acquire (SemUsage rt)); lookups; [by rewrite Hcr | done]).
    lookups. rewrite Hcr. seg.
    step_follow rightChopstick.
    step run_read_chopstick.
    step run_emit.
    step run_write_philosopher.
    step run_emit.
    step run_write_philosopher.
    step run_emit.
    reflexivity.
  - trace_split. reflexivity.
  - reflexivity.
  - seg. rewrite !list_insert_insert_eq. reflexivity.
Qed.

(** *** Sleeping on the way to the grant *)

Lemma run_acquire_sleeps s waiting w v w1 :
  sem_value s (shm w) = Some v -> v <= 0 ->
  waiting (mkWorld (shm w) (events w ++ [EvAgain s])) = Done tt w1 ->
  shm w1 = shm w ->
  acquire s waiting w = Blocked s w1.
Proof.
  intros Hv Hle Hwait Hshm. unfold acquire, mbind, M_bind, sem_trywait_again.
  rewrite Hv. destruct (Z.ltb_spec 0 v); [lia|].
  rewrite Hwait. unfold sem_wait. rewrite Hshm, Hv.
  destruct (Z.ltb_spec 0 v); [lia | done].
Qed.

Lemma run_blocked {A B} (m : M A) (f : A -> M B) w s w' :
  m w = Blocked s w' -> (m ≫= f) w = Blocked s w'.
Proof. unfold mbind, M_bind. by intros ->. Qed.

Lemma run_fault {A B} (m : M A) (f : A -> M B) w w' :
  m w = Fault w' -> (m ≫= f) w = Fault w'.
Proof. unfold mbind, M_bind. by intros ->. Qed.

(** The gate is closed: the call sleeps on it, and has touched no
    chopstick. *)
Lemma updatePhilosopher_waits_gate p w k sp :
  p_state p = HUNGRY ->
  getPhilosopherFromId (p_id p) (philosophers (shm w)) = Some k ->
  philosophers (shm w) !! k = Some sp ->
  maxAllowedEating (shm w) <= 0 ->
  exists w' (added : list Event),
    updatePhilosopher p w = Blocked SemMaxAllowedEating w' /\
    events w' = (events w ++ added)%list /\
    steps added = [EvSetBase k p; EvAgain SemMaxAllowedEating] /\
    shm w' = set_philosophers (<[k := set_base p sp]> (philosophers (shm w))) (shm w).
Proof.
  intros Hst Hfind Hsp Hg.
  do 2 eexists. split; [|split; [|split]].
  - unfold updatePhilosopher.
    rewrite (run_bind get_shm _ w (shm w) w eq_refl). rewrite Hfind, Hst.
    step run_overwrite_base.
    apply run_blocked.
    eapply (run_acquire_sleeps SemMaxAllowedEating); segs; [done | done | | ].
    + step run_emit. reflexivity.
    + reflexivity.
  - trace_split. reflexivity.
  - reflexivity.
  - reflexivity.
Qed.

(** The left chopstick is taken: the call sleeps on it, holding one unit
    of the gate and no chopstick. *)
Lemma updatePhilosopher_waits_left p w k sp l cl :
  p_state p = HUNGRY ->
  getPhilosopherFromId (p_id p) (philosophers (shm w)) = Some k ->
  philosophers (shm w) !! k = Some sp ->
  leftChopstick sp = Some l -> chopsticks (shm w) !! l = Some cl ->
  0 < maxAllowedEating (shm w) -> c_usage cl <= 0 ->
  exists w' (added : list Event),
    updatePhilosopher p w = Blocked (SemUsage l) w' /\
    events w' = (events w ++ added)%list /\
    steps added = [EvSetBase k p; EvAcquire SemMaxAllowedEating; EvAgain (SemUsage l)] /\
    maxAllowedEating (shm w') = maxAllowedEating (shm w) - 1 /\
    chopsticks (shm w') = chopsticks (shm w).
Proof.
  intros Hst Hfind Hsp Hl Hcl Hg Hul.
  pose proof (lookup_lt_Some _ _ _ Hsp) as Hk.
  do 2 eexists. split; [|split; [|split; [|split]]].
  - unfold updatePhilosopher.
    rewrite (run_bind get_shm _ w (shm w) w eq_refl). rewrite Hfind, Hst.
    step run_overwrite_base.
    step (run_acquire SemMaxAllowedEating).
    step (run_sem_getvalue SemMaxAllowedEating).
    step run_emit.
    step_follow leftChopstick.
    apply run_blocked.
    eapply (run_acquire_sleeps (SemUsage l)); segs; [by rewrite Hcl | done | | ].
    + step_follow leftChopstick.
      step run_read_chopstick.
      step run_emit. reflexivity.
    + reflexivity.
  - trace_split. reflexivity.
  - reflexivity.
  - reflexivity.
  - reflexivity.
Qed.

(** The right chopstick is taken: the call sleeps on it, holding one unit
    of the gate and its left chopstick. *)
Lemma updatePhilosopher_waits_right p w k sp l rt cl cr :
  p_state p = HUNGRY ->
  getPhilosopherFromId (p_id p) (philosophers (shm w)) = Some k ->
  philosophers (shm w) !! k = Some sp ->
  leftChopstick sp = Some l -> rightChopstick sp = Some rt -> l <> rt ->
  chopsticks (shm w) !! l = Some cl -> chopsticks (shm w) !! rt = Some cr ->
  0 < maxAllowedEating (shm w) -> 0 < c_usage cl -> c_usage cr <= 0 ->
  exists w' (added : list Event),
    updatePhilosopher p w = Blocked (SemUsage rt) w' /\
    events w' = (events w ++ added)%list /\
    steps added =
      [EvSetBase k p; EvAcquire SemMaxAllowedEating; EvAcquire (SemUsage l);
       EvAgain (SemUsage rt)] /\
    maxAllowedEating (shm w') = maxAllowedEating (shm w) - 1 /\
    chopsticks (shm w') = <[l := mkChopstick (c_id cl) (c_usage cl - 1)]> (chopsticks (shm w)).
Proof.
  intros Hst Hfind Hsp Hl Hrt Hne Hcl Hcr Hg Hul Hur.
  pose proof (lookup_lt_Some _ _ _ Hsp) as Hk.
  pose proof (lookup_lt_Some _ _ _ Hcl) as Hllen.
  do 2 eexists. split; [|split; [|split; [|split]]].
  - unfold updatePhilosopher.
    rewrite (run_bind get_shm _ w (shm w) w eq_refl). rewrite Hfind, Hst.
    step run_overwrite_base.
    step (run_acquire SemMaxAllowedEating).
    step (run_sem_getvalue SemMaxAllowedEating).
    step run_emit.
    step_follow leftChopstick.
    erewrite run_bind by (apply (run_acquire (SemUsage l)); lookups; [by rewrite Hcl | done]).
    lookups. rewrite Hcl. seg.
    step_follow leftChopstick.
    step run_read_chopstick.
    step run_emit.
    step_follow rightChopstick.
    apply run_blocked.
    eapply (run_acquire_sleeps (SemUsage rt)); lookups; [by rewrite Hcr | done | | ].
    + step_follow rightChopstick.
      step run_read_chopstick.
      step run_emit. reflexivity.
    + reflexivity.
  - trace_split. reflexivity.
  - reflexivity.
  - reflexivity.
  - reflexivity.
Qed.

(** *** The other updates *)

Lemma updatePhilosopher_not_found p w :
  getPhilosopherFromId (p_id p) (philosophers (shm w)) = None ->
  updatePhilosopher p w = Done None (mkWorld (shm w) (events w ++ [EvLog notFoundRecord])).
Proof.
  intros Hfind. unfold updatePhilosopher.
  rewrite (run_bind get_shm _ w (shm w) w eq_refl). by rewrite Hfind.
Qed.

(** THINKING over a state other than EATING, and EATING over any state:
    the stored base is replaced and one record is sent. *)
Lemma updatePhilosopher_overwrite p w k sp :
  getPhilosopherFromId (p_id p) (philosophers (shm w)) = Some k ->
  philosophers (shm w) !! k = Some sp ->
  (p_state p = THINKING /\ p_state (base sp) <> EATING) \/ p_state p = EATING ->
  exists action,
    updatePhilosopher p w =
    Done None
      (mkWorld (set_philosophers (<[k := set_base p sp]> (philosophers (shm w))) (shm w))
               (events w ++ [EvSetBase k p; EvLog (actionRecord p action)])).
Proof.
  intros Hfind Hsp Hcase.
  pose proof (lookup_lt_Some _ _ _ Hsp) as Hk.
  unfold updatePhilosopher.
  rewrite (run_bind get_shm _ w (shm w) w eq_refl). rewrite Hfind.
  destruct Hcase as [[Hst Hstored]|Hst]; rewrite Hst; eexists.
  - step run_read_philosopher.
    erewrite run_bind; cycle 1.
    { instantiate (1 := w). instantiate (1 := tt).
      destruct (p_state (base sp)); done. }
    step run_overwrite_base.
    step run_read_philosopher.
    unfold logClientAction. seg. rewrite Hst.
    unfold logClientInfo_record, emit, mbind, M_bind, mret, M_ret.
    trace_split. reflexivity.
  - step run_overwrite_base.
    step run_read_philosopher.
    unfold logClientAction. seg. rewrite Hst.
    unfold logClientInfo_record, emit, mbind, M_bind, mret, M_ret.
    trace_split. reflexivity.
Qed.

(** *** A slot with a null left chopstick *)

(** HUNGRY, the gate open: the unit of the gate is taken, then the null
    left chopstick is dereferenced. *)
Lemma updatePhilosopher_null_left p w k sp :
  p_state p = HUNGRY ->
  getPhilosopherFromId (p_id p) (philosophers (shm w)) = Some k ->
  philosophers (shm w) !! k = Some sp ->
  leftChopstick sp = None ->
  0 < maxAllowedEating (shm w) ->
  exists w' (added : list Event),
    updatePhilosopher p w = Fault w' /\
    events w' = (events w ++ added)%list /\
    steps added = [EvSetBase k p; EvAcquire SemMaxAllowedEating] /\
    shm w' =
      set_maxAllowedEating (maxAllowedEating (shm w) - 1)
        (set_philosophers (<[k := set_base p sp]> (philosophers (shm w))) (shm w)).
Proof.
  intros Hst Hfind Hsp Hl Hg.
  pose proof (lookup_lt_Some _ _ _ Hsp) as Hk.
  do 2 eexists. split; [|split; [|split]].
  - unfold updatePhilosopher.
    rewrite (run_bind get_shm _ w (shm w) w eq_refl). rewrite Hfind, Hst.
    step run_overwrite_base.
    step (run_acquire SemMaxAllowedEating).
    step (run_sem_getvalue SemMaxAllowedEating).
    step run_emit.
    apply run_fault.
    eapply (run_follow_null leftChopstick); [lookups; reflexivity | seg; done].
  - trace_split. reflexivity.
  - reflexivity.
  - reflexivity.
Qed.

(** THINKING over a stored EATING: the release starts with the left
    chopstick, and a null one stops the call before anything is written. *)
Lemma updatePhilosopher_release_null p w k sp :
  p_state p = THINKING ->
  getPhilosopherFromId (p_id p) (philosophers (shm w)) = Some k ->
  philosophers (shm w) !! k = Some sp ->
  p_state (base sp) = EATING ->
  leftChopstick sp = None ->
  updatePhilosopher p w = Fault w.
Proof.
  intros Hst Hfind Hsp Hstored Hl.
  unfold updatePhilosopher.
  rewrite (run_bind get_shm _ w (shm w) w eq_refl). rewrite Hfind, Hst.
  step run_read_philosopher. rewrite Hstored.
  apply run_fault, run_fault.
  by eapply (run_follow_null leftChopstick).
Qed.

(** ** [createChopstick] *)

Lemma createChopstick_run id w c0 :
  1 <= id <= MAX_PHILOSOPHERS ->
  chopsticks (shm w) !! Z.to_nat (id - 1) = Some c0 ->
  createChopstick id w =
  Done (Some (Z.to_nat (id - 1)))
    (mkWorld
       (set_chopsticks (<[Z.to_nat (id - 1) := mkChopstick id 1]> (chopsticks (shm w))) (shm w))
       (events w ++
        [EvLog (mkLog ServerLog "Baguette %d créée (adresse %p)...\n"
                  [ArgInt id; ArgPtr (Some (Z.to_nat (id - 1)))])])).
Proof.
  intros Hid Hc0. unfold createChopstick, index.
  destruct (Z.leb_spec 0 (id - 1)); [|lia].
  destruct (Z.ltb_spec (id - 1) MAX_PHILOSOPHERS); [|lia].
  cbn [andb].
  rewrite (run_bind (mret _) _ w (Z.to_nat (id - 1)) w eq_refl).
  unfold write_chopstick.
  erewrite run_bind; cycle 1.
  { erewrite run_bind by (by apply run_read_chopstick). reflexivity. }
  reflexivity.
Qed.

(** ** What the requests served so far have left *)

Lemma served_Wired qs w :
  serveAll qs freshWorld = Done tt w ->
  Wired (shm w) /\ joined (shm w) = creations qs.
Proof.
  intros Hrun.
  pose proof (serveAll_Wired qs freshWorld fresh_Wired) as H.
  apply (wp_done _ _ _ _ _ Hrun) in H as [HW Hj]. split; [done|].
  rewrite Hj. reflexivity.
Qed.

(** Every sequence of joins up to the capacity returns. *)
Lemma joins_return n :
  (n <= 7)%nat ->
  exists w, serveAll (replicate n REQUEST_CREATE) freshWorld = Done tt w.
Proof.
  intros Hn.
  do 8 (destruct n as [|n]; [eexists; vm_compute; reflexivity|]). lia.
Qed.

(** * The specification, statement by statement *)

(** C10. After any sequence of requests that have returned, [N] of them
    joins, the participants are the slots [0 .. N-1] of the table with the
    identifiers [1 .. N], the left chopstick of participant [i] is the
    chopstick of slot [i-1], whose identifier is [i], and the slots from
    [N] on hold no participant and no chopstick. Updates keep this layout as
    joins do. *)
Theorem tables_follow_joins qs w :
  serveAll qs freshWorld = Done tt w ->
  numberPhilosophers (shm w) = Z.of_nat (creations qs) /\
  (forall i, (i < creations qs)%nat ->
     p_id (base (philAt (shm w) i)) = Z.of_nat i + 1 /\
     leftChopstick (philAt (shm w) i) = Some i /\
     c_id (chopAt (shm w) i) = Z.of_nat i + 1) /\
  (forall i, (creations qs <= i)%nat ->
     p_id (base (philAt (shm w) i)) = 0 /\ c_id (chopAt (shm w) i) = 0).
Proof.
  intros Hrun. destruct (served_Wired _ _ Hrun) as [HW Hj].
  rewrite <- Hj. split; [|split].
  - apply joined_count, HW.
  - intros i Hi. destruct (wired_joined _ HW i Hi) as (H1 & H2 & _ & H4). done.
  - intros i Hi. destruct (wired_free _ HW i Hi) as (H1 & _ & _ & H4). done.
Qed.

Lemma tables_follow_joins_witness :
  serveAll dinner freshWorld = Done tt afterDinner /\
  numberPhilosophers (shm afterDinner) = Z.of_nat (creations dinner) /\
  (forall i, (i < creations dinner)%nat ->
     p_id (base (philAt (shm afterDinner) i)) = Z.of_nat i + 1 /\
     leftChopstick (philAt (shm afterDinner) i) = Some i /\
     c_id (chopAt (shm afterDinner) i) = Z.of_nat i + 1) /\
  (forall i, (creations dinner <= i)%nat ->
     p_id (base (philAt (shm afterDinner) i)) = 0 /\
     c_id (chopAt (shm afterDinner) i) = 0).
Proof.
  split; [vm_compute; reflexivity|].
  apply (tables_follow_joins dinner afterDinner). vm_compute. reflexivity.
Defined.

(** C8 (as amended). Once the join of a participant has returned, and
    whatever requests have returned since, its left chopstick reference is
    set; its right chopstick reference is set as soon as two participants
    have joined, and is null while the first participant is alone. *)
Theorem references_after_join qs w i :
  serveAll qs freshWorld = Done tt w ->
  (i < joined (shm w))%nat ->
  is_Some (leftChopstick (philAt (shm w) i)) /\
  ((2 <= joined (shm w))%nat -> is_Some (rightChopstick (philAt (shm w) i))) /\
  (joined (shm w) = 1%nat -> rightChopstick (philAt (shm w) i) = None).
Proof.
  intros Hrun Hi. destruct (served_Wired _ _ Hrun) as [HW _].
  destruct (wired_joined _ HW i Hi) as (_ & Hl & Hr & _).
  rewrite Hl, Hr. unfold rightOf. split; [eauto|]. split.
  - intros H2. destruct (Nat.eqb_spec (joined (shm w)) 1); [lia | eauto].
  - intros ->. reflexivity.
Qed.

Lemma references_after_join_witness :
  serveAll dinner freshWorld = Done tt afterDinner /\
  (1 < joined (shm afterDinner))%nat /\
  is_Some (leftChopstick (philAt (shm afterDinner) 1)) /\
  ((2 <= joined (shm afterDinner))%nat ->
     is_Some (rightChopstick (philAt (shm afterDinner) 1))) /\
  (joined (shm afterDinner) = 1%nat ->
     rightChopstick (philAt (shm afterDinner) 1) = None).
Proof.
  split; [vm_compute; reflexivity|]. split; [vm_compute; lia|].
  apply (references_after_join dinner afterDinner 1).
  - vm_compute. reflexivity.
  - vm_compute. lia.
Defined.

(** C8 as stated fails: after the first join has returned, the right
    chopstick reference of the first participant is null. *)
Lemma first_participant_right_null :
  ~ (forall qs w i,
       serveAll qs freshWorld = Done tt w ->
       (i < joined (shm w))%nat ->
       is_Some (leftChopstick (philAt (shm w) i)) /\
       is_Some (rightChopstick (philAt (shm w) i))).
Proof.
  intros H.
  destruct (H [REQUEST_CREATE] (world_of (serveAll [REQUEST_CREATE] freshWorld)) 0%nat)
    as [_ [c Hc]].
  - vm_compute. reflexivity.
  - vm_compute. lia.
  - vm_compute in Hc. discriminate Hc.
Qed.

(** THINKING over EATING, or not: the two states are decided. *)
Lemma classic_case (incoming stored : PhilosopherState) :
  (incoming = THINKING /\ stored = EATING) \/
  ~ (incoming = THINKING /\ stored = EATING).
Proof. destruct incoming, stored; (left; done) || (right; intros [? ?]; done). Qed.

(** C9 (as amended). While fewer than [MAX_PHILOSOPHERS] participants have
    joined, an update that carries the identifier 0 finds the first slot
    that holds no participant, and does not end as the update of an unknown
    identifier does. It writes the participant of the request into that
    slot, as its first step, unless the request carries THINKING and the
    slot holds EATING: then it stops on the null left chopstick of the slot
    before writing anything. *)
Theorem zero_identity_finds_free_slot qs w p :
  serveAll qs freshWorld = Done tt w ->
  numberPhilosophers (shm w) < MAX_PHILOSOPHERS ->
  p_id p = 0 ->
  let slot := joined (shm w) in
  let ending := updatePhilosopher p w in
  getPhilosopherFromId (p_id p) (philosophers (shm w)) = Some slot /\
  ending <> Done None (mkWorld (shm w) (events w ++ [EvLog notFoundRecord])) /\
  (~ (p_state p = THINKING /\ stateAt (shm w) slot = EATING) ->
     base (philAt (shm (world_of ending)) slot) = p /\
     exists added : list Event,
       events (world_of ending) = (events w ++ added)%list /\
       head (steps added) = Some (EvSetBase slot p)) /\
  (p_state p = THINKING -> stateAt (shm w) slot = EATING -> ending = Fault w).
Proof.
  intros Hrun Hroom Hid slot ending.
  destruct (served_Wired _ _ Hrun) as [HW _].
  pose proof (wired_count _ HW) as Hc.
  pose proof (wired_philosophers _ HW) as Hpl.
  change (Z.to_nat MAX_PHILOSOPHERS) with 7%nat in Hpl.
  assert (Hslot : (slot < 7)%nat) by (unfold slot, joined, MAX_PHILOSOPHERS in *; lia).
  assert (Hsp : philosophers (shm w) !! slot = Some (philAt (shm w) slot))
    by (apply list_lookup_lookup_total_lt; lia).
  destruct (wired_free _ HW slot (le_n _)) as (Hid0 & Hleft & _ & _).
  assert (Hfind : getPhilosopherFromId (p_id p) (philosophers (shm w)) = Some slot).
  { apply (getPhilosopherFromId_first _ _ _ _ Hslot Hsp); [congruence|].
    intros j sp' Hj Hsp'. apply philAt_lookup in Hsp' as <-.
    destruct (wired_joined _ HW j Hj) as (-> & _). lia. }
  (* what the call added to the trace starts with a step, in every case *)
  assert (Hnot : forall w' (added : list Event),
            events w' = (events w ++ added)%list -> steps added <> [] ->
            world_of ending = w' ->
            ending <> Done None (mkWorld (shm w) (events w ++ [EvLog notFoundRecord]))).
  { intros w' added Hev Hsteps Hw' Heq. rewrite Heq in Hw'. subst w'.
    cbn [world_of events] in Hev. apply app_inv_head in Hev. subst added. done. }
  assert (Hfault : p_state p = THINKING -> stateAt (shm w) slot = EATING ->
                   ending = Fault w).
  { intros Hst Hstored. by apply (updatePhilosopher_release_null p w slot _ Hst Hfind Hsp). }
  assert (Hwrites : ~ (p_state p = THINKING /\ stateAt (shm w) slot = EATING) ->
            base (philAt (shm (world_of ending)) slot) = p /\
            exists added : list Event,
              events (world_of ending) = (events w ++ added)%list /\
              head (steps added) = Some (EvSetBase slot p) /\ steps added <> []).
  { intros Hcase. unfold ending.
    destruct (p_state p) eqn:Hst.
    - destruct (updatePhilosopher_overwrite p w slot _ Hfind Hsp) as [action ->].
      { left. split; [done|]. intros Hstored. apply Hcase. done. }
      cbn [world_of shm events]. split.
      + unfold philAt. cbn [philosophers set_philosophers].
        rewrite list_lookup_total_insert_eq by lia. done.
      + eexists. split; [reflexivity|]. done.
    - destruct (Z_lt_le_dec 0 (maxAllowedEating (shm w))) as [Hopen|Hclosed].
      + destruct (updatePhilosopher_null_left p w slot _ Hst Hfind Hsp Hleft Hopen)
          as (w' & added & -> & Hev & Hsteps & Hshm).
        cbn [world_of]. split.
        * rewrite Hshm. unfold philAt. cbn [philosophers set_philosophers set_maxAllowedEating].
          rewrite list_lookup_total_insert_eq by lia. done.
        * exists added. rewrite Hsteps. done.
      + destruct (updatePhilosopher_waits_gate p w slot _ Hst Hfind Hsp Hclosed)
          as (w' & added & -> & Hev & Hsteps & Hshm).
        cbn [world_of]. split.
        * rewrite Hshm. unfold philAt. cbn [philosophers set_philosophers].
          rewrite list_lookup_total_insert_eq by lia. done.
        * exists added. rewrite Hsteps. done.
    - destruct (updatePhilosopher_overwrite p w slot _ Hfind Hsp) as [action ->].
      { by right. }
      cbn [world_of shm events]. split.
      + unfold philAt. cbn [philosophers set_philosophers].
        rewrite list_lookup_total_insert_eq by lia. done.
      + eexists. split; [reflexivity|]. done. }
  split; [done|]. split; [|split; [|done]].
  - destruct (classic_case (p_state p) (stateAt (shm w) slot)) as [[Hst Hstored]|Hcase].
    + rewrite (Hfault Hst Hstored). done.
    + destruct (Hwrites Hcase) as (_ & added & Hev & _ & Hne).
      by apply (Hnot _ added Hev Hne).
  - intros Hcase. destruct (Hwrites Hcase) as (Hb & added & Hev & Hhd & _). eauto.
Qed.

Lemma zero_identity_finds_free_slot_witness :
  let p := mkPhilosopher 0 HUNGRY 3 in
  serveAll dinner freshWorld = Done tt afterDinner /\
  numberPhilosophers (shm afterDinner) < MAX_PHILOSOPHERS /\
  p_id p = 0 /\
  getPhilosopherFromId (p_id p) (philosophers (shm afterDinner)) = Some 3%nat /\
  base (philAt (shm (world_of (updatePhilosopher p afterDinner))) 3) = p.
Proof.
  intros p.
  assert (Hrun : serveAll dinner freshWorld = Done tt afterDinner)
    by (vm_compute; reflexivity).
  assert (Hroom : numberPhilosophers (shm afterDinner) < MAX_PHILOSOPHERS)
    by (vm_compute; reflexivity).
  assert (Hid : p_id p = 0) by reflexivity.
  assert (Hj : joined (shm afterDinner) = 3%nat) by (vm_compute; reflexivity).
  pose proof (zero_identity_finds_free_slot dinner afterDinner p Hrun Hroom Hid) as H.
  cbv zeta in H. rewrite Hj in H. destruct H as (Hfind & _ & Hwrites & _).
  split; [exact Hrun|]. split; [exact Hroom|]. split; [exact Hid|].
  split; [exact Hfind|].
  apply Hwrites. intros [Hst _]. discriminate Hst.
Defined.

(** C9 as stated fails: on the slot an earlier update of identity 0 left
    in EATING, an update of identity 0 that carries THINKING finds the
    slot and stops before writing into it. *)
Lemma zero_identity_may_not_write :
  ~ (forall qs w p,
       serveAll qs freshWorld = Done tt w ->
       numberPhilosophers (shm w) < MAX_PHILOSOPHERS ->
       p_id p = 0 ->
       exists slot,
         (joined (shm w) <= slot)%nat /\
         getPhilosopherFromId (p_id p) (philosophers (shm w)) = Some slot /\
         updatePhilosopher p w <>
           Done None (mkWorld (shm w) (events w ++ [EvLog notFoundRecord])) /\
         base (philAt (shm (world_of (updatePhilosopher p w))) slot) = p).
Proof.
  intros H.
  destruct (H [REQUEST_UPDATE (mkPhilosopher 0 EATING 5)] zeroEating
              (mkPhilosopher 0 THINKING 5))
    as (slot & _ & Hfind & _ & Hbase).
  - vm_compute. reflexivity.
  - vm_compute. reflexivity.
  - reflexivity.
  - vm_compute in Hfind. injection Hfind as <-.
    vm_compute in Hbase. discriminate Hbase.
Qed.

(** C1 (as amended). Start from the new segment and serve any sequence of
    joins and updates in which every update that carries EATING finds its
    slot already in EATING. Each time a request has returned, the value of
    [maxAllowedEating] is [numberPhilosophers / 2], rounded down, minus the
    number of participants whose stored state is EATING. *)
Theorem gate_counts_free_seats qs w :
  acknowledging qs freshWorld = true ->
  serveAll qs freshWorld = Done tt w ->
  maxAllowedEating (shm w) = numberPhilosophers (shm w) / 2 - eatingCount (shm w).
Proof.
  intros Hack Hrun.
  pose proof (serveAll_invariant qs freshWorld fresh_Wired fresh_Balanced Hack) as H.
  apply (wp_done _ _ _ _ _ Hrun) in H as [_ HB]. apply HB.
Qed.

Lemma gate_counts_free_seats_witness :
  acknowledging dinner freshWorld = true /\
  serveAll dinner freshWorld = Done tt afterDinner /\
  maxAllowedEating (shm afterDinner) =
    numberPhilosophers (shm afterDinner) / 2 - eatingCount (shm afterDinner).
Proof.
  assert (Hack : acknowledging dinner freshWorld = true) by (vm_compute; reflexivity).
  assert (Hrun : serveAll dinner freshWorld = Done tt afterDinner)
    by (vm_compute; reflexivity).
  split; [exact Hack|]. split; [exact Hrun|].
  exact (gate_counts_free_seats dinner afterDinner Hack Hrun).
Defined.

(** C1 as stated fails: after two joins, an update that carries EATING for
    the first participant is stored without taking a unit of the gate. *)
Lemma gate_miscounts_unacknowledged :
  ~ (forall qs w,
       serveAll qs freshWorld = Done tt w ->
       maxAllowedEating (shm w) =
         numberPhilosophers (shm w) / 2 - eatingCount (shm w)).
Proof.
  intros H.
  pose (qs := [REQUEST_CREATE; REQUEST_CREATE;
               REQUEST_UPDATE (mkPhilosopher 1 EATING 5)]).
  specialize (H qs (world_of (serveAll qs freshWorld))).
  assert (Hrun : serveAll qs freshWorld = Done tt (world_of (serveAll qs freshWorld)))
    by (vm_compute; reflexivity).
  specialize (H Hrun). vm_compute in H. discriminate H.
Qed.

(** Each time a request of such a sequence has returned, every chopstick
    of the ring is free exactly when neither of the two participants that
    share it is eating. *)
Lemma chopsticks_follow_meals qs w c :
  acknowledging qs freshWorld = true ->
  serveAll qs freshWorld = Done tt w ->
  (c < joined (shm w))%nat ->
  0 <= usageAt (shm w) c /\
  usageAt (shm w) c + eatsAt (shm w) c + eatsAt (shm w) (predOf (joined (shm w)) c) = 1.
Proof.
  intros Hack Hrun Hc.
  pose proof (serveAll_invariant qs freshWorld fresh_Wired fresh_Balanced Hack) as H.
  apply (wp_done _ _ _ _ _ Hrun) in H as [_ HB]. by apply HB.
Qed.



Lemma usage_map_le f i cs c :
  (forall v, f v <= v) ->
  c_usage (usage_map f i cs !!! c) <= c_usage (cs !!! c).
Proof.
  intros Hf. rewrite usage_map_lookup.
  case_decide as Hd; [destruct Hd as [-> _]; apply Hf | lia].
Qed.

(** A call that returns raises a semaphore only when it carries THINKING
    over a stored EATING. *)
Lemma only_release_raises p w k sp o w' :
  getPhilosopherFromId (p_id p) (philosophers (shm w)) = Some k ->
  philosophers (shm w) !! k = Some sp ->
  updatePhilosopher p w = Done o w' ->
  maxAllowedEating (shm w) < maxAllowedEating (shm w') \/
  (exists c, usageAt (shm w) c < usageAt (shm w') c) ->
  p_state p = THINKING /\ p_state (base sp) = EATING.
Proof.
  intros Hfind Hsp Hdone.
  assert (H : wp (updatePhilosopher p)
            (fun _ w' =>
               maxAllowedEating (shm w) < maxAllowedEating (shm w') \/
               (exists c, usageAt (shm w) c < usageAt (shm w') c) ->
               p_state p = THINKING /\ p_state (base sp) = EATING) w).
  { apply updatePhilosopher_effect.
    - congruence.
    - intros k' sp' ev Hfind' Hsp'.
      rewrite Hfind in Hfind'. injection Hfind' as <-.
      rewrite Hsp in Hsp'. injection Hsp' as <-.
      assert (Hplain : forall r',
                maxAllowedEating r' = maxAllowedEating (shm w) ->
                chopsticks r' = chopsticks (shm w) ->
                maxAllowedEating (shm w) < maxAllowedEating r' \/
                (exists c, usageAt (shm w) c < usageAt r' c) ->
                p_state p = THINKING /\ p_state (base sp) = EATING).
      { intros r' Hg Hcs [Hlt|[c Hlt]]; [lia|].
        unfold usageAt, chopAt in Hlt. rewrite Hcs in Hlt. lia. }
      destruct (p_state p) eqn:Hst.
      + destruct (p_state (base sp)) eqn:Hstored.
        * cbn [shm]. by apply Hplain.
        * cbn [shm]. by apply Hplain.
        * intros. done.
      + intros l rt _ _ Hgate _ _. cbn [shm maxAllowedEating].
        intros [Hlt|[c Hlt]]; [lia|]. exfalso.
        unfold usageAt, chopAt in Hlt. cbn [chopsticks] in Hlt.
        pose proof (usage_map_le Z.pred rt (usage_map Z.pred l (chopsticks (shm w))) c Z.le_pred_l).
        pose proof (usage_map_le Z.pred l (chopsticks (shm w)) c Z.le_pred_l).
        lia.
      + cbn [shm]. by apply Hplain. }
  exact (wp_done _ _ _ _ _ Hdone H).
Qed.

(** C6 (as amended). For a slot found by the identifier of the request:
    THINKING over THINKING only overwrites the stored base and sends one
    record; HUNGRY over HUNGRY is served as every HUNGRY update, it takes
    one unit of the gate and the two chopsticks and leaves EATING; and of
    the updates that return, only THINKING over EATING raises the gate or a
    chopstick semaphore. *)
Theorem same_state_updates p w k sp :
  getPhilosopherFromId (p_id p) (philosophers (shm w)) = Some k ->
  philosophers (shm w) !! k = Some sp ->
  (p_state p = THINKING -> p_state (base sp) = THINKING ->
   exists action,
     updatePhilosopher p w =
     Done None
       (mkWorld (set_philosophers (<[k := set_base p sp]> (philosophers (shm w))) (shm w))
                (events w ++ [EvSetBase k p; EvLog (actionRecord p action)]))) /\
  (p_state p = HUNGRY -> p_state (base sp) = HUNGRY ->
   forall l rt cl cr,
     leftChopstick sp = Some l -> rightChopstick sp = Some rt -> l <> rt ->
     chopsticks (shm w) !! l = Some cl -> chopsticks (shm w) !! rt = Some cr ->
     0 < maxAllowedEating (shm w) -> 0 < c_usage cl -> 0 < c_usage cr ->
     exists w' (added : list Event),
       updatePhilosopher p w = Done (Some k) w' /\
       events w' = (events w ++ added)%list /\
       steps added =
         [EvSetBase k p; EvAcquire SemMaxAllowedEating; EvAcquire (SemUsage l);
          EvAcquire (SemUsage rt); EvSetState k EATING; EvSetTimer k 0] /\
       stateAt (shm w') k = EATING /\
       maxAllowedEating (shm w') = maxAllowedEating (shm w) - 1 /\
       usageAt (shm w') l = c_usage cl - 1 /\
       usageAt (shm w') rt = c_usage cr - 1) /\
  (forall o w',
     updatePhilosopher p w = Done o w' ->
     maxAllowedEating (shm w) < maxAllowedEating (shm w') \/
     (exists c, usageAt (shm w) c < usageAt (shm w') c) ->
     p_state p = THINKING /\ p_state (base sp) = EATING).
Proof.
  intros Hfind Hsp. split; [|split].
  - intros Hst Hstored. apply updatePhilosopher_overwrite; [done..|].
    left. split; [done|]. rewrite Hstored. done.
  - intros Hst _ l rt cl cr Hl Hrt Hne Hcl Hcr Hgate Hul Hur.
    destruct (updatePhilosopher_grant p w k sp l rt cl cr Hst Hfind Hsp Hl Hrt Hne
                Hcl Hcr Hgate Hul Hur) as (w' & added & Hdone & Hev & Hsteps & Hshm).
    pose proof (lookup_lt_Some _ _ _ Hsp).
    pose proof (lookup_lt_Some _ _ _ Hcl).
    pose proof (lookup_lt_Some _ _ _ Hcr).
    exists w', added. rewrite Hshm. unfold stateAt, philAt, usageAt, chopAt.
    cbn [philosophers chopsticks maxAllowedEating].
    rewrite list_lookup_total_insert_eq by lia.
    rewrite list_lookup_total_insert_ne by done.
    rewrite list_lookup_total_insert_eq by lia.
    rewrite list_lookup_total_insert_eq by (rewrite length_insert; lia).
    repeat split; done.
  - intros o w'. by apply (only_release_raises p w k sp).
Qed.

Lemma same_state_updates_witness :
  let p := mkPhilosopher 1 THINKING 4 in
  let sp := philAt (shm tableOfTwo) 0 in
  getPhilosopherFromId (p_id p) (philosophers (shm tableOfTwo)) = Some 0%nat /\
  philosophers (shm tableOfTwo) !! 0%nat = Some sp /\
  exists action,
    updatePhilosopher p tableOfTwo =
    Done None
      (mkWorld (set_philosophers (<[0%nat := set_base p sp]> (philosophers (shm tableOfTwo)))
                  (shm tableOfTwo))
               (events tableOfTwo ++ [EvSetBase 0 p; EvLog (actionRecord p action)])).
Proof.
  intros p sp.
  assert (H1 : getPhilosopherFromId (p_id p) (philosophers (shm tableOfTwo)) = Some 0%nat)
    by (vm_compute; reflexivity).
  assert (H2 : philosophers (shm tableOfTwo) !! 0%nat = Some sp)
    by (vm_compute; reflexivity).
  split; [exact H1|]. split; [exact H2|].
  destruct (same_state_updates p tableOfTwo 0%nat sp H1 H2) as (Hthinking & _ & _).
  apply Hthinking; vm_compute; reflexivity.
Defined.

(** C6 as stated fails for HUNGRY over HUNGRY: the first slot of
    [hungrySleeper] holds HUNGRY, and an update that carries HUNGRY for it
    takes a unit of the gate instead of only overwriting the slot. *)
Lemma hungry_over_hungry_acquires :
  ~ (forall p w k sp,
       getPhilosopherFromId (p_id p) (philosophers (shm w)) = Some k ->
       philosophers (shm w) !! k = Some sp ->
       p_state (base sp) = p_state p ->
       p_state p = THINKING \/ p_state p = HUNGRY ->
       shm (world_of (updatePhilosopher p w)) =
       set_philosophers (<[k := set_base p sp]> (philosophers (shm w))) (shm w)).
Proof.
  intros H.
  specialize (H (mkPhilosopher 1 HUNGRY 0) hungrySleeper 0%nat
                (philAt (shm hungrySleeper) 0)).
  assert (H1 : getPhilosopherFromId 1 (philosophers (shm hungrySleeper)) = Some 0%nat)
    by (vm_compute; reflexivity).
  assert (H2 : philosophers (shm hungrySleeper) !! 0%nat
               = Some (philAt (shm hungrySleeper) 0)) by (vm_compute; reflexivity).
  assert (H3 : p_state (base (philAt (shm hungrySleeper) 0)) = HUNGRY)
    by (vm_compute; reflexivity).
  specialize (H H1 H2 H3 (or_intror eq_refl)).
  apply (f_equal maxAllowedEating) in H. vm_compute in H. discriminate H.
Qed.

(** C4. On the new segment an update of identity 0, which is the identity
    of no participant, finds the first slot: it returns NULL, but the record
    it sends is not the one of an unknown identity, and the slot is
    written. *)
Theorem unknown_identity_zero_is_found :
  let p := mkPhilosopher 0 THINKING 5 in
  exists w',
    updatePhilosopher p freshWorld = Done None w' /\
    getPhilosopherFromId 0 (philosophers (shm freshWorld)) = Some 0%nat /\
    records (events w') = [actionRecord p "\x1B[1;34mpenser\x1B[0m :"] /\
    (notFoundRecord ∉ records (events w')) /\
    base (philAt (shm w') 0) = p /\
    base (philAt (shm freshWorld) 0) = mkPhilosopher 0 THINKING 0.
Proof.
  intros p. eexists. split; [vm_compute; reflexivity|].
  split; [vm_compute; reflexivity|]. split; [vm_compute; reflexivity|].
  split; [|split; vm_compute; reflexivity].
  cbn. intros Hin. apply list_elem_of_singleton in Hin. discriminate Hin.
Qed.

(** An update whose identifier is held by no slot of the table returns
    NULL, sends the record of the unknown identity and nothing else, and
    leaves the segment as it was. *)
Lemma unknown_identity_aborts p w :
  (forall i sp, philosophers (shm w) !! i = Some sp -> p_id (base sp) <> p_id p) ->
  updatePhilosopher p w = Done None (mkWorld (shm w) (events w ++ [EvLog notFoundRecord])).
Proof.
  intros Hnone. apply updatePhilosopher_not_found.
  destruct (getPhilosopherFromId (p_id p) (philosophers (shm w))) as [k|] eqn:E; [|done].
  apply getPhilosopherFromId_Some in E as (_ & (sp & Hsp & Hid) & _).
  exfalso. by apply (Hnone k sp).
Qed.

(** C5. [createChopstick 1] on the new segment: the chopstick is stored
    in slot 0 with its semaphore at 1 and one record is sent, and
    [numberChopsticks] is still 0. *)
Theorem createChopstick_keeps_the_count :
  exists w',
    createChopstick 1 freshWorld = Done (Some 0%nat) w' /\
    chopAt (shm w') 0 = mkChopstick 1 1 /\
    length (records (events w')) = 1%nat /\
    numberChopsticks (shm freshWorld) = 0 /\
    numberChopsticks (shm w') = 0.
Proof.
  eexists. split; [vm_compute; reflexivity|].
  split; [vm_compute; reflexivity|]. split; [vm_compute; reflexivity|].
  split; vm_compute; reflexivity.
Qed.

(** For every identifier of the table: the slot, the semaphore, the
    record, and the count as it was. *)
Lemma createChopstick_spec id w :
  1 <= id <= MAX_PHILOSOPHERS ->
  length (chopsticks (shm w)) = Z.to_nat MAX_PHILOSOPHERS ->
  exists w' record,
    createChopstick id w = Done (Some (Z.to_nat (id - 1))) w' /\
    chopAt (shm w') (Z.to_nat (id - 1)) = mkChopstick id 1 /\
    (forall i, i <> Z.to_nat (id - 1) -> chopAt (shm w') i = chopAt (shm w) i) /\
    events w' = (events w ++ [EvLog record])%list /\
    log_category record = ServerLog /\
    numberChopsticks (shm w') = numberChopsticks (shm w).
Proof.
  intros Hid Hlen. unfold MAX_PHILOSOPHERS in *.
  assert (Hlt : (Z.to_nat (id - 1) < length (chopsticks (shm w)))%nat) by lia.
  destruct (lookup_lt_is_Some_2 _ _ Hlt) as [c0 Hc0].
  do 2 eexists. split; [by apply (createChopstick_run id w c0)|].
  unfold chopAt. cbn [shm events chopsticks set_chopsticks numberChopsticks].
  split; [by apply list_lookup_total_insert_eq|].
  split; [intros i Hi; by apply list_lookup_total_insert_ne|].
  repeat split; reflexivity.
Qed.

(** No request changes [numberChopsticks]. *)
Lemma serve_keeps_numberChopsticks q w :
  Wired (shm w) ->
  wp (serve q) (fun _ w' => numberChopsticks (shm w') = numberChopsticks (shm w)) w.
Proof.
  intros HW. destruct q as [|p]; cbn [serve]; apply wp_bind.
  - apply createPhilosopher_effect; [done|]. intros. by apply wp_ret.
  - apply updatePhilosopher_effect.
    + intros _ ev. by apply wp_ret.
    + intros k sp ev _ _.
      destruct (p_state p); [destruct (p_state (base sp))| |];
        intros; by apply wp_ret.
Qed.

(** After any sequence of requests, as many chopsticks as participants
    have been created and the count of chopsticks is still 0. *)
Lemma numberChopsticks_stays_zero qs w :
  serveAll qs freshWorld = Done tt w -> numberChopsticks (shm w) = 0.
Proof.
  assert (H : forall qs w0, Wired (shm w0) ->
            wp (serveAll qs)
               (fun _ w' => numberChopsticks (shm w') = numberChopsticks (shm w0)) w0).
  { clear. induction qs as [|q qs IH]; intros w0 HW; [by apply wp_ret|].
    cbn [serveAll]. apply wp_bind.
    eapply wp_mono;
      [|apply wp_conj; [by apply serve_Wired | by apply serve_keeps_numberChopsticks]].
    intros [] w1 [[HW1 _] H1].
    eapply wp_mono; [|by apply IH]. intros [] w2 H2. cbn beta in *. congruence. }
  intros Hrun. exact (wp_done _ _ _ _ _ Hrun (H qs freshWorld fresh_Wired)).
Qed.

(** The ring after [n] joins on the new segment, checked slot by slot. *)
Tactic Notation "ring_by_cases" integer(n) :=
  eexists; split; [vm_compute; reflexivity|]; split;
  [ vm_compute; reflexivity
  | intros i Hi; do n (destruct i as [|i]; [split; vm_compute; eauto|]); lia
  | intros i Hi; do n (destruct i as [|i]; [try lia; vm_compute; reflexivity|]); lia
  | vm_compute; reflexivity
  | exists 0%nat; split; [vm_compute; reflexivity|];
    split; [vm_compute; reflexivity|];
    split; [intros k Hk; do n (destruct k as [|k]; [try lia; vm_compute; discriminate|]); lia|];
    split; [apply (bool_decide_unpack _); vm_compute; reflexivity|];
    vm_compute; reflexivity ].

(** C2 (as amended). For every number [n] of joins from 2 up to the
    capacity, the joins all return and leave the ring of [n]
    participants. *)
Theorem joins_close_the_ring n :
  (2 <= n <= 7)%nat ->
  exists w,
    serveAll (replicate n REQUEST_CREATE) freshWorld = Done tt w /\
    Ring (shm w) n.
Proof.
  intros Hn.
  destruct n as [|n]; [lia|]. destruct n as [|n]; [lia|].
  destruct n as [|n]; [ring_by_cases 2|].
  destruct n as [|n]; [ring_by_cases 3|].
  destruct n as [|n]; [ring_by_cases 4|].
  destruct n as [|n]; [ring_by_cases 5|].
  destruct n as [|n]; [ring_by_cases 6|].
  destruct n as [|n]; [ring_by_cases 7|].
  lia.
Qed.

Lemma joins_close_the_ring_witness :
  (2 <= 3 <= 7)%nat /\
  exists w,
    serveAll (replicate 3 REQUEST_CREATE) freshWorld = Done tt w /\
    Ring (shm w) 3.
Proof.
  assert (H : (2 <= 3 <= 7)%nat) by lia.
  split; [exact H|]. exact (joins_close_the_ring 3 H).
Defined.

(** C2 as stated fails for the sequence of one join: the participant it
    leaves has a null right chopstick reference. *)
Lemma one_join_is_no_ring :
  ~ (forall n, (n <= 7)%nat ->
       exists w,
         serveAll (replicate n REQUEST_CREATE) freshWorld = Done tt w /\
         Ring (shm w) n).
Proof.
  intros H. destruct (H 1%nat ltac:(lia)) as (w & Hrun & HR).
  vm_compute in Hrun. injection Hrun as <-.
  destruct (ring_set _ _ HR 0%nat ltac:(lia)) as [_ [c Hc]].
  vm_compute in Hc. discriminate Hc.
Qed.

(** C7 (as amended). After exactly two joins on the new segment, the
    right chopstick of participant 1 and the left chopstick of participant
    2 are the same chopstick, the one of slot 1, whose identifier is 2; and
    the right chopstick of participant 2 is the left chopstick of
    participant 1, the one of slot 0, whose identifier is 1. *)
Theorem two_joins_share_both_chopsticks :
  serveAll [REQUEST_CREATE; REQUEST_CREATE] freshWorld = Done tt tableOfTwo /\
  rightChopstick (philAt (shm tableOfTwo) 0) = Some 1%nat /\
  leftChopstick (philAt (shm tableOfTwo) 1) = Some 1%nat /\
  c_id (chopAt (shm tableOfTwo) 1) = 2 /\
  rightChopstick (philAt (shm tableOfTwo) 1) = Some 0%nat /\
  leftChopstick (philAt (shm tableOfTwo) 0) = Some 0%nat /\
  c_id (chopAt (shm tableOfTwo) 0) = 1.
Proof.
  split; [vm_compute; reflexivity|]. split; [vm_compute; reflexivity|].
  split; [vm_compute; reflexivity|]. split; [vm_compute; reflexivity|].
  split; [vm_compute; reflexivity|]. split; vm_compute; reflexivity.
Qed.

(** C7 as stated fails: the chopstick that participant 1 has on its right
    and participant 2 on its left does not have the identifier 1. *)
Lemma shared_chopstick_is_not_the_first :
  ~ (exists w c,
       serveAll [REQUEST_CREATE; REQUEST_CREATE] freshWorld = Done tt w /\
       rightChopstick (philAt (shm w) 0) = Some c /\
       leftChopstick (philAt (shm w) 1) = Some c /\
       c_id (chopAt (shm w) c) = 1 /\
       rightChopstick (philAt (shm w) 1) = leftChopstick (philAt (shm w) 0)).
Proof.
  intros (w & c & Hrun & Hr & _ & Hid & _).
  vm_compute in Hrun. injection Hrun as <-.
  vm_compute in Hr. injection Hr as <-.
  vm_compute in Hid. discriminate Hid.
Qed.

(** * The rest of the server, and the client *)

(** ** At rest *)

Lemma fresh_AtRest : AtRest (shm freshWorld).
Proof. split; [cbn; lia | reflexivity]. Qed.

Lemma post_value_nonneg v : 0 <= v -> 0 <= post_value v.
Proof. unfold post_value. destruct (v <? SEM_VALUE_MAX); lia. Qed.

Lemma serve_AtRest q w :
  Wired (shm w) -> AtRest (shm w) ->
  wp (serve q) (fun _ w' => AtRest (shm w')) w.
Proof.
  intros HW [Hg Hc]. destruct q as [|p]; cbn [serve]; apply wp_bind.
  - apply createPhilosopher_effect; [done|].
    intros ev n sp _ _ _ _ _. apply wp_ret. split; cbn [shm maxAllowedEating philosopherCreationProcess].
    + destruct (Z.even _); [by apply post_value_nonneg | done].
    + rewrite Hc. reflexivity.
  - apply updatePhilosopher_effect.
    + intros _ ev. by apply wp_ret.
    + intros k sp ev _ _.
      destruct (p_state p); [destruct (p_state (base sp))| |]; intros; apply wp_ret;
        split; cbn [shm maxAllowedEating philosopherCreationProcess set_philosophers];
        try done; try (by apply post_value_nonneg); lia.
Qed.

Lemma serveAll_AtRest qs w :
  Wired (shm w) -> AtRest (shm w) ->
  wp (serveAll qs) (fun _ w' => AtRest (shm w')) w.
Proof.
  revert w. induction qs as [|q qs IH]; intros w HW HR; [by apply wp_ret|].
  cbn [serveAll]. apply wp_bind.
  eapply wp_mono; [|apply wp_conj; [by apply serve_Wired | by apply serve_AtRest]].
  intros [] w1 [[HW1 _] HR1]. by apply IH.
Qed.

Lemma served_AtRest qs w :
  serveAll qs freshWorld = Done tt w -> AtRest (shm w).
Proof.
  intros Hrun.
  exact (wp_done _ _ _ _ _ Hrun (serveAll_AtRest qs freshWorld fresh_Wired fresh_AtRest)).
Qed.

Lemma served_Balanced qs w :
  acknowledging qs freshWorld = true ->
  serveAll qs freshWorld = Done tt w ->
  Wired (shm w) /\ Balanced (shm w).
Proof.
  intros Hack Hrun.
  exact (wp_done _ _ _ _ _ Hrun
           (serveAll_invariant qs freshWorld fresh_Wired fresh_Balanced Hack)).
Qed.

Lemma eatsAt_EATING r i : eatsAt r i = 1 <-> stateAt r i = EATING.
Proof.
  unfold eatsAt, eats, stateAt. destruct (p_state (base (philAt r i))); split; done.
Qed.

Lemma eatsAt_bounds r i : 0 <= eatsAt r i <= 1.
Proof. apply eats_bounds. Qed.

(** The two participants that share chopstick [c]. *)
Lemma sharing r i j c :
  Wired r -> (i < joined r)%nat -> (j < joined r)%nat ->
  rightChopstick (philAt r i) = Some c -> leftChopstick (philAt r j) = Some c ->
  j = c /\ (c < joined r)%nat /\ predOf (joined r) c = i /\ i <> j.
Proof.
  intros HW Hi Hj Hr Hl.
  destruct (wired_joined _ HW i Hi) as (_ & _ & Hri & _).
  destruct (wired_joined _ HW j Hj) as (_ & Hlj & _ & _).
  rewrite Hl in Hlj. injection Hlj as ->.
  rewrite Hr in Hri. symmetry in Hri.
  destruct (predOf_rightOf _ _ _ Hi Hri) as (_ & _ & Hne & Hp). done.
Qed.

(** X1. When every request has acknowledged and all have returned, two
    participants that share a chopstick -- it is the right one of the
    first and the left one of the second -- are never both stored as
    EATING; and a participant that is alone at the table, whose two
    chopsticks are the same one, is not stored as EATING. *)
Theorem neighbours_never_eat_together qs w :
  acknowledging qs freshWorld = true ->
  serveAll qs freshWorld = Done tt w ->
  (forall i j c,
     (i < joined (shm w))%nat -> (j < joined (shm w))%nat ->
     rightChopstick (philAt (shm w) i) = Some c ->
     leftChopstick (philAt (shm w) j) = Some c ->
     ~ (stateAt (shm w) i = EATING /\ stateAt (shm w) j = EATING)) /\
  (joined (shm w) = 1%nat -> stateAt (shm w) 0 <> EATING).
Proof.
  intros Hack Hrun. destruct (served_Balanced _ _ Hack Hrun) as [HW HB]. split.
  - intros i j c Hi Hj Hr Hl [Hei Hej].
    destruct (sharing _ _ _ _ HW Hi Hj Hr Hl) as (-> & Hc & Hp & _).
    destruct (bal_usage _ HB c Hc) as [Hu He]. rewrite Hp in He.
    apply eatsAt_EATING in Hei, Hej. lia.
  - intros H1 He. destruct (bal_usage _ HB 0%nat ltac:(lia)) as [Hu Hb].
    rewrite H1 in Hb. cbn [predOf Nat.eqb Nat.sub] in Hb.
    apply eatsAt_EATING in He. lia.
Qed.

Lemma neighbours_never_eat_together_witness :
  acknowledging dinner freshWorld = true /\
  serveAll dinner freshWorld = Done tt afterDinner /\
  ((forall i j c,
      (i < joined (shm afterDinner))%nat -> (j < joined (shm afterDinner))%nat ->
      rightChopstick (philAt (shm afterDinner) i) = Some c ->
      leftChopstick (philAt (shm afterDinner) j) = Some c ->
      ~ (stateAt (shm afterDinner) i = EATING /\ stateAt (shm afterDinner) j = EATING)) /\
   (joined (shm afterDinner) = 1%nat -> stateAt (shm afterDinner) 0 <> EATING)).
Proof.
  split; [vm_compute; reflexivity|]. split; [vm_compute; reflexivity|].
  apply (neighbours_never_eat_together dinner afterDinner); vm_compute; reflexivity.
Defined.

(** X2. When every request has acknowledged and all have returned, the
    participants stored as EATING are at most half of those at the table,
    rounded down. *)
Theorem at_most_half_eat qs w :
  acknowledging qs freshWorld = true ->
  serveAll qs freshWorld = Done tt w ->
  0 <= eatingCount (shm w) <= numberPhilosophers (shm w) / 2.
Proof.
  intros Hack Hrun. destruct (served_Balanced _ _ Hack Hrun) as [HW HB].
  pose proof (rest_gate _ (served_AtRest _ _ Hrun)) as Hg.
  pose proof (bal_gate _ HB) as Hf. unfold gate_formula in Hf.
  pose proof (eatingCount_bounds (shm w)). lia.
Qed.

Lemma at_most_half_eat_witness :
  acknowledging dinner freshWorld = true /\
  serveAll dinner freshWorld = Done tt afterDinner /\
  0 <= eatingCount (shm afterDinner) <= numberPhilosophers (shm afterDinner) / 2.
Proof.
  split; [vm_compute; reflexivity|]. split; [vm_compute; reflexivity|].
  apply (at_most_half_eat dinner afterDinner); vm_compute; reflexivity.
Defined.

(** X3. When every request has acknowledged and all have returned, the
    semaphore of a chopstick of the table holds 0 or 1; it holds 1 when
    one participant is alone; and with more participants it holds 0
    exactly when one of the two participants that share the chopstick is
    stored as EATING. *)
Theorem chopstick_free_when_unused qs w c :
  acknowledging qs freshWorld = true ->
  serveAll qs freshWorld = Done tt w ->
  (c < joined (shm w))%nat ->
  (usageAt (shm w) c = 0 \/ usageAt (shm w) c = 1) /\
  (joined (shm w) = 1%nat -> usageAt (shm w) c = 1) /\
  (forall i,
     (i < joined (shm w))%nat ->
     rightChopstick (philAt (shm w) i) = Some c ->
     (usageAt (shm w) c = 0 <->
      stateAt (shm w) i = EATING \/ stateAt (shm w) c = EATING)).
Proof.
  intros Hack Hrun Hc. destruct (served_Balanced _ _ Hack Hrun) as [HW HB].
  destruct (bal_usage _ HB c Hc) as [Hu He].
  pose proof (eatsAt_bounds (shm w) c) as Hb1.
  pose proof (eatsAt_bounds (shm w) (predOf (joined (shm w)) c)) as Hb2.
  split; [lia|]. split.
  - intros H1. rewrite H1 in *. assert (c = 0%nat) as -> by lia.
    cbn [predOf Nat.eqb Nat.sub] in *. lia.
  - intros i Hi Hr.
    destruct (wired_joined _ HW c Hc) as (_ & Hl & _ & _).
    destruct (sharing _ _ _ _ HW Hi Hc Hr Hl) as (_ & _ & Hp & _).
    rewrite Hp in *. rewrite <- !eatsAt_EATING. lia.
Qed.

Lemma chopstick_free_when_unused_witness :
  acknowledging dinner freshWorld = true /\
  serveAll dinner freshWorld = Done tt afterDinner /\
  (1 < joined (shm afterDinner))%nat /\
  ((usageAt (shm afterDinner) 1 = 0 \/ usageAt (shm afterDinner) 1 = 1) /\
   (joined (shm afterDinner) = 1%nat -> usageAt (shm afterDinner) 1 = 1) /\
   (forall i,
      (i < joined (shm afterDinner))%nat ->
      rightChopstick (philAt (shm afterDinner) i) = Some 1%nat ->
      (usageAt (shm afterDinner) 1 = 0 <->
       stateAt (shm afterDinner) i = EATING \/ stateAt (shm afterDinner) 1 = EATING))).
Proof.
  split; [vm_compute; reflexivity|]. split; [vm_compute; reflexivity|].
  split; [vm_compute; lia|].
  apply (chopstick_free_when_unused dinner afterDinner 1%nat);
    [vm_compute; reflexivity | vm_compute; reflexivity | vm_compute; lia].
Defined.

(** X4. Each time the requests served so far have all returned, the lock
    of creation is free again and the gate is not negative: a join that
    returns gives back the lock it took, and an update never touches
    it. *)
Theorem creation_lock_is_released qs w :
  serveAll qs freshWorld = Done tt w ->
  philosopherCreationProcess (shm w) = 1 /\ 0 <= maxAllowedEating (shm w).
Proof. intros Hrun. destruct (served_AtRest _ _ Hrun). done. Qed.

Lemma creation_lock_is_released_witness :
  serveAll dinner freshWorld = Done tt afterDinner /\
  philosopherCreationProcess (shm afterDinner) = 1 /\
  0 <= maxAllowedEating (shm afterDinner).
Proof.
  split; [vm_compute; reflexivity|].
  apply (creation_lock_is_released dinner afterDinner). vm_compute. reflexivity.
Defined.

(** *** Running a join *)

Lemma run_sem_wait s w v :
  sem_value s (shm w) = Some v -> 0 < v ->
  sem_wait s w = Done tt (mkWorld (sem_set s (v - 1) (shm w)) (events w ++ [EvAcquire s])).
Proof.
  intros Hv Hpos. unfold sem_wait. rewrite Hv. destruct (Z.ltb_spec 0 v); [done | lia].
Qed.

Lemma run_sem_wait_sleeps s w v :
  sem_value s (shm w) = Some v -> v <= 0 -> sem_wait s w = Blocked s w.
Proof.
  intros Hv Hle. unfold sem_wait. rewrite Hv. destruct (Z.ltb_spec 0 v); [lia | done].
Qed.

Lemma run_index i w :
  0 <= i < MAX_PHILOSOPHERS -> index i w = Done (Z.to_nat i) w.
Proof.
  intros Hi. unfold index.
  destruct (Z.leb_spec 0 i); [|lia]. destruct (Z.ltb_spec i MAX_PHILOSOPHERS); [|lia]. done.
Qed.


Lemma run_get_shm w : get_shm w = Done (shm w) w.
Proof. done. Qed.

Lemma run_modify_shm f w : modify_shm f w = Done tt (mkWorld (f (shm w)) (events w)).
Proof. done. Qed.

Lemma run_deref i w : deref (Some i) w = Done i w.
Proof. done. Qed.

Lemma run_ret {A} (a : A) w : (mret a : M A) w = Done a w.
Proof. done. Qed.

Lemma run_logServerState format args w :
  logServerState format args w =
  Done tt (mkWorld (shm w) (events w ++ [EvLog (mkLog ServerLog format args)])).
Proof. done. Qed.




Lemma lookup_philAt r i :
  Wired r -> (i < 7)%nat -> philosophers r !! i = Some (philAt r i).
Proof.
  intros HW Hi. apply list_lookup_lookup_total_lt.
  rewrite (wired_philosophers _ HW). done.
Qed.

Lemma lookup_chopAt r i :
  Wired r -> (i < 7)%nat -> chopsticks r !! i = Some (chopAt r i).
Proof.
  intros HW Hi. apply list_lookup_lookup_total_lt.
  rewrite (wired_chopsticks _ HW). done.
Qed.

(** The join up to the point where the right chopstick of the last
    participant is to be moved: the lock taken, the chopstick created. *)
Lemma createPhilosopher_returns w :
  Wired (shm w) ->
  numberPhilosophers (shm w) < MAX_PHILOSOPHERS ->
  0 < philosopherCreationProcess (shm w) ->
  ((2 <= joined (shm w))%nat -> 0 < usageAt (shm w) 0) ->
  exists sp w', createPhilosopher w = Done sp w'.
Proof.
  intros HW Hroom Hlock Hfree.
  pose proof (wired_count _ HW) as Hc.
  pose proof (joined_count _ (proj1 Hc)) as Hn.
  pose proof (wired_philosophers _ HW) as Hpl.
  pose proof (wired_chopsticks _ HW) as Hcl.
  pose proof (wired_joined _ HW) as Hj.
  pose proof (lookup_philAt _ 0 HW ltac:(lia)) as Hp0.
  pose proof (lookup_chopAt _ 0 HW ltac:(lia)) as Hc0.
  change (Z.to_nat MAX_PHILOSOPHERS) with 7%nat in *.
  remember (joined (shm w)) as n eqn:Hjn.
  assert (Hn7 : (n < 7)%nat) by (unfold MAX_PHILOSOPHERS in *; lia).
  pose proof (lookup_philAt _ n HW Hn7) as Hpn.
  pose proof (lookup_chopAt _ n HW Hn7) as Hcn.
  pose proof (lookup_philAt _ (n - 1) HW ltac:(lia)) as Hpp.
  unfold createPhilosopher.
  erewrite run_bind by (by apply (run_sem_wait SemCreation)).
  erewrite run_bind by apply run_get_shm. segs. rewrite ?Hn.
  erewrite run_bind by apply run_logServerState.
  erewrite run_bind; cycle 1.
  { apply (createChopstick_run _ _ (chopAt (shm w) n)); [unfold MAX_PHILOSOPHERS; lia|].
    seg. replace (Z.to_nat (Z.of_nat n + 1 - 1)) with n by lia. done. }
  replace (Z.to_nat (Z.of_nat n + 1 - 1)) with n by lia. seg.
  assert (Htail : forall (ph : ServerPhilosopher) g cr ps cs nc q ev,
            length ps = 7%nat ->
            exists sp w',
              (slot ← index (Z.of_nat n);
               write_philosopher slot (fun _ => ph);;
               modify_shm (fun r => set_numberPhilosophers (numberPhilosophers r + 1) r);;
               r ← get_shm;
               (if Z.rem (numberPhilosophers r) 2 =? 0
                then sem_post SemMaxAllowedEating
                else mret tt);;
               sem_post SemCreation;;
               mret ph)
                (mkWorld (mkSharedResources g cr ps (Z.of_nat n) cs nc q) ev) = Done sp w').
  { intros ph g cr ps cs nc q ev Hlen.
    destruct (lookup_lt_is_Some_2 ps n ltac:(lia)) as [old Hold].
    erewrite run_bind by (apply run_index; unfold MAX_PHILOSOPHERS; lia).
    rewrite Nat2Z.id.
    erewrite run_bind by (apply run_write_philosopher; seg; exact Hold). seg.
    erewrite run_bind by apply run_modify_shm. seg.
    erewrite run_bind by apply run_get_shm. seg.
    destruct (Z.rem (Z.of_nat n + 1) 2 =? 0).
    - erewrite run_bind by (by apply (run_sem_post SemMaxAllowedEating)). segs.
      erewrite run_bind by (by apply (run_sem_post SemCreation)). eauto.
    - erewrite run_bind by apply run_ret.
      erewrite run_bind by (by apply (run_sem_post SemCreation)). eauto. }
  destruct (Z.ltb_spec 0 (Z.of_nat n)) as [Hpos|Hzero].
  - (* not the first participant *)
    unfold definePhilosopherRightChopstick. seg.
    destruct (Z.eqb_spec (Z.of_nat n + 1) 2) as [H2|H2];
      [|destruct (Z.ltb_spec 2 (Z.of_nat n + 1)); [|lia]].
    + erewrite run_bind; cycle 1.
      { erewrite run_bind by apply run_get_shm. seg.
        erewrite run_bind by apply run_logServerState. seg.
        erewrite run_bind by apply run_deref.
        erewrite run_bind
          by (apply run_read_chopstick; seg; apply list_lookup_insert_eq; lia).
        erewrite run_bind by (apply run_index; unfold MAX_PHILOSOPHERS; seg; lia).
        seg. rewrite ?Hn.
        replace (Z.to_nat (Z.of_nat n - 1)) with (n - 1)%nat by lia.
        erewrite run_bind by (apply run_read_philosopher; seg; exact Hpp).
        erewrite run_bind by apply run_logServerState. seg.
        erewrite run_bind by (apply run_write_philosopher; seg; exact Hp0).
        reflexivity. }
      apply Htail. seg. rewrite ?length_insert. done.
    + assert (Hn2 : (2 <= n)%nat) by lia.
      destruct (Hj (n - 1)%nat ltac:(lia)) as (_ & _ & Hr & _).
      unfold rightOf in Hr.
      destruct (Nat.eqb_spec n 1); [lia|].
      destruct (Nat.eqb_spec (S (n - 1)) n); [|lia].
      erewrite run_bind; cycle 1.
      { erewrite run_bind by apply run_get_shm. seg.
        erewrite run_bind by apply run_logServerState. seg.
        erewrite run_bind by apply run_deref.
        erewrite run_bind
          by (apply run_read_chopstick; seg; apply list_lookup_insert_eq; lia).
        erewrite run_bind by (apply run_index; unfold MAX_PHILOSOPHERS; seg; lia).
        seg. rewrite ?Hn.
        replace (Z.to_nat (Z.of_nat n - 1)) with (n - 1)%nat by lia.
        erewrite run_bind by (apply run_read_philosopher; seg; exact Hpp).
        erewrite run_bind by apply run_logServerState. seg.
        erewrite run_bind; cycle 1.
        { erewrite run_bind by (apply run_index; unfold MAX_PHILOSOPHERS; lia).
          replace (Z.to_nat (Z.of_nat n - 1)) with (n - 1)%nat by lia.
          erewrite run_bind
            by (eapply (run_follow rightChopstick); [seg; exact Hpp | exact Hr]).
          erewrite run_bind; cycle 1.
          { apply (run_sem_wait (SemUsage 0) _ (usageAt (shm w) 0)); [|by apply Hfree].
            segs. rewrite list_lookup_insert_ne by lia. rewrite Hc0. done. }
          segs. rewrite list_lookup_insert_ne by lia. rewrite Hc0. seg.
          erewrite run_bind by (apply run_write_philosopher; seg; exact Hpp). seg.
          apply (run_sem_post (SemUsage 0)). segs.
          rewrite list_lookup_insert_eq by (rewrite length_insert; lia). done. }
        reflexivity. }
      segs. rewrite list_lookup_insert_eq by (rewrite length_insert; lia). seg.
      apply Htail. rewrite ?length_insert. done.
  - erewrite run_bind by apply run_ret. apply Htail. done.
Qed.

(** From the third join on, with the first chopstick taken: the join
    sleeps on it, holding the creation lock, the new chopstick created and
    the new participant not yet in the table. *)
Lemma createPhilosopher_sleeps w :
  Wired (shm w) ->
  numberPhilosophers (shm w) < MAX_PHILOSOPHERS ->
  0 < philosopherCreationProcess (shm w) ->
  (2 <= joined (shm w))%nat -> usageAt (shm w) 0 <= 0 ->
  exists w',
    createPhilosopher w = Blocked (SemUsage 0) w' /\
    shm w' =
      set_chopsticks
        (<[joined (shm w) := mkChopstick (numberPhilosophers (shm w) + 1) 1]> (chopsticks (shm w)))
        (set_philosopherCreationProcess (philosopherCreationProcess (shm w) - 1) (shm w)).
Proof.
  intros HW Hroom Hlock Hn2 Hbusy.
  pose proof (wired_count _ HW) as Hc.
  pose proof (joined_count _ (proj1 Hc)) as Hn.
  pose proof (wired_philosophers _ HW) as Hpl.
  pose proof (wired_chopsticks _ HW) as Hcl.
  pose proof (wired_joined _ HW) as Hj.
  pose proof (lookup_chopAt _ 0 HW ltac:(lia)) as Hc0.
  change (Z.to_nat MAX_PHILOSOPHERS) with 7%nat in *.
  remember (joined (shm w)) as n eqn:Hjn.
  assert (Hn7 : (n < 7)%nat) by (unfold MAX_PHILOSOPHERS in *; lia).
  pose proof (lookup_chopAt _ n HW Hn7) as Hcn.
  pose proof (lookup_philAt _ (n - 1) HW ltac:(lia)) as Hpp.
  destruct (Hj (n - 1)%nat ltac:(lia)) as (_ & _ & Hr & _).
  unfold rightOf in Hr.
  destruct (Nat.eqb_spec n 1); [lia|].
  destruct (Nat.eqb_spec (S (n - 1)) n); [|lia].
  eexists. split.
  - unfold createPhilosopher.
    erewrite run_bind by (by apply (run_sem_wait SemCreation)).
    erewrite run_bind by apply run_get_shm. segs. rewrite ?Hn.
    erewrite run_bind by apply run_logServerState.
    erewrite run_bind; cycle 1.
    { apply (createChopstick_run _ _ (chopAt (shm w) n)); [unfold MAX_PHILOSOPHERS; lia|].
      seg. replace (Z.to_nat (Z.of_nat n + 1 - 1)) with n by lia. done. }
    replace (Z.to_nat (Z.of_nat n + 1 - 1)) with n by lia. seg.
    destruct (Z.ltb_spec 0 (Z.of_nat n)); [|lia].
    apply run_blocked.
    unfold definePhilosopherRightChopstick. seg.
    destruct (Z.eqb_spec (Z.of_nat n + 1) 2); [lia|].
    destruct (Z.ltb_spec 2 (Z.of_nat n + 1)); [|lia].
    erewrite run_bind by apply run_get_shm. seg.
    erewrite run_bind by apply run_logServerState. seg.
    erewrite run_bind by apply run_deref.
    erewrite run_bind
      by (apply run_read_chopstick; seg; apply list_lookup_insert_eq; lia).
    erewrite run_bind by (apply run_index; unfold MAX_PHILOSOPHERS; seg; lia).
    seg. rewrite ?Hn.
    replace (Z.to_nat (Z.of_nat n - 1)) with (n - 1)%nat by lia.
    erewrite run_bind by (apply run_read_philosopher; seg; exact Hpp).
    erewrite run_bind by apply run_logServerState. seg.
    apply run_blocked.
    erewrite run_bind by (apply run_index; unfold MAX_PHILOSOPHERS; lia).
    replace (Z.to_nat (Z.of_nat n - 1)) with (n - 1)%nat by lia.
    erewrite run_bind
      by (eapply (run_follow rightChopstick); [seg; exact Hpp | exact Hr]).
    apply run_blocked.
    apply (run_sem_wait_sleeps (SemUsage 0) _ (usageAt (shm w) 0)); [|done].
    segs. rewrite list_lookup_insert_ne by lia. rewrite Hc0. done.
  - seg. rewrite ?Hn. reflexivity.
Qed.

Lemma createPhilosopher_locked w :
  philosopherCreationProcess (shm w) <= 0 ->
  createPhilosopher w = Blocked SemCreation w.
Proof.
  intros Hlock. unfold createPhilosopher. apply run_blocked.
  by apply (run_sem_wait_sleeps SemCreation _ (philosopherCreationProcess (shm w))).
Qed.

(** *** The release *)

Lemma run_logClientInfo message w :
  logClientInfo message w =
  Done tt (mkWorld (shm w) (events w ++ [EvLog (mkLog ClientLog message [])])).
Proof. done. Qed.

(** THINKING over a stored EATING, the two chopstick references set: the
    left chopstick, the right one and the gate are raised, in this order,
    and the stored base is then replaced. *)
Lemma updatePhilosopher_release p w k sp l rt cl cr :
  p_state p = THINKING ->
  getPhilosopherFromId (p_id p) (philosophers (shm w)) = Some k ->
  philosophers (shm w) !! k = Some sp ->
  p_state (base sp) = EATING ->
  leftChopstick sp = Some l -> rightChopstick sp = Some rt -> l <> rt ->
  chopsticks (shm w) !! l = Some cl -> chopsticks (shm w) !! rt = Some cr ->
  exists w' (added : list Event),
    updatePhilosopher p w = Done None w' /\
    events w' = (events w ++ added)%list /\
    steps added =
      [EvPost (SemUsage l); EvPost (SemUsage rt); EvPost SemMaxAllowedEating;
       EvSetBase k p] /\
    shm w' =
      mkSharedResources (post_value (maxAllowedEating (shm w)))
        (philosopherCreationProcess (shm w))
        (<[k := set_base p sp]> (philosophers (shm w)))
        (numberPhilosophers (shm w))
        (<[rt := mkChopstick (c_id cr) (post_value (c_usage cr))]>
           (<[l := mkChopstick (c_id cl) (post_value (c_usage cl))]> (chopsticks (shm w))))
        (numberChopsticks (shm w)) (logsQueueId (shm w)).
Proof.
  intros Hst Hfind Hsp Hstored Hl Hrt Hne Hcl Hcr.
  pose proof (lookup_lt_Some _ _ _ Hsp) as Hk.
  pose proof (lookup_lt_Some _ _ _ Hcl) as Hllen.
  pose proof (lookup_lt_Some _ _ _ Hcr) as Hrlen.
  do 2 eexists. split; [|split; [|split]].
  - unfold updatePhilosopher.
    rewrite (run_bind get_shm _ w (shm w) w eq_refl). rewrite Hfind, Hst.
    step run_read_philosopher. rewrite Hstored.
    erewrite run_bind; cycle 1.
    { erewrite run_bind
        by (eapply (run_follow leftChopstick); [lookups; exact Hsp | exact Hl]);
      lookups.
      erewrite run_bind by (apply (run_sem_post (SemUsage l)); lookups; by rewrite Hcl).
      lookups. rewrite Hcl. seg.
      step run_logClientInfo.
      erewrite run_bind
        by (eapply (run_follow leftChopstick); [lookups; exact Hsp | exact Hl]);
      lookups.
      step run_read_chopstick.
      step run_emit.
      erewrite run_bind
        by (eapply (run_follow rightChopstick); [lookups; exact Hsp | exact Hrt]);
      lookups.
      erewrite run_bind by (apply (run_sem_post (SemUsage rt)); lookups; by rewrite Hcr).
      lookups. rewrite Hcr. seg.
      step run_logClientInfo.
      erewrite run_bind
        by (eapply (run_follow rightChopstick); [lookups; exact Hsp | exact Hrt]);
      lookups.
      step run_read_chopstick.
      step run_emit.
      step (run_sem_post SemMaxAllowedEating).
      step run_logClientInfo.
      apply run_logServerState. }
    step run_overwrite_base.
    step run_read_philosopher.
    unfold logClientAction. seg. rewrite Hst.
    unfold logClientInfo_record, emit, mbind, M_bind, mret, M_ret.
    reflexivity.
  - trace_split. reflexivity.
  - reflexivity.
  - seg. reflexivity.
Qed.

(** A slot found for an identifier other than 0 is a participant's. *)
Lemma found_is_participant r id k :
  Wired r -> id <> 0 ->
  getPhilosopherFromId id (philosophers r) = Some k ->
  (k < joined r)%nat /\ id = Z.of_nat k + 1.
Proof.
  intros HW Hid Hfind.
  apply getPhilosopherFromId_Some in Hfind as (Hk & (sp & Hsp & Hsid) & _).
  apply philAt_lookup in Hsp as <-.
  destruct (le_lt_dec (joined r) k) as [Hge|Hlt].
  - destruct (wired_free _ HW k Hge) as (H0 & _). congruence.
  - split; [done|]. destruct (wired_joined _ HW k Hlt) as (H1 & _). congruence.
Qed.

(** X6. After requests that have all returned, with at least two
    participants at the table or every request acknowledged, a join made
    while there is room and an update for an identifier other than 0
    either return or sleep on a semaphore: they dereference no null
    pointer and leave no array. *)
Theorem participants_requests_are_safe qs w q :
  serveAll qs freshWorld = Done tt w ->
  (2 <= joined (shm w))%nat \/ acknowledging qs freshWorld = true ->
  match q with
  | REQUEST_CREATE => numberPhilosophers (shm w) < MAX_PHILOSOPHERS
  | REQUEST_UPDATE p => p_id p <> 0
  end ->
  (exists w', serve q w = Done tt w') \/ (exists s w', serve q w = Blocked s w').
Proof.
  intros Hrun Hcase Hq.
  destruct (served_Wired _ _ Hrun) as [HW _].
  destruct (served_AtRest _ _ Hrun) as [Hgate Hlock].
  pose proof (wired_count _ HW) as Hc.
  assert (Hn7 : (joined (shm w) <= 7)%nat) by (unfold joined, MAX_PHILOSOPHERS in *; lia).
  destruct q as [|p]; cbn [serve].
  - (* a join *)
    destruct (le_lt_dec 2 (joined (shm w))) as [Hn2|Hn2];
      [destruct (Z_lt_le_dec 0 (usageAt (shm w) 0)) as [Hfree|Hbusy]|].
    + destruct (createPhilosopher_returns w HW Hq ltac:(lia) (fun _ => Hfree))
        as (sp & w' & Hdone).
      left. exists w'. by rewrite (run_bind _ _ _ _ _ Hdone).
    + destruct (createPhilosopher_sleeps w HW Hq ltac:(lia) Hn2 Hbusy) as (w' & Hb & _).
      right. exists (SemUsage 0), w'. by apply run_blocked.
    + destruct (createPhilosopher_returns w HW Hq ltac:(lia) ltac:(lia))
        as (sp & w' & Hdone).
      left. exists w'. by rewrite (run_bind _ _ _ _ _ Hdone).
  - (* an update *)
    destruct (getPhilosopherFromId (p_id p) (philosophers (shm w))) as [k|] eqn:Hfind.
    2:{ left. eexists. by rewrite (run_bind _ _ _ _ _ (updatePhilosopher_not_found p w Hfind)). }
    destruct (found_is_participant _ _ _ HW Hq Hfind) as [Hk Hid].
    pose proof (lookup_philAt _ k HW ltac:(lia)) as Hsp.
    pose proof (lookup_chopAt _ k HW ltac:(lia)) as Hck.
    destruct (wired_joined _ HW k Hk) as (_ & Hl & Hr & _).
    (* a participant alone neither eats nor finds the gate open *)
    assert (Halone : joined (shm w) = 1%nat ->
              stateAt (shm w) k <> EATING /\ maxAllowedEating (shm w) <= 0).
    { intros H1. destruct Hcase as [?|Hack]; [lia|].
      destruct (served_Balanced _ _ Hack Hrun) as [_ HB].
      assert (k = 0%nat) as -> by lia.
      destruct (bal_usage _ HB 0%nat ltac:(lia)) as [Hu Hb].
      rewrite H1 in Hb. cbn [predOf Nat.eqb Nat.sub] in Hb.
      pose proof (bal_gate _ HB) as Hg. unfold gate_formula in Hg.
      pose proof (eatingCount_bounds (shm w)) as Hcb. rewrite H1 in Hcb.
      assert (HN : numberPhilosophers (shm w) = 1) by (unfold joined in H1; lia).
      rewrite HN in Hg. change (1 / 2) with 0 in Hg.
      split; [|lia]. intros He. apply eatsAt_EATING in He. lia. }
    (* with company, the right chopstick is another chopstick of the table *)
    assert (Hring : (2 <= joined (shm w))%nat ->
              exists rt, rightChopstick (philAt (shm w) k) = Some rt /\ k <> rt /\
                         chopsticks (shm w) !! rt = Some (chopAt (shm w) rt)).
    { intros Hn2. unfold rightOf in Hr.
      destruct (Nat.eqb_spec (joined (shm w)) 1); [lia|].
      eexists. split; [exact Hr|].
      destruct (Nat.eqb_spec (S k) (joined (shm w))); (split; [lia|]);
        apply (lookup_chopAt _ _ HW); lia. }
    destruct (p_state p) eqn:Hst.
    + (* THINKING *)
      destruct (classic_case THINKING (stateAt (shm w) k)) as [[_ Hstored]|Hplain].
      * destruct (le_lt_dec 2 (joined (shm w))) as [Hn2|Hn1].
        -- destruct (Hring Hn2) as (rt & Hrt & Hne & Hcrt).
           destruct (updatePhilosopher_release p w k _ k rt _ _ Hst Hfind Hsp Hstored
                       Hl Hrt Hne Hck Hcrt) as (w' & added & Hdone & _).
           left. exists w'. by rewrite (run_bind _ _ _ _ _ Hdone).
        -- destruct (Halone ltac:(lia)) as [Hno _]. done.
      * destruct (updatePhilosopher_overwrite p w k _ Hfind Hsp) as [action Hdone].
        { left. split; [done|]. intros Hs. apply Hplain. done. }
        left. eexists. by rewrite (run_bind _ _ _ _ _ Hdone).
    + (* HUNGRY *)
      destruct (Z_lt_le_dec 0 (maxAllowedEating (shm w))) as [Hopen|Hclosed].
      2:{ destruct (updatePhilosopher_waits_gate p w k _ Hst Hfind Hsp Hclosed)
            as (w' & added & Hb & _).
          right. exists SemMaxAllowedEating, w'. by apply run_blocked. }
      destruct (le_lt_dec 2 (joined (shm w))) as [Hn2|Hn1];
        [|destruct (Halone ltac:(lia)); lia].
      destruct (Hring Hn2) as (rt & Hrt & Hne & Hcrt).
      destruct (Z_lt_le_dec 0 (c_usage (chopAt (shm w) k))) as [Hlfree|Hlbusy].
      2:{ destruct (updatePhilosopher_waits_left p w k _ k _ Hst Hfind Hsp Hl Hck
                      Hopen Hlbusy) as (w' & added & Hb & _).
          right. exists (SemUsage k), w'. by apply run_blocked. }
      destruct (Z_lt_le_dec 0 (c_usage (chopAt (shm w) rt))) as [Hrfree|Hrbusy].
      2:{ destruct (updatePhilosopher_waits_right p w k _ k rt _ _ Hst Hfind Hsp Hl Hrt
                      Hne Hck Hcrt Hopen Hlfree Hrbusy) as (w' & added & Hb & _).
          right. exists (SemUsage rt), w'. by apply run_blocked. }
      destruct (updatePhilosopher_grant p w k _ k rt _ _ Hst Hfind Hsp Hl Hrt
                  Hne Hck Hcrt Hopen Hlfree Hrfree) as (w' & added & Hdone & _).
      left. exists w'. by rewrite (run_bind _ _ _ _ _ Hdone).
    + (* EATING *)
      destruct (updatePhilosopher_overwrite p w k _ Hfind Hsp) as [action Hdone];
        [by right|].
      left. eexists. by rewrite (run_bind _ _ _ _ _ Hdone).
Qed.

Lemma participants_requests_are_safe_witness :
  let q := REQUEST_UPDATE (mkPhilosopher 3 HUNGRY 0) in
  serveAll dinner freshWorld = Done tt afterDinner /\
  ((2 <= joined (shm afterDinner))%nat \/ acknowledging dinner freshWorld = true) /\
  3 <> 0 /\
  ((exists w', serve q afterDinner = Done tt w') \/
   (exists s w', serve q afterDinner = Blocked s w')).
Proof.
  intros q.
  split; [vm_compute; reflexivity|].
  split; [right; vm_compute; reflexivity|]. split; [lia|].
  apply (participants_requests_are_safe dinner afterDinner q);
    [vm_compute; reflexivity | right; vm_compute; reflexivity | cbn; lia].
Defined.

(** X7. After acknowledged requests that have all returned, and while
    there is room, a join returns with one participant more, unless two
    participants or more are at the table and the first or the last of
    them is stored as EATING: the join then sleeps on the semaphore of the
    first chopstick, holding the lock of creation, with the new chopstick
    created and the count unchanged. *)
Theorem join_waits_for_first_chopstick qs w :
  acknowledging qs freshWorld = true ->
  serveAll qs freshWorld = Done tt w ->
  numberPhilosophers (shm w) < MAX_PHILOSOPHERS ->
  let n := joined (shm w) in
  let busy := (2 <= n)%nat /\
              (stateAt (shm w) 0 = EATING \/ stateAt (shm w) (n - 1) = EATING) in
  (~ busy ->
   exists w', serve REQUEST_CREATE w = Done tt w' /\
              numberPhilosophers (shm w') = numberPhilosophers (shm w) + 1) /\
  (busy ->
   exists w', serve REQUEST_CREATE w = Blocked (SemUsage 0) w' /\
              philosopherCreationProcess (shm w') = 0 /\
              numberPhilosophers (shm w') = numberPhilosophers (shm w) /\
              philosophers (shm w') = philosophers (shm w) /\
              chopAt (shm w') n = mkChopstick (numberPhilosophers (shm w) + 1) 1).
Proof.
  intros Hack Hrun Hroom n busy.
  destruct (served_Balanced _ _ Hack Hrun) as [HW HB].
  destruct (served_AtRest _ _ Hrun) as [_ Hlock].
  pose proof (wired_count _ HW) as Hc.
  pose proof (wired_chopsticks _ HW) as Hcl.
  change (Z.to_nat MAX_PHILOSOPHERS) with 7%nat in Hcl.
  assert (Hn7 : (n < 7)%nat) by (unfold n, joined, MAX_PHILOSOPHERS in *; lia).
  (* the first chopstick is taken exactly when the first or the last
     participant is eating *)
  assert (Hfirst : (2 <= n)%nat ->
            (usageAt (shm w) 0 <= 0 <->
             stateAt (shm w) 0 = EATING \/ stateAt (shm w) (n - 1) = EATING)).
  { intros Hn2. destruct (bal_usage _ HB 0%nat ltac:(unfold n in *; lia)) as [Hu Hb].
    fold n in Hb. cbn [predOf Nat.eqb] in Hb.
    pose proof (eatsAt_bounds (shm w) 0). pose proof (eatsAt_bounds (shm w) (n - 1)).
    rewrite <- !eatsAt_EATING. lia. }
  split.
  - intros Hfree.
    destruct (createPhilosopher_returns w HW Hroom ltac:(lia)) as (sp & w' & Hdone).
    { intros Hn2. fold n in Hn2.
      destruct (Z_lt_le_dec 0 (usageAt (shm w) 0)) as [|Hle]; [done|].
      exfalso. apply Hfree. split; [done|]. by apply Hfirst. }
    exists w'. split; [cbn [serve]; by rewrite (run_bind _ _ _ _ _ Hdone)|].
    pose proof (createPhilosopher_Joined w HW) as HJ.
    apply (wp_done _ _ _ _ _ Hdone) in HJ. apply HJ.
  - intros [Hn2 Heat].
    destruct (createPhilosopher_sleeps w HW Hroom ltac:(lia) Hn2) as (w' & Hb & Hshm).
    { by apply Hfirst. }
    exists w'. split; [cbn [serve]; by apply run_blocked|].
    rewrite Hshm. seg. rewrite Hlock. repeat split.
    unfold chopAt. cbn [chopsticks]. apply list_lookup_total_insert_eq. fold n. lia.
Qed.

Lemma join_waits_for_first_chopstick_witness :
  let w := afterDinner in
  let n := joined (shm w) in
  let busy := (2 <= n)%nat /\
              (stateAt (shm w) 0 = EATING \/ stateAt (shm w) (n - 1) = EATING) in
  acknowledging dinner freshWorld = true /\
  serveAll dinner freshWorld = Done tt w /\
  numberPhilosophers (shm w) < MAX_PHILOSOPHERS /\
  (~ busy ->
   exists w', serve REQUEST_CREATE w = Done tt w' /\
              numberPhilosophers (shm w') = numberPhilosophers (shm w) + 1) /\
  (busy ->
   exists w', serve REQUEST_CREATE w = Blocked (SemUsage 0) w' /\
              philosopherCreationProcess (shm w') = 0 /\
              numberPhilosophers (shm w') = numberPhilosophers (shm w) /\
              philosophers (shm w') = philosophers (shm w) /\
              chopAt (shm w') n = mkChopstick (numberPhilosophers (shm w) + 1) 1).
Proof.
  intros w n busy.
  split; [vm_compute; reflexivity|]. split; [vm_compute; reflexivity|].
  split; [vm_compute; reflexivity|].
  apply (join_waits_for_first_chopstick dinner afterDinner); vm_compute; reflexivity.
Defined.

(** ** Requests in turn *)

Lemma fresh_Follows : Follows [] (shm freshWorld).
Proof.
  split; [apply fresh_Wired | reflexivity | done |].
  intros k Hk. vm_compute in Hk. lia.
Qed.

(** The slot of a participant is found by its identifier. *)
Lemma participant_is_found r k :
  Wired r -> (k < joined r)%nat ->
  getPhilosopherFromId (Z.of_nat k + 1) (philosophers r) = Some k.
Proof.
  intros HW Hk.
  pose proof (wired_count _ HW) as Hc.
  assert (Hk7 : (k < 7)%nat) by (unfold joined, MAX_PHILOSOPHERS in *; lia).
  apply (getPhilosopherFromId_first _ _ _ _ Hk7 (lookup_philAt _ _ HW Hk7)).
  - by destruct (wired_joined _ HW k Hk) as (-> & _).
  - intros j sp' Hj Hsp'. apply philAt_lookup in Hsp' as <-.
    destruct (wired_joined _ HW j ltac:(lia)) as (-> & _). lia.
Qed.

(** An update that returns writes the state it carries into the slot it
    finds, EATING when it carries HUNGRY, and leaves the states of the
    other slots. *)
Lemma updatePhilosopher_states p w k :
  getPhilosopherFromId (p_id p) (philosophers (shm w)) = Some k ->
  wp (updatePhilosopher p)
    (fun _ w' =>
       stateAt (shm w') k = match p_state p with HUNGRY => EATING | s => s end /\
       forall j, j <> k -> stateAt (shm w') j = stateAt (shm w) j) w.
Proof.
  intros Hfind. apply updatePhilosopher_effect; [congruence|].
  intros k' sp ev Hfind' Hsp. rewrite Hfind in Hfind'. injection Hfind' as <-.
  pose proof (lookup_lt_Some _ _ _ Hsp) as Hk.
  assert (Hgen : forall g cr b n cs nc q,
            stateAt (mkSharedResources g cr (<[k := set_base b sp]> (philosophers (shm w)))
                       n cs nc q) k = p_state b /\
            forall j, j <> k ->
              stateAt (mkSharedResources g cr (<[k := set_base b sp]> (philosophers (shm w)))
                         n cs nc q) j = stateAt (shm w) j).
  { intros. unfold stateAt, philAt. cbn [philosophers]. split.
    - by rewrite list_lookup_total_insert_eq.
    - intros j Hj. by rewrite list_lookup_total_insert_ne. }
  destruct (p_state p) eqn:Hst.
  - destruct (p_state (base sp)); cbn [shm]; unfold set_philosophers;
      try (intros l rt _ _ _ _); rewrite <- Hst; apply Hgen.
  - intros l rt _ _ _ _ _. cbn [shm]. apply (Hgen _ _ (mkPhilosopher (p_id p) EATING 0)).
  - cbn [shm]. unfold set_philosophers. rewrite <- Hst. apply Hgen.
Qed.

Lemma serve_Follows history q w :
  Follows history (shm w) -> in_turn history q = true ->
  wp (serve q) (fun _ w' => Follows (q :: history) (shm w')) w.
Proof.
  intros [HW Hj Hknown Hstate] Hturn. destruct q as [|p]; cbn [serve]; apply wp_bind.
  - (* a join *)
    eapply wp_mono; [|by apply createPhilosopher_Joined].
    intros sp w' HJ. apply wp_ret.
    destruct (Wired_Joined _ _ _ HW HJ) as [HW' Hj'].
    split; [done | cbn [creations]; lia | |].
    + intros id s Hlast. cbn [last_update creations] in *.
      specialize (Hknown id s Hlast). lia.
    + rewrite Hj'. intros k Hk. unfold stored_state. cbn [last_update].
      destruct (decide (k = joined (shm w))) as [->|Hne].
      * unfold stateAt. rewrite (jn_slot _ _ _ HJ), (jn_philosopher _ _ _ HJ). cbn.
        destruct (last_update (Z.of_nat (joined (shm w)) + 1) history) as [s|] eqn:E; [|done].
        apply Hknown in E. lia.
      * assert (Hk' : (k < joined (shm w))%nat) by lia.
        specialize (Hstate k Hk').
        destruct (jn_before _ _ _ HJ k Hk') as (Hp & _).
        unfold stateAt in *. rewrite Hp.
        destruct (decide (S k = joined (shm w))); exact Hstate.
  - (* an update *)
    cbn [in_turn] in Hturn.
    apply andb_true_iff in Hturn as [Hid Hlast].
    apply andb_true_iff in Hid as [Hid1 Hid2].
    apply Z.leb_le in Hid1, Hid2. rewrite <- Hj in Hid2.
    set (k := Z.to_nat (p_id p - 1)).
    assert (Hk : (k < joined (shm w))%nat) by (unfold k; lia).
    assert (Hidk : p_id p = Z.of_nat k + 1) by (unfold k; lia).
    pose proof (participant_is_found _ _ HW Hk) as Hfind. rewrite <- Hidk in Hfind.
    eapply wp_mono;
      [|apply wp_conj; [by apply updatePhilosopher_Wired | by apply (updatePhilosopher_states p w k)]].
    intros o w' [[HW' Hj'] [Hnew Hothers]]. apply wp_ret.
    split; [done | cbn [creations]; congruence | |].
    + intros id s. cbn [last_update creations].
      destruct (Z.eqb_spec (p_id p) id) as [<-|_]; [lia | apply Hknown].
    + rewrite Hj'. intros j Hjlt. unfold stored_state. cbn [last_update].
      destruct (Z.eqb_spec (p_id p) (Z.of_nat j + 1)) as [Heq|Hne].
      * assert (j = k) as -> by lia. rewrite Hnew. by destruct (p_state p).
      * rewrite Hothers by (intros ->; lia). by apply Hstate.
Qed.

(** A request in turn acknowledges. *)
Lemma in_turn_acknowledges history q r :
  Follows history r -> in_turn history q = true -> acknowledges q r = true.
Proof.
  intros [HW Hj Hknown Hstate] Hturn. destruct q as [|p]; [done|].
  cbn [in_turn] in Hturn. cbn [acknowledges].
  destruct (p_state p) eqn:Hst; try done.
  apply andb_true_iff in Hturn as [Hid Hlast].
  apply andb_true_iff in Hid as [Hid1 Hid2].
  apply Z.leb_le in Hid1, Hid2. rewrite <- Hj in Hid2.
  set (k := Z.to_nat (p_id p - 1)).
  assert (Hk : (k < joined r)%nat) by (unfold k; lia).
  assert (Hidk : p_id p = Z.of_nat k + 1) by (unfold k; lia).
  rewrite Hidk, (participant_is_found _ _ HW Hk).
  specialize (Hstate k Hk). rewrite <- Hidk in Hstate. unfold stored_state in Hstate.
  destruct (last_update (p_id p) history) as [[]|]; try done; by rewrite Hstate.
Qed.

Lemma disciplined_acknowledging qs :
  forall history w,
    Follows history (shm w) -> disciplined history qs = true ->
    acknowledging qs w = true.
Proof.
  induction qs as [|q qs IH]; intros history w HF Hd; [done|].
  cbn [disciplined] in Hd. apply andb_true_iff in Hd as [Hturn Hd].
  cbn [acknowledging]. rewrite (in_turn_acknowledges _ _ _ HF Hturn). cbn [andb].
  pose proof (serve_Follows history q w HF Hturn) as Hstep. unfold wp in Hstep.
  destruct (serve q w) as [[] w'| |]; [|done..].
  by apply (IH (q :: history)).
Qed.

Lemma disciplined_Follows qs :
  forall history w w',
    Follows history (shm w) -> disciplined history qs = true ->
    serveAll qs w = Done tt w' ->
    Follows (rev qs ++ history) (shm w').
Proof.
  induction qs as [|q qs IH]; intros history w w' HF Hd Hrun.
  - cbn in Hrun. injection Hrun as <-. done.
  - cbn [disciplined] in Hd. apply andb_true_iff in Hd as [Hturn Hd].
    pose proof (serve_Follows history q w HF Hturn) as Hstep. unfold wp in Hstep.
    cbn [serveAll] in Hrun. unfold mbind, M_bind in Hrun.
    destruct (serve q w) as [[] w1| |]; [|done..].
    cbn [rev]. rewrite <- app_assoc. cbn [app].
    by apply (IH (q :: history) w1).
Qed.

(** X8. When every request comes in turn -- an update names a participant
    that has joined, and EATING is sent only for a participant whose last
    update carried HUNGRY or EATING -- every request acknowledges, and once
    all have returned each participant is stored in the state of its last
    update, EATING in place of HUNGRY, and THINKING when it has sent
    none. *)
Theorem requests_in_turn_store_the_last_state qs w :
  disciplined [] qs = true ->
  serveAll qs freshWorld = Done tt w ->
  acknowledging qs freshWorld = true /\
  joined (shm w) = creations qs /\
  forall k, (k < joined (shm w))%nat ->
    stateAt (shm w) k = stored_state (Z.of_nat k + 1) (rev qs).
Proof.
  intros Hd Hrun.
  split; [by apply (disciplined_acknowledging qs [] _ fresh_Follows)|].
  pose proof (disciplined_Follows qs [] _ _ fresh_Follows Hd Hrun) as HF.
  rewrite app_nil_r in HF. destruct HF as [HW Hj _ Hstate].
  split; [|done].
  pose proof (served_Wired _ _ Hrun) as HS.
  tauto.
Qed.

Lemma requests_in_turn_store_the_last_state_witness :
  disciplined [] dinner = true /\
  serveAll dinner freshWorld = Done tt afterDinner /\
  acknowledging dinner freshWorld = true /\
  joined (shm afterDinner) = creations dinner /\
  forall k, (k < joined (shm afterDinner))%nat ->
    stateAt (shm afterDinner) k = stored_state (Z.of_nat k + 1) (rev dinner).
Proof.
  split; [vm_compute; reflexivity|]. split; [vm_compute; reflexivity|].
  apply (requests_in_turn_store_the_last_state dinner afterDinner); vm_compute; reflexivity.
Defined.

(** ** Calls and traces *)

Lemma prepend_nil {A} (o : Outcome A) :
  prepend [] o = match o with
                 | Done a w => Done a (mkWorld (shm w) (events w))
                 | Blocked s w => Blocked s (mkWorld (shm w) (events w))
                 | Fault w => Fault (mkWorld (shm w) (events w))
                 end.
Proof. by destruct o. Qed.

Lemma prepend_prepend {A} ev1 ev2 (o : Outcome A) :
  prepend ev1 (prepend ev2 o) = prepend (ev1 ++ ev2) o.
Proof. destruct o; cbn; by rewrite app_assoc. Qed.

Lemma Local_ret {A} (a : A) : Local (mret a : M A).
Proof. intros w. cbn. rewrite app_nil_r. by destruct w. Qed.

Lemma Local_bind {A B} (m : M A) (f : A -> M B) :
  Local m -> (forall a, Local (f a)) -> Local (m ≫= f).
Proof.
  intros Hm Hf w. unfold mbind, M_bind. rewrite (Hm w).
  destruct (m (mkWorld (shm w) [])) as [a w1|s w1|w1]; cbn; [|done..].
  rewrite (Hf a (mkWorld (shm w1) (events w ++ events w1))). cbn.
  rewrite (Hf a w1). by rewrite prepend_prepend.
Qed.

Lemma Local_fault {A} : Local (fault : M A).
Proof. intros w. cbn. rewrite app_nil_r. by destruct w. Qed.

Lemma Local_get_shm : Local get_shm.
Proof. intros w. cbn. rewrite app_nil_r. by destruct w. Qed.

Lemma Local_modify_shm f : Local (modify_shm f).
Proof. intros w. cbn. by rewrite app_nil_r. Qed.

Lemma Local_emit e : Local (emit e).
Proof. intros w. done. Qed.

Lemma Local_sem_wait s : Local (sem_wait s).
Proof.
  intros w. unfold sem_wait. cbn [shm events].
  destruct (sem_value s (shm w)); [destruct (0 <? z)|]; cbn; rewrite ?app_nil_r; by destruct w.
Qed.

Lemma Local_sem_trywait_again s : Local (sem_trywait_again s).
Proof.
  intros w. unfold sem_trywait_again. cbn [shm events].
  destruct (sem_value s (shm w)); [destruct (0 <? z)|]; cbn; rewrite ?app_nil_r; by destruct w.
Qed.

Lemma Local_sem_post s : Local (sem_post s).
Proof.
  intros w. unfold sem_post. cbn [shm events].
  destruct (sem_value s (shm w)); cbn; rewrite ?app_nil_r; by destruct w.
Qed.

Lemma Local_sem_getvalue s : Local (sem_getvalue s).
Proof.
  intros w. unfold sem_getvalue. cbn [shm events].
  destruct (sem_value s (shm w)); cbn; rewrite ?app_nil_r; by destruct w.
Qed.

Lemma Local_index i : Local (index i).
Proof. unfold index. destruct (_ && _); [apply Local_ret | apply Local_fault]. Qed.

Lemma Local_deref p : Local (deref p).
Proof. destruct p; [apply Local_ret | apply Local_fault]. Qed.

Create HintDb local discriminated.
#[local] Hint Resolve Local_ret Local_fault Local_get_shm Local_modify_shm Local_emit
  Local_sem_wait Local_sem_trywait_again Local_sem_post Local_sem_getvalue
  Local_index Local_deref : local.

(** A sequence of statements is local when each statement is. *)
Ltac local :=
  repeat first
    [ apply Local_bind; [|intros ?]
    | progress auto with local
    | match goal with
      | |- Local (match ?x with _ => _ end) => destruct x
      end ].

Lemma Local_read_philosopher i : Local (read_philosopher i).
Proof. unfold read_philosopher. local. Qed.

Lemma Local_write_philosopher i f : Local (write_philosopher i f).
Proof. unfold write_philosopher. local. Qed.

Lemma Local_read_chopstick i : Local (read_chopstick i).
Proof. unfold read_chopstick. local. Qed.

Lemma Local_write_chopstick i c : Local (write_chopstick i c).
Proof. unfold write_chopstick. local. Qed.

Lemma Local_follow field slot : Local (follow field slot).
Proof. unfold follow. local. Qed.

Lemma Local_logServerState format args : Local (logServerState format args).
Proof. apply Local_emit. Qed.

Lemma Local_logClientInfo message : Local (logClientInfo message).
Proof. apply Local_emit. Qed.

Lemma Local_logClientInfo_record record : Local (logClientInfo_record record).
Proof. apply Local_emit. Qed.

Lemma Local_logClientAction p : Local (logClientAction p).
Proof. unfold logClientAction, logClientInfo_record. local. Qed.

#[local] Hint Resolve Local_read_philosopher Local_write_philosopher Local_read_chopstick
  Local_write_chopstick Local_follow Local_logServerState Local_logClientInfo
  Local_logClientInfo_record Local_logClientAction : local.

Lemma Local_acquire s waiting : Local waiting -> Local (acquire s waiting).
Proof. intros H. unfold acquire. local. Qed.

Lemma Local_overwrite_base slot p : Local (overwrite_base slot p).
Proof. unfold overwrite_base. local. Qed.

Lemma Local_createChopstick id : Local (createChopstick id).
Proof. unfold createChopstick. local. Qed.

#[local] Hint Resolve Local_overwrite_base Local_createChopstick : local.

Lemma Local_definePhilosopherRightChopstick ph :
  Local (definePhilosopherRightChopstick ph).
Proof. unfold definePhilosopherRightChopstick. local. Qed.

#[local] Hint Resolve Local_definePhilosopherRightChopstick : local.

Lemma Local_createPhilosopher : Local createPhilosopher.
Proof. unfold createPhilosopher. local. Qed.

Lemma Local_updatePhilosopher p : Local (updatePhilosopher p).
Proof.
  unfold updatePhilosopher. local.
  all: try (apply Local_acquire; local).
Qed.

Lemma Local_serve q : Local (serve q).
Proof.
  destruct q; cbn [serve]; (apply Local_bind; [|intros; apply Local_ret]);
    [apply Local_createPhilosopher | apply Local_updatePhilosopher].
Qed.

Lemma Local_serveAll qs : Local (serveAll qs).
Proof.
  induction qs as [|q qs IH]; cbn [serveAll]; [apply Local_ret|].
  apply Local_bind; [apply Local_serve | done].
Qed.

Lemma prepend_agree {A} ev1 ev2 (o : Outcome A) : agree (prepend ev1 o) (prepend ev2 o).
Proof. by destruct o. Qed.

(** What a local call does depends on the segment only. *)
Lemma Local_agree {A} (m : M A) w1 w2 :
  Local m -> shm w1 = shm w2 -> agree (m w1) (m w2).
Proof.
  intros Hm Hshm. rewrite (Hm w1), (Hm w2), Hshm. apply prepend_agree.
Qed.

(** A local call only adds to the trace. *)
Lemma Local_extends {A} (m : M A) w :
  Local m -> exists added, events (world_of (m w)) = (events w ++ added)%list.
Proof.
  intros Hm. rewrite (Hm w).
  destruct (m (mkWorld (shm w) [])) as [a w1|s w1|w1]; cbn; eauto.
Qed.

(** ** The sockets *)

Section SocketLemmas.
Context {L In Out : Type}.
Implicit Types (st : Process L In Out).

Lemma trySocketRead_loop_first attemptsLeft st failures received later :
  pr_incoming st = (failures ++ received :: later)%list ->
  Forall (fun r => fst r = -1) failures -> fst received <> -1 ->
  (length failures <= attemptsLeft)%nat ->
  trySocketRead_loop attemptsLeft st = Returns received (set_incoming later st).
Proof.
  revert attemptsLeft st.
  induction failures as [|f failures IH]; intros k st Hin Hf Hr Hlen.
  - destruct k; cbn; unfold mbind, Proc_bind, sys_read; rewrite Hin; cbn;
      destruct (Z.eqb_spec (fst received) (-1)); done.
  - apply Forall_cons in Hf as [Hf1 Hf]. cbn [length] in Hlen.
    destruct k as [|k]; [lia|].
    cbn. unfold mbind, Proc_bind, sys_read. rewrite Hin. cbn.
    rewrite Hf1. cbn.
    erewrite IH; [|cbn; reflexivity|done|done|lia]. done.
Qed.

Lemma trySocketRead_loop_last attemptsLeft st failures last later :
  pr_incoming st = (failures ++ last :: later)%list ->
  Forall (fun r => fst r = -1) failures -> fst last = -1 ->
  length failures = attemptsLeft ->
  trySocketRead_loop attemptsLeft st = Returns last (set_incoming later st).
Proof.
  revert attemptsLeft st.
  induction failures as [|f failures IH]; intros k st Hin Hf Hr Hlen.
  - cbn in Hlen. subst k. cbn. unfold mbind, Proc_bind, sys_read. rewrite Hin. cbn.
    rewrite Hr. done.
  - apply Forall_cons in Hf as [Hf1 Hf]. cbn [length] in Hlen.
    destruct k as [|k]; [lia|].
    cbn. unfold mbind, Proc_bind, sys_read. rewrite Hin. cbn.
    rewrite Hf1. cbn.
    erewrite IH; [|cbn; reflexivity|done|done|lia]. done.
Qed.

Lemma trySocketRead_loop_starved attemptsLeft st :
  Forall (fun r => fst r = -1) (pr_incoming st) ->
  (length (pr_incoming st) <= attemptsLeft)%nat ->
  trySocketRead_loop attemptsLeft st = Ends Reading (set_incoming [] st).
Proof.
  revert attemptsLeft.
  destruct st as [w incoming out acts]. cbn [pr_incoming].
  induction incoming as [|f incoming IH]; intros k Hf Hlen.
  - destruct k; done.
  - apply Forall_cons in Hf as [Hf1 Hf]. cbn [length] in Hlen.
    destruct k as [|k]; [lia|].
    cbn. unfold mbind, Proc_bind, sys_read. cbn. rewrite Hf1. cbn.
    exact (IH k Hf ltac:(lia)).
Qed.

Lemma trySocketRead_attempts st failures :
  Forall (fun r => fst r = -1) failures ->
  (forall received later,
     pr_incoming st = (failures ++ received :: later)%list ->
     (length failures < MAX_ATTEMPTS)%nat -> fst received <> -1 ->
     trySocketRead st = Returns received (set_incoming later st)) /\
  (forall later,
     pr_incoming st = (failures ++ later)%list ->
     length failures = MAX_ATTEMPTS ->
     exists last, trySocketRead st = Returns last (set_incoming later st) /\ fst last = -1) /\
  (pr_incoming st = failures ->
   (length failures < MAX_ATTEMPTS)%nat ->
   trySocketRead st = Ends Reading (set_incoming [] st)).
Proof.
  intros Hf. unfold trySocketRead, MAX_ATTEMPTS. split; [|split].
  - intros received later Hin Hlen Hr.
    apply (trySocketRead_loop_first _ _ failures); [done..|]. cbn. lia.
  - intros later Hin Hlen.
    destruct (exists_last (l := failures)) as (init & last & ->).
    { intros ->. done. }
    apply Forall_app in Hf as [Hinit Hlast]. apply Forall_inv in Hlast. cbn beta in Hlast.
    rewrite length_app in Hlen. cbn in Hlen.
    exists last. split; [|done].
    apply (trySocketRead_loop_last _ _ init); [|done..|lia].
    by rewrite Hin, <- app_assoc.
  - intros Hin Hlen. apply trySocketRead_loop_starved; rewrite Hin; [done|]. cbn. lia.
Qed.

Lemma wrote_nil (data : Out) st :
  wrote data [] (pr_outgoing st) st = st.
Proof. destruct st. unfold wrote. cbn. by rewrite app_nil_r. Qed.

Lemma trySocketWrite_loop_first attemptsLeft data st failures result later :
  pr_outgoing st = (failures ++ result :: later)%list ->
  Forall (fun r => r = -1) failures -> result <> -1 ->
  (length failures <= attemptsLeft)%nat ->
  trySocketWrite_loop attemptsLeft data st =
  Returns result (wrote data (failures ++ [result])%list later st).
Proof.
  revert attemptsLeft st.
  induction failures as [|f failures IH]; intros k st Hout Hf Hr Hlen.
  - destruct k; cbn; unfold mbind, Proc_bind, sys_write; rewrite Hout; cbn;
      destruct (Z.eqb_spec result (-1)); done.
  - apply Forall_cons in Hf as [-> Hf]. cbn [length] in Hlen.
    destruct k as [|k]; [lia|].
    cbn [trySocketWrite_loop]. unfold mbind, Proc_bind, sys_write. rewrite Hout. cbn.
    erewrite IH; [|cbn; reflexivity|done|done|lia]. unfold wrote. cbn.
    by rewrite <- app_assoc.
Qed.

Lemma trySocketWrite_loop_last attemptsLeft data st failures later :
  pr_outgoing st = (failures ++ -1 :: later)%list ->
  Forall (fun r => r = -1) failures ->
  length failures = attemptsLeft ->
  trySocketWrite_loop attemptsLeft data st =
  Returns (-1) (wrote data (failures ++ [-1])%list later st).
Proof.
  revert attemptsLeft st.
  induction failures as [|f failures IH]; intros k st Hout Hf Hlen.
  - cbn in Hlen. subst k. cbn. unfold mbind, Proc_bind, sys_write. rewrite Hout. done.
  - apply Forall_cons in Hf as [-> Hf]. cbn [length] in Hlen.
    destruct k as [|k]; [lia|].
    cbn [trySocketWrite_loop]. unfold mbind, Proc_bind, sys_write. rewrite Hout. cbn.
    erewrite IH; [|cbn; reflexivity|done|lia]. unfold wrote. cbn.
    by rewrite <- app_assoc.
Qed.

Lemma trySocketWrite_attempts data st failures :
  Forall (fun r => r = -1) failures ->
  (forall result later,
     pr_outgoing st = (failures ++ result :: later)%list ->
     (length failures < MAX_ATTEMPTS)%nat -> result <> -1 ->
     trySocketWrite data st =
     Returns result (wrote data (failures ++ [result])%list later st)) /\
  (forall later,
     pr_outgoing st = (failures ++ later)%list ->
     length failures = MAX_ATTEMPTS ->
     trySocketWrite data st = Returns (-1) (wrote data failures later st)).
Proof.
  intros Hf. unfold trySocketWrite, MAX_ATTEMPTS. split.
  - intros result later Hout Hlen Hr.
    apply trySocketWrite_loop_first; [done..|]. cbn. lia.
  - intros later Hout Hlen.
    destruct (exists_last (l := failures)) as (init & last & ->).
    { intros ->. done. }
    apply Forall_app in Hf as [Hinit Hlast]. apply Forall_inv in Hlast. cbn beta in Hlast. subst last.
    rewrite length_app in Hlen. cbn in Hlen.
    apply (trySocketWrite_loop_last _ _ _ init); [|done|lia].
    by rewrite Hout, <- app_assoc.
Qed.

End SocketLemmas.

(** X9. [trySocketRead] calls [read] again as long as it returns -1, five
    times at most: it returns the first count other than -1 with what the
    buffer then holds, and -1 after five failures. It sleeps in [read]
    when nothing is left to come. A count of 0 is returned like any
    other. *)
Theorem trySocketRead_retries {L In Out} (st : Process L In Out) failures :
  Forall (fun r => fst r = -1) failures ->
  (forall received later,
     pr_incoming st = (failures ++ received :: later)%list ->
     (length failures < MAX_ATTEMPTS)%nat -> fst received <> -1 ->
     trySocketRead st = Returns received (set_incoming later st)) /\
  (forall later,
     pr_incoming st = (failures ++ later)%list ->
     length failures = MAX_ATTEMPTS ->
     exists last, trySocketRead st = Returns last (set_incoming later st) /\ fst last = -1) /\
  (pr_incoming st = failures ->
   (length failures < MAX_ATTEMPTS)%nat ->
   trySocketRead st = Ends Reading (set_incoming [] st)).
Proof. apply trySocketRead_attempts. Qed.

Lemma trySocketRead_retries_witness :
  let st : Service :=
    mkProcess freshWorld [(-1, Wire.createRequest); (16, Wire.createRequest)] [] [] in
  let failures := [(-1, Wire.createRequest)] in
  Forall (fun r => fst r = -1) failures /\
  trySocketRead st = Returns (16, Wire.createRequest) (set_incoming [] st).
Proof.
  intros st failures.
  assert (Hf : Forall (fun r => fst r = -1) failures) by (repeat constructor).
  split; [exact Hf|].
  destruct (trySocketRead_retries st failures Hf) as [Hfirst _].
  apply Hfirst; [reflexivity | unfold MAX_ATTEMPTS; cbn; lia | cbn; lia].
Defined.

(** X10. [trySocketWrite] calls [write] again, with the same structure,
    as long as it returns -1, five times at most: it returns the first
    count other than -1, and -1 after five failures. *)
Theorem trySocketWrite_retries {L In Out} (data : Out) (st : Process L In Out) failures :
  Forall (fun r => r = -1) failures ->
  (forall result later,
     pr_outgoing st = (failures ++ result :: later)%list ->
     (length failures < MAX_ATTEMPTS)%nat -> result <> -1 ->
     trySocketWrite data st =
     Returns result (wrote data (failures ++ [result])%list later st)) /\
  (forall later,
     pr_outgoing st = (failures ++ later)%list ->
     length failures = MAX_ATTEMPTS ->
     trySocketWrite data st = Returns (-1) (wrote data failures later st)).
Proof. apply trySocketWrite_attempts. Qed.

Lemma trySocketWrite_retries_witness :
  let st : Service := mkProcess freshWorld [] [-1; -1; 16] [] in
  let data := Wire.createResponse (mkPhilosopher 1 THINKING 0) in
  Forall (fun r => r = -1) [-1; -1] /\
  trySocketWrite data st = Returns 16 (wrote data [-1; -1; 16] [] st).
Proof.
  intros st data.
  assert (Hf : Forall (fun r => r = -1) [-1; -1]) by (repeat constructor).
  split; [exact Hf|].
  destruct (trySocketWrite_retries data st [-1; -1] Hf) as [Hfirst _].
  apply (Hfirst 16 []); [reflexivity | unfold MAX_ATTEMPTS; cbn; lia | lia].
Defined.

(** ** The requests of one client *)

Lemma stop_on_failure_passes count error st :
  transferred count -> stop_on_failure count error st = Returns tt st.
Proof.
  intros [H1 H0]. unfold stop_on_failure.
  destruct (Z.eqb_spec count (-1)); [done|]. destruct (Z.eqb_spec count 0); [done|].
  done.
Qed.

Lemma stop_on_failure_stops count error st :
  count = -1 \/ count = 0 ->
  exists record,
    stop_on_failure count error st =
    Ends (Exited EXIT_FAILURE) (acted (ActKillParent SIGINT) (logged record st)).
Proof.
  intros [->| ->]; eexists; reflexivity.
Qed.

Lemma proc_assoc {A B C} (m : Serving A) (f : A -> Serving B) (g : B -> Serving C) st :
  ((m ≫= f) ≫= g) st = (m ≫= (fun a => f a ≫= g)) st.
Proof. unfold mbind, Proc_bind. by destruct (m st). Qed.

Lemma proc_bind_ext {A B} (m : Serving A) (f g : A -> Serving B) st :
  (forall a st', f a st' = g a st') -> (m ≫= f) st = (m ≫= g) st.
Proof. intros H. unfold mbind, Proc_bind. destruct (m st); [apply H | done]. Qed.

Lemma manageCreateRequest_eq request st :
  manageCreateRequest request st =
  (created ← call createPhilosopher;
   bytesSent ← trySocketWrite (Wire.createResponse (base created));
   stop_on_failure bytesSent
     "Erreur lors d'une tentative d'envoi d'une réponse de création.\n";;
   call (logClientInfo "Philosophe connecté et ajouté à la table !\n")) st.
Proof.
  unfold manageCreateRequest, stop_on_failure.
  apply proc_bind_ext; intros created st1.
  apply proc_bind_ext; intros bytesSent st2.
  symmetry. apply proc_assoc.
Qed.

Lemma manageUpdateRequest_eq request st :
  manageUpdateRequest request st =
  (serverPhilosopher ← call (updatePhilosopher (Wire.rq_philosopher request));
   match serverPhilosopher with
   | None => mret tt
   | Some slot =>
       stored ← call (read_philosopher slot);
       bytesSent ← trySocketWrite (Wire.updateResponse (base stored));
       stop_on_failure bytesSent
         "Erreur lors d'une tentative d'envoi d'une réponse pour autoriser le philosophe a manger.\n"
   end) st.
Proof. reflexivity. Qed.

Lemma clientProcess_loop_eq iterations st :
  clientProcess_loop (S iterations) st =
  (received ← trySocketRead;
   stop_on_failure (fst received) "Erreur à la lecture du socket\n";;
   match Wire.rq_type (snd received) with
   | Wire.REQUEST_CREATE => manageCreateRequest (snd received)
   | Wire.REQUEST_UPDATE => manageUpdateRequest (snd received)
   end;;
   clientProcess_loop iterations) st.
Proof.
  cbn [clientProcess_loop]. unfold stop_on_failure.
  apply proc_bind_ext; intros received st1.
  symmetry. apply proc_assoc.
Qed.

Lemma proc_bind {A B} (m : Serving A) (f : A -> Serving B) st a st' :
  m st = Returns a st' -> (m ≫= f) st = f a st'.
Proof. unfold mbind, Proc_bind. by intros ->. Qed.

Lemma proc_ends {A B} (m : Serving A) (f : A -> Serving B) st e st' :
  m st = Ends e st' -> (m ≫= f) st = Ends e st'.
Proof. unfold mbind, Proc_bind. by intros ->. Qed.

Lemma call_done {A} (m : M A) st a w :
  m (pr_local st) = Done a w -> call m st = Returns a (set_local w st).
Proof. unfold call. by intros ->. Qed.

Lemma call_blocked {A} (m : M A) st s w :
  m (pr_local st) = Blocked s w -> call m st = Ends (Asleep s) (set_local w st).
Proof. unfold call. by intros ->. Qed.

Lemma call_fault {A} (m : M A) st w :
  m (pr_local st) = Fault w -> call m st = Ends Crashed (set_local w st).
Proof. unfold call. by intros ->. Qed.

(** The participant a join returns. *)
Lemma createPhilosopher_base w sp w1 :
  Wired (shm w) -> createPhilosopher w = Done sp w1 ->
  base sp = mkPhilosopher (numberPhilosophers (shm w) + 1) THINKING 0 /\
  numberPhilosophers (shm w1) = numberPhilosophers (shm w) + 1.
Proof.
  intros HW Hdone.
  pose proof (wp_done _ _ _ _ _ Hdone (createPhilosopher_Joined w HW)) as HJ.
  rewrite (jn_philosopher _ _ _ HJ). split; [done | apply HJ].
Qed.

(** X11. [manageCreateRequest]. The response to a join that has returned
    is of the type RESPONSE_CREATE and carries the new identifier, the
    state THINKING and the timer 0. When [write] takes it, the function
    returns after one record for the client. When [write] returns 0, or -1
    five times, the process sends SIGINT to its parent and exits with
    EXIT_FAILURE, and the participant stays at the table. *)
Theorem join_is_answered st request sp w1 :
  Wired (shm (pr_local st)) ->
  createPhilosopher (pr_local st) = Done sp w1 ->
  let response :=
    Wire.mkResponse Wire.RESPONSE_CREATE
      (mkPhilosopher (numberPhilosophers (shm (pr_local st)) + 1) THINKING 0) in
  (forall failures count later,
     pr_outgoing st = (failures ++ count :: later)%list ->
     Forall (fun r => r = -1) failures -> (length failures < MAX_ATTEMPTS)%nat ->
     transferred count ->
     exists record,
       manageCreateRequest request st =
       Returns tt (logged record (wrote response (failures ++ [count]) later (set_local w1 st)))) /\
  (forall failures count later,
     pr_outgoing st = (failures ++ count :: later)%list ->
     Forall (fun r => r = -1) failures ->
     ((length failures < MAX_ATTEMPTS)%nat /\ count = 0) \/
     (S (length failures) = MAX_ATTEMPTS /\ count = -1) ->
     exists record,
       manageCreateRequest request st =
       Ends (Exited EXIT_FAILURE)
         (acted (ActKillParent SIGINT)
            (logged record (wrote response (failures ++ [count]) later (set_local w1 st)))) /\
       numberPhilosophers (shm w1) = numberPhilosophers (shm (pr_local st)) + 1).
Proof.
  intros HW Hdone response.
  destruct (createPhilosopher_base _ _ _ HW Hdone) as [Hbase Hcount].
  assert (Hresp : Wire.createResponse (base sp) = response) by (by rewrite Hbase).
  split.
  - intros failures count later Hout Hf Hlen Hok.
    eexists. rewrite manageCreateRequest_eq.
    rewrite (proc_bind _ _ _ _ _ (call_done _ _ _ _ Hdone)). rewrite Hresp.
    destruct (trySocketWrite_attempts response (set_local w1 st) failures Hf) as [Hfirst _].
    rewrite (proc_bind _ _ _ _ _ (Hfirst count later Hout Hlen (proj1 Hok))).
    rewrite (proc_bind _ _ _ _ _ (stop_on_failure_passes _ _ _ Hok)).
    reflexivity.
  - intros failures count later Hout Hf Hcase.
    rewrite manageCreateRequest_eq.
    rewrite (proc_bind _ _ _ _ _ (call_done _ _ _ _ Hdone)). rewrite Hresp.
    assert (Hwrite : trySocketWrite response (set_local w1 st) =
                     Returns count (wrote response (failures ++ [count]) later (set_local w1 st))).
    { destruct Hcase as [[Hlen ->]|[Hlen ->]].
      - destruct (trySocketWrite_attempts response (set_local w1 st) failures Hf) as [Hfirst _].
        by apply Hfirst.
      - destruct (trySocketWrite_attempts response (set_local w1 st) (failures ++ [-1]))
          as [_ Hall].
        { apply Forall_app. split; [done|]. by apply Forall_singleton. }
        apply Hall; [cbn; by rewrite Hout, <- app_assoc|].
        rewrite length_app. cbn. lia. }
    rewrite (proc_bind _ _ _ _ _ Hwrite).
    destruct (stop_on_failure_stops count
                "Erreur lors d'une tentative d'envoi d'une réponse de création.\n"
                (wrote response (failures ++ [count]) later (set_local w1 st)))
      as [record Hstop].
    { destruct Hcase as [[_ ->]|[_ ->]]; auto. }
    exists record. split; [|done].
    by rewrite (proc_ends _ _ _ _ _ Hstop).
Qed.

Lemma join_is_answered_witness :
  let st : Service := mkProcess freshWorld [] [16] [] in
  let sp := mkServerPhilosopher (mkPhilosopher 1 THINKING 0) (Some 0%nat) None in
  let w1 := world_of (createPhilosopher freshWorld) in
  let response := Wire.mkResponse Wire.RESPONSE_CREATE (mkPhilosopher 1 THINKING 0) in
  Wired (shm (pr_local st)) /\
  createPhilosopher (pr_local st) = Done sp w1 /\
  exists record,
    manageCreateRequest Wire.createRequest st =
    Returns tt (logged record (wrote response [16] [] (set_local w1 st))).
Proof.
  intros st sp w1 response.
  assert (H1 : createPhilosopher (pr_local st) = Done sp w1) by (vm_compute; reflexivity).
  split; [exact fresh_Wired|]. split; [exact H1|].
  destruct (join_is_answered st Wire.createRequest sp w1 fresh_Wired H1) as [Hsent _].
  apply (Hsent [] 16 []);
    [reflexivity | constructor | unfold MAX_ATTEMPTS; cbn; lia | unfold transferred; lia].
Defined.

(** What [updatePhilosopher] returns: the address of a slot for a HUNGRY
    request it has granted, the slot then holding EATING and the timer 0
    under the identifier of the request; NULL otherwise. *)
Lemma updatePhilosopher_result p w o w1 :
  updatePhilosopher p w = Done o w1 ->
  match o with
  | None =>
      p_state p <> HUNGRY \/ getPhilosopherFromId (p_id p) (philosophers (shm w)) = None
  | Some k =>
      p_state p = HUNGRY /\
      getPhilosopherFromId (p_id p) (philosophers (shm w)) = Some k /\
      exists sp, philosophers (shm w1) !! k = Some sp /\
                 base sp = mkPhilosopher (p_id p) EATING 0
  end.
Proof.
  intros Hdone.
  assert (H : wp (updatePhilosopher p)
            (fun o w1 =>
               match o with
               | None =>
                   p_state p <> HUNGRY \/
                   getPhilosopherFromId (p_id p) (philosophers (shm w)) = None
               | Some k =>
                   p_state p = HUNGRY /\
                   getPhilosopherFromId (p_id p) (philosophers (shm w)) = Some k /\
                   exists sp, philosophers (shm w1) !! k = Some sp /\
                              base sp = mkPhilosopher (p_id p) EATING 0
               end) w); [|exact (wp_done _ _ _ _ _ Hdone H)].
  apply updatePhilosopher_effect.
  - intros Hnone ev. by right.
  - intros k sp ev Hfind Hsp.
    destruct (p_state p) eqn:Hst.
    + destruct (p_state (base sp)); [by left..|]. intros. by left.
    + intros l rt _ _ _ _ _. split; [done|]. split; [done|].
      eexists. split;
        [cbn [shm philosophers]; apply list_lookup_insert_eq; by eapply lookup_lt_Some|].
      reflexivity.
    + by left.
Qed.

Lemma manageUpdateRequest_answers st request :
  let p := Wire.rq_philosopher request in
  let response := Wire.mkResponse Wire.RESPONSE_UPDATE (mkPhilosopher (p_id p) EATING 0) in
  (forall k w1 failures count later,
     updatePhilosopher p (pr_local st) = Done (Some k) w1 ->
     pr_outgoing st = (failures ++ count :: later)%list ->
     Forall (fun r => r = -1) failures -> (length failures < MAX_ATTEMPTS)%nat ->
     transferred count ->
     p_state p = HUNGRY /\
     manageUpdateRequest request st =
     Returns tt (wrote response (failures ++ [count]) later (set_local w1 st))) /\
  ((forall k w1, updatePhilosopher p (pr_local st) <> Done (Some k) w1) ->
   manageUpdateRequest request st = call (updatePhilosopher p;; mret tt) st /\
   pr_actions (process_of (manageUpdateRequest request st)) = pr_actions st /\
   pr_outgoing (process_of (manageUpdateRequest request st)) = pr_outgoing st) /\
  (p_state p <> HUNGRY \/ getPhilosopherFromId (p_id p) (philosophers (shm (pr_local st))) = None ->
   forall k w1, updatePhilosopher p (pr_local st) <> Done (Some k) w1).
Proof.
  intros p response. split; [|split].
  - intros k w1 failures count later Hdone Hout Hf Hlen Hok.
    destruct (updatePhilosopher_result _ _ _ _ Hdone) as (Hst & _ & sp & Hsp & Hbase).
    split; [done|].
    rewrite manageUpdateRequest_eq.
    rewrite (proc_bind _ _ _ _ _ (call_done _ _ _ _ Hdone)).
    erewrite proc_bind by (apply call_done; by apply run_read_philosopher).
    rewrite Hbase. fold response.
    destruct (trySocketWrite_attempts response (set_local w1 (set_local w1 st)) failures Hf)
      as [Hfirst _].
    rewrite (proc_bind _ _ _ _ _ (Hfirst count later Hout Hlen (proj1 Hok))).
    by rewrite stop_on_failure_passes.
  - intros Hnot.
    assert (Heq : manageUpdateRequest request st = call (updatePhilosopher p;; mret tt) st).
    { rewrite manageUpdateRequest_eq.
      unfold mbind at 1, Proc_bind, call, mbind, M_bind. fold p.
      destruct (updatePhilosopher p (pr_local st)) as [[k|] w1| |] eqn:E; try done.
      by destruct (Hnot k w1). }
    split; [done|]. rewrite Heq. unfold call.
    by destruct ((updatePhilosopher p;; mret tt) (pr_local st)).
  - intros Hcase k w1 Hdone.
    destruct (updatePhilosopher_result _ _ _ _ Hdone) as (Hst & Hfind & _).
    destruct Hcase; congruence.
Qed.

(** X12. [manageUpdateRequest] answers a HUNGRY update that has been
    granted, and nothing else: the response is of the type RESPONSE_UPDATE
    and carries the identifier of the request, the state EATING and the
    timer 0. For any other update, and for an identifier that is not
    found, the function writes nothing on the socket. *)
Theorem update_is_answered_on_grant st request :
  let p := Wire.rq_philosopher request in
  let response := Wire.mkResponse Wire.RESPONSE_UPDATE (mkPhilosopher (p_id p) EATING 0) in
  (forall k w1 failures count later,
     updatePhilosopher p (pr_local st) = Done (Some k) w1 ->
     pr_outgoing st = (failures ++ count :: later)%list ->
     Forall (fun r => r = -1) failures -> (length failures < MAX_ATTEMPTS)%nat ->
     transferred count ->
     p_state p = HUNGRY /\
     manageUpdateRequest request st =
     Returns tt (wrote response (failures ++ [count]) later (set_local w1 st))) /\
  ((forall k w1, updatePhilosopher p (pr_local st) <> Done (Some k) w1) ->
   manageUpdateRequest request st = call (updatePhilosopher p;; mret tt) st /\
   pr_actions (process_of (manageUpdateRequest request st)) = pr_actions st /\
   pr_outgoing (process_of (manageUpdateRequest request st)) = pr_outgoing st) /\
  (p_state p <> HUNGRY \/ getPhilosopherFromId (p_id p) (philosophers (shm (pr_local st))) = None ->
   forall k w1, updatePhilosopher p (pr_local st) <> Done (Some k) w1).
Proof. apply manageUpdateRequest_answers. Qed.

(** ** The loop of [clientProcess] *)

(** One request, read whole, on a socket that takes the response. *)
Lemma handle_request st request w :
  shm (pr_local st) = shm w ->
  Forall transferred (pr_outgoing st) ->
  (1 <= length (pr_outgoing st))%nat ->
  let handler :=
    match Wire.rq_type request with
    | Wire.REQUEST_CREATE => manageCreateRequest request
    | Wire.REQUEST_UPDATE => manageUpdateRequest request
    end in
  match serve (dispatch request) w with
  | Done _ w' =>
      exists st' sent,
        handler st = Returns tt st' /\ shm (pr_local st') = shm w' /\
        pr_incoming st' = pr_incoming st /\
        pr_outgoing st = (sent ++ pr_outgoing st')%list /\ (length sent <= 1)%nat
  | Blocked s w' =>
      exists st', handler st = Ends (Asleep s) st' /\ shm (pr_local st') = shm w'
  | Fault w' =>
      exists st', handler st = Ends Crashed st' /\ shm (pr_local st') = shm w'
  end.
Proof.
  intros Hshm Hout Hlen handler.
  destruct (pr_outgoing st) as [|count later] eqn:Eout; [cbn in Hlen; lia|].
  apply Forall_cons in Hout as [Hok Hlater].
  unfold dispatch, handler. destruct (Wire.rq_type request); cbn [serve].
  - (* a join *)
    pose proof (Local_agree createPhilosopher _ _ Local_createPhilosopher Hshm) as Hag.
    unfold mbind at 1, M_bind.
    destruct (createPhilosopher w) as [sp' w'|s w'|w'] eqn:Ew;
      destruct (createPhilosopher (pr_local st)) as [sp w1|s1 w1|w1] eqn:Est;
      cbn in Hag; try done.
    + destruct Hag as [<- Hw]. cbn.
      rewrite manageCreateRequest_eq.
      rewrite (proc_bind _ _ _ _ _ (call_done _ _ _ _ Est)).
      destruct (trySocketWrite_attempts (Wire.createResponse (base sp)) (set_local w1 st) [])
        as [Hfirst _]; [done|].
      rewrite (proc_bind _ _ _ _ _ (Hfirst count later Eout ltac:(unfold MAX_ATTEMPTS; cbn; lia) (proj1 Hok))).
      rewrite (proc_bind _ _ _ _ _ (stop_on_failure_passes _ _ _ Hok)).
      eexists _, [count]. split; [reflexivity|]. cbn. rewrite ?Eout.
      split; [done|]. split; [done|]. split; [done | lia].
    + destruct Hag as [<- Hw]. eexists.
      rewrite manageCreateRequest_eq.
      rewrite (proc_ends _ _ _ _ _ (call_blocked _ _ _ _ Est)). done.
    + eexists. rewrite manageCreateRequest_eq.
      rewrite (proc_ends _ _ _ _ _ (call_fault _ _ _ Est)). done.
  - (* an update *)
    set (p := Wire.rq_philosopher request).
    pose proof (Local_agree (updatePhilosopher p) _ _ (Local_updatePhilosopher p) Hshm) as Hag.
    unfold mbind at 1, M_bind.
    destruct (updatePhilosopher p w) as [o' w'|s w'|w'] eqn:Ew;
      destruct (updatePhilosopher p (pr_local st)) as [o w1|s1 w1|w1] eqn:Est;
      cbn in Hag; try done.
    + destruct Hag as [<- Hw]. cbn.
      destruct o as [k|].
      * destruct (manageUpdateRequest_answers st request) as (Hgrant & _).
        destruct (Hgrant k w1 [] count later Est Eout ltac:(done) ltac:(unfold MAX_ATTEMPTS; cbn; lia) Hok)
          as [_ ->].
        eexists _, [count]. split; [reflexivity|]. cbn. rewrite ?Eout.
        split; [done|]. split; [done|]. split; [done | lia].
      * rewrite manageUpdateRequest_eq. fold p.
        rewrite (proc_bind _ _ _ _ _ (call_done _ _ _ _ Est)).
        exists (set_local w1 st), []. cbn. rewrite Eout.
        split; [done|]. split; [done|]. split; [done|]. split; [done | lia].
    + destruct Hag as [<- Hw]. eexists.
      rewrite manageUpdateRequest_eq. fold p.
      rewrite (proc_ends _ _ _ _ _ (call_blocked _ _ _ _ Est)). done.
    + eexists. rewrite manageUpdateRequest_eq. fold p.
      rewrite (proc_ends _ _ _ _ _ (call_fault _ _ _ Est)). done.
Qed.

(** The requests read whole are served as [serveAll] serves them; the
    loop then goes on with what is left to read. *)
Lemma clientProcess_loop_prefix requests :
  forall iterations st w rest,
    pr_incoming st = (requests ++ rest)%list ->
    Forall (fun r => transferred (fst r)) requests ->
    Forall transferred (pr_outgoing st) ->
    (length requests <= length (pr_outgoing st))%nat ->
    (length requests <= iterations)%nat ->
    shm (pr_local st) = shm w ->
    match serveAll ((fun r => dispatch (snd r)) <$> requests) w with
    | Done _ w' =>
        exists st1,
          clientProcess_loop iterations st =
            clientProcess_loop (iterations - length requests) st1 /\
          shm (pr_local st1) = shm w' /\ pr_incoming st1 = rest
    | Blocked s w' =>
        exists st', clientProcess_loop iterations st = Ends (Asleep s) st' /\
                    shm (pr_local st') = shm w'
    | Fault w' =>
        exists st', clientProcess_loop iterations st = Ends Crashed st' /\
                    shm (pr_local st') = shm w'
    end.
Proof.
  induction requests as [|[count request] requests IH];
    intros iterations st w rest Hin Hreq Hout Hlen Hit Hshm.
  - cbn. exists st. rewrite Nat.sub_0_r. done.
  - apply Forall_cons in Hreq as [Hok Hreq]. cbn [fst] in Hok.
    cbn [length] in Hlen, Hit. destruct iterations as [|iterations]; [lia|].
    cbn [fmap list_fmap serveAll snd]. change (list_fmap _ _ ?f ?l) with (f <$> l).
    rewrite clientProcess_loop_eq.
    destruct (trySocketRead_attempts st []) as [Hfirst _]; [done|].
    rewrite (proc_bind _ _ _ _ _
               (Hfirst (count, request) (requests ++ rest)%list Hin ltac:(unfold MAX_ATTEMPTS; cbn; lia) (proj1 Hok))).
    cbn [fst snd].
    rewrite (proc_bind _ _ _ _ _ (stop_on_failure_passes _ _ _ Hok)).
    pose proof (handle_request (set_incoming (requests ++ rest) st) request w Hshm Hout
                  ltac:(unfold MAX_ATTEMPTS; cbn; lia)) as Hstep.
    cbv zeta in Hstep. unfold mbind at 1, M_bind.
    destruct (serve (dispatch request) w) as [[] w1|s w1|w1].
    + destruct Hstep as (st1 & sent & Hrun & Hshm1 & Hin1 & Hout1 & Hsent).
      rewrite (proc_bind _ _ _ _ _ Hrun).
      cbn [pr_outgoing set_incoming] in Hout1. rewrite Hout1 in Hout, Hlen.
      apply Forall_app in Hout as [_ Hout]. rewrite length_app in Hlen.
      specialize (IH iterations st1 w1 rest Hin1 Hreq Hout ltac:(lia) ltac:(lia) Hshm1).
      exact IH.
    + destruct Hstep as (st1 & Hrun & Hshm1).
      exists st1. by rewrite (proc_ends _ _ _ _ _ Hrun).
    + destruct Hstep as (st1 & Hrun & Hshm1).
      exists st1. by rewrite (proc_ends _ _ _ _ _ Hrun).
Qed.

Lemma clientProcess_eq st :
  clientProcess st =
  clientProcess_loop (S (length (pr_incoming st)))
    (logged (mkLog ClientLog "Processus serveur ouvert pour le client !\n" []) st).
Proof. reflexivity. Qed.

(** X13. [clientProcess], when every [read] brings a whole request and
    every [write] takes a whole response, does to the segment what serving
    the requests one after the other does: it stops in [read] once all are
    served, asleep on the semaphore where one of them sleeps, or on the
    fault of one of them. *)
Theorem clientProcess_serves st :
  Forall (fun r => transferred (fst r)) (pr_incoming st) ->
  Forall transferred (pr_outgoing st) ->
  (length (pr_incoming st) <= length (pr_outgoing st))%nat ->
  let served := serveAll ((fun r => dispatch (snd r)) <$> pr_incoming st) (pr_local st) in
  exists st',
    clientProcess st = Ends (ending_of served) st' /\
    shm (pr_local st') = shm (world_of served).
Proof.
  intros Hreq Hout Hlen served. rewrite clientProcess_eq.
  pose proof (clientProcess_loop_prefix (pr_incoming st) (S (length (pr_incoming st)))
                (logged (mkLog ClientLog "Processus serveur ouvert pour le client !\n" []) st)
                (pr_local st) [] ltac:(cbn; by rewrite app_nil_r) Hreq Hout Hlen
                ltac:(lia) eq_refl) as H.
  fold served in H. destruct served as [[] w'|s w'|w']; cbn [ending_of world_of].
  - destruct H as (st1 & -> & Hshm & Hin).
    replace (S (length (pr_incoming st)) - length (pr_incoming st))%nat with 1%nat by lia.
    rewrite clientProcess_loop_eq.
    destruct (trySocketRead_attempts st1 []) as (_ & _ & Hstarved); [done|].
    rewrite (proc_ends _ _ _ _ _ (Hstarved Hin ltac:(unfold MAX_ATTEMPTS; cbn; lia))).
    eexists. split; [reflexivity|]. done.
  - destruct H as (st' & -> & Hshm). eauto.
  - destruct H as (st' & -> & Hshm). eauto.
Qed.

Lemma clientProcess_serves_witness :
  let st : Service :=
    mkProcess freshWorld
      [(16, Wire.createRequest); (16, Wire.createRequest);
       (16, Wire.updateRequest (mkPhilosopher 1 HUNGRY 0))]
      [16; 16; 16] [] in
  let served := serveAll ((fun r => dispatch (snd r)) <$> pr_incoming st) (pr_local st) in
  Forall (fun r => transferred (fst r)) (pr_incoming st) /\
  Forall transferred (pr_outgoing st) /\
  (length (pr_incoming st) <= length (pr_outgoing st))%nat /\
  exists st',
    clientProcess st = Ends (ending_of served) st' /\
    shm (pr_local st') = shm (world_of served).
Proof.
  intros st served.
  assert (H1 : Forall (fun r => transferred (fst r)) (pr_incoming st))
    by (repeat constructor; cbn; lia).
  assert (H2 : Forall transferred (pr_outgoing st)) by (repeat constructor; cbn; lia).
  assert (H3 : (length (pr_incoming st) <= length (pr_outgoing st))%nat) by (cbn; lia).
  split; [exact H1|]. split; [exact H2|]. split; [exact H3|].
  exact (clientProcess_serves st H1 H2 H3).
Defined.

Lemma records_app l1 l2 : records (l1 ++ l2) = (records l1 ++ records l2)%list.
Proof.
  induction l1 as [|e l1 IH]; [done|]. destruct e; cbn; by rewrite ?IH.
Qed.

(** X14. When [read] returns 0 -- the client has closed the connection --
    after requests that have been served, [clientProcess] sends the record
    of the closed connection, then SIGINT to its parent, the main process
    of the server, and exits with EXIT_FAILURE: one client that leaves
    stops the server for all. *)
Theorem disconnect_stops_the_server st requests closing rest w :
  pr_incoming st = (requests ++ (0, closing) :: rest)%list ->
  Forall (fun r => transferred (fst r)) requests ->
  Forall transferred (pr_outgoing st) ->
  (length requests <= length (pr_outgoing st))%nat ->
  serveAll ((fun r => dispatch (snd r)) <$> requests) (pr_local st) = Done tt w ->
  exists st',
    clientProcess st = Ends (Exited EXIT_FAILURE) st' /\
    shm (pr_local st') = shm w /\
    pr_incoming st' = rest /\
    last (pr_actions st') = Some (ActKillParent SIGINT) /\
    last (records (events (pr_local st'))) =
      Some (mkLog ClientLog "Le client a coupé la connexion.\n" []).
Proof.
  intros Hin Hreq Hout Hlen Hserved. rewrite clientProcess_eq.
  pose proof (clientProcess_loop_prefix requests (S (length (pr_incoming st)))
                (logged (mkLog ClientLog "Processus serveur ouvert pour le client !\n" []) st)
                (pr_local st) ((0, closing) :: rest) Hin Hreq Hout Hlen
                ltac:(rewrite Hin, length_app; lia) eq_refl) as H.
  rewrite Hserved in H. destruct H as (st1 & -> & Hshm & Hin1).
  rewrite Hin, length_app. cbn [length].
  replace (S (length requests + S (length rest)) - length requests)%nat
    with (S (S (length rest))) by lia.
  rewrite clientProcess_loop_eq.
  destruct (trySocketRead_attempts st1 []) as [Hfirst _]; [done|].
  rewrite (proc_bind _ _ _ _ _ (Hfirst (0, closing) rest Hin1 ltac:(unfold MAX_ATTEMPTS; cbn; lia) ltac:(done))).
  cbn [fst].
  eexists. split; [reflexivity|]. cbn.
  split; [done|]. split; [done|]. split.
  - by rewrite last_snoc.
  - rewrite records_app. cbn [records]. by rewrite last_snoc.
Qed.

Lemma disconnect_stops_the_server_witness :
  let st : Service :=
    mkProcess freshWorld [(16, Wire.createRequest); (0, Wire.createRequest)] [16] [] in
  let requests := [(16, Wire.createRequest)] in
  let w := world_of (serveAll [REQUEST_CREATE] freshWorld) in
  pr_incoming st = (requests ++ [(0, Wire.createRequest)])%list /\
  Forall (fun r => transferred (fst r)) requests /\
  Forall transferred (pr_outgoing st) /\
  (length requests <= length (pr_outgoing st))%nat /\
  serveAll ((fun r => dispatch (snd r)) <$> requests) (pr_local st) = Done tt w /\
  exists st',
    clientProcess st = Ends (Exited EXIT_FAILURE) st' /\
    shm (pr_local st') = shm w /\
    pr_incoming st' = [] /\
    last (pr_actions st') = Some (ActKillParent SIGINT) /\
    last (records (events (pr_local st'))) =
      Some (mkLog ClientLog "Le client a coupé la connexion.\n" []).
Proof.
  intros st requests w.
  assert (H1 : pr_incoming st = (requests ++ [(0, Wire.createRequest)])%list) by reflexivity.
  assert (H2 : Forall (fun r => transferred (fst r)) requests)
    by (repeat constructor; cbn; lia).
  assert (H3 : Forall transferred (pr_outgoing st)) by (repeat constructor; cbn; lia).
  assert (H4 : (length requests <= length (pr_outgoing st))%nat) by (cbn; lia).
  assert (H5 : serveAll ((fun r => dispatch (snd r)) <$> requests) (pr_local st) = Done tt w)
    by (vm_compute; reflexivity).
  split; [exact H1|]. split; [exact H2|]. split; [exact H3|]. split; [exact H4|].
  split; [exact H5|].
  exact (disconnect_stops_the_server st requests Wire.createRequest [] w H1 H2 H3 H4 H5).
Defined.

(** ** How the process stops *)

Lemma Tame_ret {A} (a : A) : Tame (mret a : Serving A).
Proof. intros st. cbn. lia. Qed.

Lemma Tame_bind {A B} (m : Serving A) (f : A -> Serving B) :
  Tame m -> (forall a, Tame (f a)) -> Tame (m ≫= f).
Proof.
  intros Hm Hf st. unfold mbind, Proc_bind. specialize (Hm st).
  destruct (m st) as [a st1|e st1]; [|done].
  specialize (Hf a st1). destruct (f a st1); [lia | done].
Qed.

Lemma Tame_call {A} (m : M A) : Tame (call m).
Proof. intros st. unfold call. destruct (m (pr_local st)); cbn; done. Qed.

Lemma Tame_sys_read : Tame sys_read.
Proof. intros st. unfold sys_read. destruct (pr_incoming st) eqn:E; cbn; [done | lia]. Qed.

Lemma Tame_sys_write data : Tame (sys_write data).
Proof. intros st. unfold sys_write. destruct (pr_outgoing st) eqn:E; cbn; done. Qed.

Lemma Tame_stop_on_failure count error : Tame (stop_on_failure count error).
Proof.
  intros st. unfold stop_on_failure.
  destruct (Z.eqb_spec count (-1)); [|destruct (Z.eqb_spec count 0)];
    unfold mbind, Proc_bind, call, act, sys_exit, logClientInfo, emit,
      mret, Proc_ret, orderly; cbn;
    rewrite ?last_snoc; first [lia | done].
Qed.

Lemma Tame_trySocketRead_loop attemptsLeft : Tame (trySocketRead_loop attemptsLeft).
Proof.
  induction attemptsLeft as [|k IH]; cbn [trySocketRead_loop];
    (apply Tame_bind; [apply Tame_sys_read|]); intros r;
    destruct (fst r =? -1); try apply Tame_ret; done.
Qed.

Lemma Tame_trySocketWrite_loop attemptsLeft data : Tame (trySocketWrite_loop attemptsLeft data).
Proof.
  induction attemptsLeft as [|k IH]; cbn [trySocketWrite_loop];
    (apply Tame_bind; [apply Tame_sys_write|]); intros r;
    destruct (r =? -1); try apply Tame_ret; done.
Qed.

Lemma Tame_ext {A} (m m' : Serving A) : (forall st, m st = m' st) -> Tame m' -> Tame m.
Proof. intros Heq H st. rewrite Heq. apply H. Qed.

Lemma Tame_manageCreateRequest request : Tame (manageCreateRequest request).
Proof.
  eapply Tame_ext; [apply manageCreateRequest_eq|].
  apply Tame_bind; [apply Tame_call|]. intros created.
  apply Tame_bind; [apply Tame_trySocketWrite_loop|]. intros bytesSent.
  apply Tame_bind; [apply Tame_stop_on_failure|]. intros _. apply Tame_call.
Qed.

Lemma Tame_manageUpdateRequest request : Tame (manageUpdateRequest request).
Proof.
  eapply Tame_ext; [apply manageUpdateRequest_eq|].
  apply Tame_bind; [apply Tame_call|]. intros [slot|]; [|apply Tame_ret].
  apply Tame_bind; [apply Tame_call|]. intros stored.
  apply Tame_bind; [apply Tame_trySocketWrite_loop|]. intros bytesSent.
  apply Tame_stop_on_failure.
Qed.

(** A call of [read] that returns has taken one count. *)
Lemma trySocketRead_loop_consumes attemptsLeft (st : Service) r st' :
  trySocketRead_loop attemptsLeft st = Returns r st' ->
  (length (pr_incoming st') < length (pr_incoming st))%nat.
Proof.
  revert st. induction attemptsLeft as [|k IH]; intros st; cbn [trySocketRead_loop];
    unfold mbind, Proc_bind, sys_read;
    destruct (pr_incoming st) as [|r0 later] eqn:E; try done;
    destruct (fst r0 =? -1); cbn.
  - intros [= <- <-]. cbn. lia.
  - intros [= <- <-]. cbn. lia.
  - intros H. apply IH in H. cbn in H. lia.
  - intros [= <- <-]. cbn. lia.
Qed.

Lemma clientProcess_loop_stops iterations :
  forall st, (length (pr_incoming st) < iterations)%nat ->
  exists e st', clientProcess_loop iterations st = Ends e st' /\ orderly e st'.
Proof.
  induction iterations as [|k IH]; intros st Hlen; [lia|].
  rewrite clientProcess_loop_eq. unfold mbind at 1, Proc_bind.
  pose proof (Tame_trySocketRead_loop (MAX_ATTEMPTS - 1) st) as Hread.
  pose proof (trySocketRead_loop_consumes (MAX_ATTEMPTS - 1) st) as Htakes.
  change (trySocketRead_loop (MAX_ATTEMPTS - 1)) with (@trySocketRead World Wire.Request Wire.Response) in Hread, Htakes.
  destruct (trySocketRead st) as [received st1|e st1]; [|eauto].
  specialize (Htakes _ _ eq_refl).
  unfold mbind at 1, Proc_bind.
  pose proof (Tame_stop_on_failure (fst received) "Erreur à la lecture du socket\n" st1) as Hstop.
  destruct (stop_on_failure _ _ st1) as [[] st2|e st2]; [|eauto].
  unfold mbind at 1, Proc_bind.
  assert (Hhandle : Tame (match Wire.rq_type (snd received) with
                          | Wire.REQUEST_CREATE => manageCreateRequest (snd received)
                          | Wire.REQUEST_UPDATE => manageUpdateRequest (snd received)
                          end)).
  { destruct (Wire.rq_type _);
      [apply Tame_manageCreateRequest | apply Tame_manageUpdateRequest]. }
  specialize (Hhandle st2).
  destruct (match Wire.rq_type (snd received) with
            | Wire.REQUEST_CREATE => manageCreateRequest (snd received)
            | Wire.REQUEST_UPDATE => manageUpdateRequest (snd received)
            end st2) as [[] st3|e st3]; [|eauto].
  apply IH. lia.
Qed.

(** X15. [clientProcess] never returns. It stops in [read] or in [write]
    only when nothing is left for the call to return, asleep on a
    semaphore, on a fault of the call it is in, or by [exit]: and then
    always with EXIT_FAILURE, right after SIGINT has been sent to the
    parent. *)
Theorem clientProcess_stops_orderly st :
  exists e st', clientProcess st = Ends e st' /\ orderly e st'.
Proof.
  rewrite clientProcess_eq. apply clientProcess_loop_stops. cbn. lia.
Qed.

(** ** [cleanup] *)

Lemma destroyed_semaphores_app l1 l2 :
  destroyed_semaphores (l1 ++ l2) = (destroyed_semaphores l1 ++ destroyed_semaphores l2)%list.
Proof. induction l1 as [|s l1 IH]; [done|]. destruct s; cbn; by rewrite ?IH. Qed.

Lemma killed_processes_app l1 l2 :
  killed_processes (l1 ++ l2) = (killed_processes l1 ++ killed_processes l2)%list.
Proof. induction l1 as [|s l1 IH]; [done|]. destruct s; cbn; by rewrite ?IH. Qed.

(** A loop whose turns destroy no semaphore destroys none. *)
Lemma for_each_destroys_nothing {A} (array : list A) turns body :
  (forall i x, destroyed_semaphores (body i x) = []) ->
  forall i steps, for_each array i turns body = Some steps ->
  destroyed_semaphores steps = [].
Proof.
  intros Hbody. induction turns as [|turns IH]; intros i steps; cbn.
  - by intros [= <-].
  - destruct (array !! i) as [x|]; [|done]. cbn.
    destruct (for_each array (S i) turns body) as [later|] eqn:E; [|done]. cbn.
    intros [= <-]. rewrite destroyed_semaphores_app, Hbody. by apply (IH (S i)).
Qed.

Lemma for_each_kills_nothing {A} (array : list A) turns body :
  (forall i x, killed_processes (body i x) = []) ->
  forall i steps, for_each array i turns body = Some steps ->
  killed_processes steps = [].
Proof.
  intros Hbody. induction turns as [|turns IH]; intros i steps; cbn.
  - by intros [= <-].
  - destruct (array !! i) as [x|]; [|done]. cbn.
    destruct (for_each array (S i) turns body) as [later|] eqn:E; [|done]. cbn.
    intros [= <-]. rewrite killed_processes_app, Hbody. by apply (IH (S i)).
Qed.

(** The loop over the registered clients kills them in the order of the
    array. *)
Lemma for_each_kills pids turns :
  forall i steps,
    for_each pids i turns
      (fun _ pid =>
         [Killed pid SIGKILL; Printed SUCCESS "Processus %d tué correctement. \n" [pid]])
      = Some steps ->
    killed_processes steps = take turns (drop i pids).
Proof.
  induction turns as [|turns IH]; intros i steps; cbn [for_each].
  - by intros [= <-].
  - destruct (pids !! i) as [x|] eqn:Ex; [|done]. cbn.
    destruct (for_each pids (S i) turns _) as [later|] eqn:E; [|done]. cbn.
    intros [= <-]. rewrite (drop_S _ _ _ Ex). cbn. by rewrite (IH _ _ E).
Qed.

(** X16. [cleanup], run on the segment that served requests have left,
    destroys the semaphore of the gate and the lock of creation and no
    other: the count of chopsticks it loops over is still 0, although
    every join has created a chopstick with its semaphore. It kills the
    registered service processes, in the order of their array. *)
Theorem cleanup_leaves_the_chopstick_semaphores qs w serverContext queue steps :
  serveAll qs freshWorld = Done tt w ->
  cleanup serverContext (set_logsQueueId queue (shm w)) = Some steps ->
  destroyed_semaphores steps = [SemMaxAllowedEating; SemCreation] /\
  killed_processes steps =
    take (Z.to_nat (numberClients serverContext)) (clientsProcessIds serverContext) /\
  (forall i, (i < creations qs)%nat -> c_id (chopAt (shm w) i) = Z.of_nat i + 1).
Proof.
  intros Hrun Hclean.
  pose proof (numberChopsticks_stays_zero _ _ Hrun) as Hzero.
  destruct (served_Wired _ _ Hrun) as [HW Hj].
  unfold cleanup in Hclean.
  destruct (for_each (clientsProcessIds serverContext) _ _ _) as [killed|] eqn:Ekill; [|by cbn in Hclean].
  cbn [mbind option_bind] in Hclean.
  destruct (for_each (serviceSockets serverContext) _ _ _) as [closed|] eqn:Eclose; [|by cbn in Hclean].
  cbn [mbind option_bind] in Hclean.
  destruct (sharedResources serverContext); [done|].
  cbn [numberChopsticks set_logsQueueId] in Hclean. rewrite Hzero in Hclean.
  cbn [Z.to_nat for_each mbind option_bind] in Hclean.
  injection Hclean as <-.
  pose proof (for_each_kills _ _ _ _ Ekill) as Hk. rewrite drop_0 in Hk.
  assert (Hd1 : destroyed_semaphores killed = [])
    by (eapply for_each_destroys_nothing; [|exact Ekill]; done).
  assert (Hd2 : destroyed_semaphores closed = [])
    by (eapply for_each_destroys_nothing; [|exact Eclose]; done).
  assert (Hk2 : killed_processes closed = [])
    by (eapply for_each_kills_nothing; [|exact Eclose]; done).
  split; [|split].
  - cbn [app destroyed_semaphores]. rewrite !destroyed_semaphores_app, Hd1, Hd2.
    repeat match goal with |- context [if ?b then _ else _] => destruct b end;
      reflexivity.
  - cbn [app killed_processes]. rewrite !killed_processes_app, Hk, Hk2.
    repeat match goal with |- context [if ?b then _ else _] => destruct b end;
      cbn; by rewrite app_nil_r.
  - intros i Hi. rewrite <- Hj in Hi.
    by destruct (wired_joined _ HW i Hi) as (_ & _ & _ & Hid).
Qed.

Lemma cleanup_leaves_the_chopstick_semaphores_witness :
  let serverContext :=
    mkServerContext 3 5 AttachedSegment [4; 0; 0; 0; 0; 0; 0] 1 [100; 0; 0; 0; 0; 0; 0] 1 in
  let steps := default [] (cleanup serverContext (set_logsQueueId 9 (shm afterDinner))) in
  serveAll dinner freshWorld = Done tt afterDinner /\
  cleanup serverContext (set_logsQueueId 9 (shm afterDinner)) = Some steps /\
  destroyed_semaphores steps = [SemMaxAllowedEating; SemCreation] /\
  killed_processes steps =
    take (Z.to_nat (numberClients serverContext)) (clientsProcessIds serverContext) /\
  (forall i, (i < creations dinner)%nat -> c_id (chopAt (shm afterDinner) i) = Z.of_nat i + 1).
Proof.
  intros serverContext steps.
  assert (H1 : serveAll dinner freshWorld = Done tt afterDinner) by (vm_compute; reflexivity).
  assert (H2 : cleanup serverContext (set_logsQueueId 9 (shm afterDinner)) = Some steps)
    by (vm_compute; reflexivity).
  split; [exact H1|]. split; [exact H2|].
  exact (cleanup_leaves_the_chopstick_semaphores dinner afterDinner serverContext 9 steps H1 H2).
Defined.

(** ** Running a process *)

Section AfterRules.
Context {L In Out : Type}.
Implicit Types (st : Process L In Out).

Lemma after_ret {A} (a : A) st Q E : Q a st -> after (mret a : Proc L In Out A) st Q E.
Proof. done. Qed.

Lemma after_bind {A B} (m : Proc L In Out A) (f : A -> Proc L In Out B) st Q E :
  after m st (fun a st' => after (f a) st' Q E) E -> after (m ≫= f) st Q E.
Proof. unfold after, mbind, Proc_bind. by destruct (m st). Qed.

Lemma after_mono {A} (m : Proc L In Out A) st (Q Q' : A -> Process L In Out -> Prop)
    (E E' : Ending -> Process L In Out -> Prop) :
  after m st Q' E' ->
  (forall a st', Q' a st' -> Q a st') -> (forall e st', E' e st' -> E e st') ->
  after m st Q E.
Proof. unfold after. destruct (m st); auto. Qed.

Lemma after_act (a : Action Out) st Q E : Q tt (acted a st) -> after (act a) st Q E.
Proof. done. Qed.

Lemma after_exit status st (Q : unit -> Process L In Out -> Prop) E :
  E (Exited status) st -> after (sys_exit status) st Q E.
Proof. done. Qed.

Lemma wrote_wrote (data : Out) results results' later later' st :
  wrote data results' later' (wrote data results later st) =
  wrote data (results ++ results') later' st.
Proof. unfold wrote. cbn. by rewrite fmap_app, app_assoc. Qed.

Lemma after_trySocketWrite_loop attemptsLeft (data : Out) :
  forall st (Q : Z -> Process L In Out -> Prop) E,
  (forall failures count later,
     pr_outgoing st = (failures ++ count :: later)%list ->
     Forall (eq (-1)) failures ->
     Q count (wrote data (failures ++ [count]) later st)) ->
  (forall failures,
     pr_outgoing st = failures -> Forall (eq (-1)) failures ->
     E Writing (wrote data failures [] st)) ->
  after (trySocketWrite_loop attemptsLeft data) st Q E.
Proof.
  induction attemptsLeft as [|k IH]; intros st Q E HQ HE;
    cbn [trySocketWrite_loop]; apply after_bind; unfold after at 1, sys_write;
    destruct (pr_outgoing st) as [|result later] eqn:Hout.
  - specialize (HE [] eq_refl ltac:(done)). unfold wrote in HE. cbn in HE.
    rewrite app_nil_r, <- Hout in HE. by destruct st.
  - specialize (HQ [] result later eq_refl ltac:(done)).
    by destruct (result =? -1).
  - specialize (HE [] eq_refl ltac:(done)). unfold wrote in HE. cbn in HE.
    rewrite app_nil_r, <- Hout in HE. by destruct st.
  - destruct (Z.eqb_spec result (-1)) as [->|Hne].
    + apply IH.
      * intros failures count later' Hout' Hf. cbn in Hout'. subst later.
        change (mkProcess (pr_local st) (pr_incoming st) (failures ++ count :: later')
                  (pr_actions st ++ [ActWrite data (-1)]))
          with (wrote data [-1] (failures ++ count :: later') st).
        rewrite wrote_wrote. apply (HQ (-1 :: failures)); [done|]. by constructor.
      * intros failures Hout' Hf. cbn in Hout'. subst later.
        change (mkProcess (pr_local st) (pr_incoming st) failures
                  (pr_actions st ++ [ActWrite data (-1)]))
          with (wrote data [-1] failures st).
        rewrite wrote_wrote. apply (HE (-1 :: failures)); [done|]. by constructor.
    + by apply (HQ [] result later).
Qed.

Lemma after_trySocketWrite (data : Out) st (Q : Z -> Process L In Out -> Prop) E :
  (forall failures count later,
     pr_outgoing st = (failures ++ count :: later)%list ->
     Forall (eq (-1)) failures ->
     Q count (wrote data (failures ++ [count]) later st)) ->
  (forall failures,
     pr_outgoing st = failures -> Forall (eq (-1)) failures ->
     E Writing (wrote data failures [] st)) ->
  after (trySocketWrite data) st Q E.
Proof. apply after_trySocketWrite_loop. Qed.

Lemma after_trySocketRead_loop attemptsLeft :
  forall st (Q : Z * In -> Process L In Out -> Prop) E,
  (forall received later, Q received (set_incoming later st)) ->
  E Reading (set_incoming [] st) ->
  after (trySocketRead_loop attemptsLeft) st Q E.
Proof.
  induction attemptsLeft as [|k IH]; intros st Q E HQ HE;
    cbn [trySocketRead_loop]; apply after_bind; unfold after at 1, sys_read;
    destruct (pr_incoming st) as [|received later] eqn:Hin.
  - unfold set_incoming in HE. rewrite <- Hin in HE. by destruct st.
  - destruct (fst received =? -1); apply (HQ received later).
  - unfold set_incoming in HE. rewrite <- Hin in HE. by destruct st.
  - destruct (fst received =? -1); [|apply (HQ received later)].
    apply IH; [intros r l; apply (HQ r l) | apply HE].
Qed.

Lemma after_trySocketRead st (Q : Z * In -> Process L In Out -> Prop) E :
  (forall received later, Q received (set_incoming later st)) ->
  E Reading (set_incoming [] st) ->
  after trySocketRead st Q E.
Proof. apply after_trySocketRead_loop. Qed.

End AfterRules.

(** ** The thread of a participant *)

Lemma after_get_base (st : Participant) Q E :
  Q (tm_base (pr_local st)) st -> after get_base st Q E.
Proof. done. Qed.

Lemma after_put_base philosopher (st : Participant) Q E :
  Q tt (with_base philosopher st) -> after (put_base philosopher) st Q E.
Proof. done. Qed.

Section RandomRules.
Context {L In Out : Type} `{Randomness L}.
Implicit Types (st : Process L In Out).

Lemma after_checked z st (Q : Z -> Process L In Out -> Prop) E :
  (INT_MIN <= z <= INT_MAX -> Q z st) -> E Crashed st -> after (checked z) st Q E.
Proof.
  intros HQ HE. unfold checked, after.
  destruct (Z.leb_spec INT_MIN z), (Z.leb_spec z INT_MAX); cbn; auto.
Qed.

Lemma after_randomRange min max st (Q : Z -> Process L In Out -> Prop) E :
  (forall v, Q v (drew st)) -> E Crashed (drew st) -> after (randomRange min max) st Q E.
Proof.
  intros HQ HE. unfold randomRange.
  apply after_bind. unfold after at 1, rand.
  apply after_bind, after_checked; [intros _|done].
  apply after_bind, after_checked; [intros _|done].
  destruct (_ || _); [done|].
  apply after_checked; [intros _; apply HQ | done].
Qed.

(** [randomRange] on the arguments of the calls made, and any others for
    which the operations stay within [int]. *)
Lemma randomRange_returns min max st :
  INT_MIN <= min -> min <= max -> max < INT_MAX -> max - min < INT_MAX ->
  0 <= next_rand (pr_local st) ->
  randomRange min max st =
    Returns (Z.rem (next_rand (pr_local st)) (max + 1 - min) + min) (drew st) /\
  min <= Z.rem (next_rand (pr_local st)) (max + 1 - min) + min <= max.
Proof.
  intros Hmin Hle Hmax Hwidth Hr.
  set (r := next_rand (pr_local st)) in *.
  assert (Hrem : 0 <= Z.rem r (max + 1 - min) < max + 1 - min)
    by (apply Z.rem_bound_pos; lia).
  split; [|lia].
  unfold randomRange, mbind, Proc_bind, rand, checked. fold r.
  unfold INT_MIN, INT_MAX in *.
  assert (H1 : (-2147483648 <=? max + 1) && (max + 1 <=? 2147483647) = true)
    by (apply andb_true_iff; split; apply Z.leb_le; lia).
  rewrite H1. cbn [mret Proc_ret].
  assert (H2 : (-2147483648 <=? max + 1 - min) && (max + 1 - min <=? 2147483647) = true)
    by (apply andb_true_iff; split; apply Z.leb_le; lia).
  rewrite H2. cbn [mret Proc_ret].
  assert (H3 : (max + 1 - min =? 0) || ((r =? -2147483648) && (max + 1 - min =? -1)) = false).
  { apply orb_false_iff. split; [apply Z.eqb_neq; lia|].
    apply andb_false_iff. left. apply Z.eqb_neq. lia. }
  rewrite H3.
  assert (H4 : (-2147483648 <=? Z.rem r (max + 1 - min) + min) &&
               (Z.rem r (max + 1 - min) + min <=? 2147483647) = true)
    by (apply andb_true_iff; split; apply Z.leb_le; lia).
  by rewrite H4.
Qed.

Lemma after_checked_within z st (Q : Z -> Process L In Out -> Prop) E :
  INT_MIN <= z <= INT_MAX -> Q z st -> after (checked z) st Q E.
Proof.
  intros [H1 H2] HQ. unfold checked, after.
  by rewrite (proj2 (Z.leb_le _ _) H1), (proj2 (Z.leb_le _ _) H2).
Qed.

Lemma after_randomRange_within min max st (Q : Z -> Process L In Out -> Prop) E :
  INT_MIN <= min -> min <= max -> max < INT_MAX -> max - min < INT_MAX ->
  0 <= next_rand (pr_local st) ->
  Q (Z.rem (next_rand (pr_local st)) (max + 1 - min) + min) (drew st) ->
  after (randomRange min max) st Q E.
Proof.
  intros H1 H2 H3 H4 H5 HQ. unfold after.
  by rewrite (proj1 (randomRange_returns min max st H1 H2 H3 H4 H5)).
Qed.

Lemma after_thread_return {A} st (Q : A -> Process L In Out -> Prop) E :
  E Left st -> after thread_return st Q E.
Proof. done. Qed.

End RandomRules.

(** *** What a thread delivers *)

Lemma delivered_app {Out} (a b : list (Action Out)) :
  delivered (a ++ b) = (delivered a ++ delivered b)%list.
Proof.
  induction a as [|[data result| | | | |] a IH]; cbn; try done.
  destruct (result =? -1); cbn; by rewrite IH.
Qed.

Lemma delivered_attempts {Out} (data : Out) failures count :
  Forall (eq (-1)) failures ->
  delivered (ActWrite data <$> (failures ++ [count])%list) =
    if count =? -1 then [] else [data].
Proof.
  induction 1 as [|f failures <- _ IH]; cbn; [by destruct (count =? -1)|]. exact IH.
Qed.

Lemma delivered_failures {Out} (data : Out) failures :
  Forall (eq (-1)) failures -> delivered (ActWrite data <$> failures) = [].
Proof. induction 1 as [|f failures <- _ IH]; cbn; done. Qed.

Lemma eats_after_asking_snoc previous states s :
  eats_after_asking previous (states ++ [s])%list =
    eats_after_asking previous states &&
    match default previous (last states), s with
    | THINKING, EATING => false
    | _, _ => true
    end.
Proof.
  revert previous. induction states as [|s0 states IH]; intros previous.
  - cbn. by rewrite andb_true_r.
  - cbn [app eats_after_asking]. rewrite IH, andb_assoc.
    rewrite (last_cons s0). by destruct (last states).
Qed.

Lemma Asked_quiet id (st st' : Participant) extra :
  Asked id st -> pr_actions st' = (pr_actions st ++ extra)%list -> delivered extra = [] ->
  Asked id st'.
Proof.
  intros [Hown Heats] Hacts Hextra. unfold Asked, sent_states.
  by rewrite Hacts, delivered_app, Hextra, app_nil_r.
Qed.

Lemma Asking_quiet id (st st' : Participant) extra :
  Asking id st -> pr_actions st' = (pr_actions st ++ extra)%list -> delivered extra = [] ->
  p_id (tm_base (pr_local st')) = id ->
  (p_state (tm_base (pr_local st')) = EATING ->
   p_state (tm_base (pr_local st)) = EATING \/ last_sent (pr_actions st) <> THINKING) ->
  Asking id st'.
Proof.
  intros (Hasked & Hid & Hlast) Hacts Hextra Hid' Hstate.
  split; [by eapply Asked_quiet|]. split; [done|].
  intros Heating. rewrite Hacts. unfold last_sent, sent_states.
  rewrite delivered_app, Hextra, app_nil_r.
  destruct (Hstate Heating) as [H|H]; [by apply Hlast | done].
Qed.

Lemma Asking_sent id (st st' : Participant) extra :
  Asking id st -> pr_actions st' = (pr_actions st ++ extra)%list ->
  delivered extra = [Wire.updateRequest (tm_base (pr_local st))] ->
  Asked id st' /\ last_sent (pr_actions st') = p_state (tm_base (pr_local st)).
Proof.
  intros ((Hown & Heats) & Hid & Hlast) Hacts Hextra.
  unfold Asked, last_sent, sent_states.
  rewrite Hacts, delivered_app, Hextra, fmap_app. cbn [fmap list_fmap Wire.updateRequest Wire.rq_philosopher].
  rewrite last_snoc. split; [split|done].
  - apply Forall_app. split; [done|]. constructor; [|done]. by split.
  - rewrite eats_after_asking_snoc. fold (sent_states (pr_actions st)). rewrite Heats.
    fold (last_sent (pr_actions st)).
    destruct (p_state (tm_base (pr_local st))) eqn:Es; try by destruct (last_sent _).
    specialize (Hlast eq_refl). by destruct (last_sent _).
Qed.

Ltac thread_step :=
  lazymatch goal with
  | |- after (mbind _ _) _ _ _ => apply after_bind
  | |- after (act _) _ _ _ => apply after_act
  | |- after get_base _ _ _ => apply after_get_base
  | |- after (put_base _) _ _ _ => apply after_put_base
  | |- after (mret _) _ _ _ => apply after_ret
  | |- after (sys_exit _) _ _ _ => apply after_exit
  | |- after thread_return _ _ _ => apply after_thread_return
  end; cbv beta zeta.

Ltac thread_norm :=
  cbn [with_base acted drew set_incoming wrote pr_local pr_incoming pr_outgoing pr_actions
       next_rand after_rand ThreadMemory_randomness
       tm_base tm_rand tm_drawn p_id p_state p_stateTimer] in *.

Ltac thread_run := repeat thread_step; thread_norm.

Lemma philosopherThread_loop_asks id iterations :
  forall st : Participant,
    Asking id st ->
    after (philosopherThread_loop iterations) st
      (fun _ st' =>
         Asking id st' /\
         (length (pr_outgoing st') + iterations <= length (pr_outgoing st))%nat)
      (fun _ st' => Asked id st').
Proof.
  induction iterations as [|n IH]; intros st HA.
  { apply after_ret. split; [done|lia]. }
  cbn [philosopherThread_loop].
  thread_run. apply after_checked; cycle 1.
  { eapply Asked_quiet; [apply HA| |]; [cbn; reflexivity|done]. }
  intros _. thread_run.
  (* the state the thread sends *)
  eapply (after_mono _ _ _
            (fun _ st1 =>
               Asking id st1 /\ pr_outgoing st1 = pr_outgoing st)
            _ (fun _ st1 => Asked id st1)); [| |auto].
  {     destruct (_ <=? 0); [destruct (p_state (tm_base (pr_local st))) eqn:Es|].
    - thread_run. split; [|done].
      eapply Asking_quiet; [apply HA| cbn; reflexivity |done|apply HA|done].
    - thread_run.
      eapply Asked_quiet; [apply HA| |]; [cbn; rewrite <- app_assoc; reflexivity|done].
    - thread_run. apply after_randomRange; cycle 1.
      { eapply Asked_quiet; [apply HA| cbn; reflexivity |done]. }
      intros v. thread_run.
      split; [|done].
      eapply Asking_quiet; [apply HA| cbn; reflexivity |done|apply HA|done].
    - thread_run. split; [|done].
      eapply Asking_quiet; [apply HA| cbn; reflexivity |done|apply HA|cbn; tauto]. }
  intros [] st1 (HA1 & Hout1).
  thread_run. apply after_trySocketWrite; cycle 1.
  { intros failures _ Hf.
    eapply Asked_quiet; [apply HA1| cbn; reflexivity |by apply delivered_failures]. }
  intros failures count later Hout Hf.
  pose proof (delivered_attempts (Wire.updateRequest (tm_base (pr_local st1))) failures count Hf)
    as Hdelivered.
  thread_step.
  destruct (Z.eqb_spec count (-1)) as [->|Hcount].
  { thread_run.
    eapply Asked_quiet; [apply HA1| |].
    - cbn. rewrite <- !app_assoc. reflexivity.
    - rewrite delivered_app, Hdelivered. done. }
  destruct (Asking_sent id st1
              (wrote (Wire.updateRequest (tm_base (pr_local st1))) (failures ++ [count])%list later st1)
              _ HA1 eq_refl Hdelivered) as [Hasked2 Hlast2].
  set (st2 := wrote _ _ later st1) in *.
  assert (Hid2 : p_id (tm_base (pr_local st2)) = id) by apply HA1.
  assert (Hlen2 : (length (pr_outgoing st2) < length (pr_outgoing st))%nat).
  { rewrite <- Hout1, Hout. cbn. rewrite length_app. cbn. lia. }
  assert (Hbase2 : tm_base (pr_local st2) = tm_base (pr_local st1)) by done.
  clearbody st2. clear Hdelivered.
  thread_run.
  (* the answer to HUNGRY *)
  eapply (after_mono _ _ _
            (fun _ st3 =>
               Asking id st3 /\ (length (pr_outgoing st3) < length (pr_outgoing st))%nat)
            _ (fun _ st3 => Asked id st3)); [| |auto]; cycle 1.
  { intros [] st3 [HA3 Hlen3].
    eapply after_mono; [apply (IH st3 HA3)| |auto].
    intros [] st4 [HA4 Hlen4]. split; [done|lia]. }
  assert (Hquiet : forall st3 : Participant,
            pr_actions st3 = pr_actions st2 -> Asked id st3).
  { intros st3 E. eapply Asked_quiet; [apply Hasked2| |]; [by rewrite E, app_nil_r|done]. }
  destruct (p_state (tm_base (pr_local st2))) eqn:Es2.
  - thread_run. split; [|done]. split; [done|]. split; [done|]. by rewrite Es2.
  - thread_run. apply after_trySocketRead; [|by apply Hquiet].
    intros received later'. cbv beta zeta. thread_step.
    assert (Hany : forall extra st3, pr_actions st3 = (pr_actions st2 ++ extra)%list ->
                     delivered extra = [] -> Asked id st3).
    { intros extra st3 E He. by eapply Asked_quiet. }
    destruct (fst received =? -1).
    { thread_run. eapply Hany; [cbn; rewrite <- !app_assoc; reflexivity|done]. }
    thread_step.
    destruct (Wire.rs_type (snd received)).
    { thread_run. eapply Hany; [cbn; rewrite <- !app_assoc; reflexivity|done]. }
    thread_run. apply after_randomRange; [|by apply Hquiet].
    intros v. thread_run.
    split; [|done]. split; [by apply Hquiet|]. split; [done|].
    intros _. cbn [pr_actions with_base drew set_incoming].
    rewrite Hlast2, <- Hbase2, Es2. done.
  - thread_run. split; [|done]. split; [done|]. split; [done|].
    intros _. rewrite Hlast2, <- Hbase2, Es2. done.
Qed.

(** *** A thread that is answered *)

Lemma after_run {L In Out A} (m : Proc L In Out A) st r :
  after m st (fun a st' => r = Returns a st') (fun e st' => r = Ends e st') -> m st = r.
Proof. unfold after. by destruct (m st). Qed.

Lemma after_self {L In Out A} (m : Proc L In Out A) st :
  after m st (fun a st' => m st = Returns a st') (fun e st' => m st = Ends e st').
Proof. unfold after. by destruct (m st). Qed.

Lemma after_trySocketWrite_first {L In Out} (data : Out) (st : Process L In Out)
    (Q : Z -> Process L In Out -> Prop) E count later :
  pr_outgoing st = count :: later -> count <> -1 ->
  Q count (wrote data [count] later st) ->
  after (trySocketWrite data) st Q E.
Proof.
  intros Hout Hcount HQ. apply after_trySocketWrite.
  - intros [|f failures] count' later' Hout' Hf; rewrite Hout in Hout'.
    + by injection Hout' as <- <-.
    + injection Hout' as -> _. apply Forall_inv in Hf. done.
  - intros [|f failures] Hout' Hf; rewrite Hout in Hout'; [done|].
    injection Hout' as -> _. apply Forall_inv in Hf. done.
Qed.

(** One turn of a thread that is not HUNGRY and whose timer has not run
    out, when [write] succeeds at once. *)
Lemma philosopherThread_loop_tick iterations (st : Participant) count later :
  let philosopher := tm_base (pr_local st) in
  p_state philosopher <> HUNGRY ->
  1 < p_stateTimer philosopher <= INT_MAX ->
  pr_outgoing st = count :: later -> count <> -1 ->
  philosopherThread_loop (S iterations) st =
    philosopherThread_loop iterations
      (mkProcess
         (mkThreadMemory
            (mkPhilosopher (p_id philosopher) (p_state philosopher) (p_stateTimer philosopher - 1))
            (tm_rand (pr_local st)) (tm_drawn (pr_local st)))
         (pr_incoming st) later
         (pr_actions st ++ ticks (p_id philosopher) (p_state philosopher)
                             (p_stateTimer philosopher) [count])).
Proof.
  intros philosopher Hs Ht Hout Hcount. unfold philosopher in *. clear philosopher.
  apply after_run. cbn [philosopherThread_loop].
  thread_run. apply after_checked_within; [unfold INT_MIN, INT_MAX in *; lia|].
  thread_run.
  destruct (Z.leb_spec (p_stateTimer (tm_base (pr_local st)) - 1) 0) as [?|_]; [lia|].
  thread_run. eapply after_trySocketWrite_first; [exact Hout|done|].
  thread_step. destruct (Z.eqb_spec count (-1)); [done|].
  thread_run.
  destruct (p_state (tm_base (pr_local st))) eqn:Es; [|done|]; thread_run;
    unfold wrote, with_base, acted;
    cbn [pr_local pr_incoming pr_outgoing pr_actions tm_base tm_rand tm_drawn fmap list_fmap ticks];
    rewrite <- app_assoc; apply after_self.
Qed.

Lemma philosopherThread_loop_ticks results :
  forall iterations (st : Participant) later,
    let philosopher := tm_base (pr_local st) in
    p_state philosopher <> HUNGRY ->
    Z.of_nat (length results) < p_stateTimer philosopher <= INT_MAX ->
    pr_outgoing st = (results ++ later)%list ->
    Forall (fun count => count <> -1) results ->
    philosopherThread_loop (length results + iterations) st =
      philosopherThread_loop iterations
        (mkProcess
           (mkThreadMemory
              (mkPhilosopher (p_id philosopher) (p_state philosopher)
                 (p_stateTimer philosopher - Z.of_nat (length results)))
              (tm_rand (pr_local st)) (tm_drawn (pr_local st)))
           (pr_incoming st) later
           (pr_actions st ++ ticks (p_id philosopher) (p_state philosopher)
                               (p_stateTimer philosopher) results)).
Proof.
  induction results as [|count results IH]; intros n st later philosopher Hs Ht Hout Hf;
    unfold philosopher in *; clear philosopher.
  - cbn [length Nat.add ticks Z.of_nat]. rewrite app_nil_r, Z.sub_0_r. cbn in Hout.
    rewrite <- Hout. by destruct st as [[[] ? ?] ? ? ?].
  - apply Forall_cons in Hf as [Hcount Hf]. cbn [length] in *. cbn [Nat.add].
    rewrite (philosopherThread_loop_tick _ st count (results ++ later));
      [|done|lia|done|done].
    rewrite (IH n _ later); cbn [pr_local tm_base p_state p_stateTimer p_id pr_outgoing]; [|done|lia|done|done].
    cbn [pr_incoming pr_actions tm_rand tm_drawn ticks].
    f_equal. f_equal; [do 2 f_equal; lia|].
    rewrite <- app_assoc. done.
Qed.

Lemma state_time_within r :
  0 <= r ->
  MIN_STATE_TIME <=
    Z.rem r (MAX_STATE_TIME + 1 - MIN_STATE_TIME) + MIN_STATE_TIME <= MAX_STATE_TIME.
Proof.
  intros Hr. unfold MIN_STATE_TIME, MAX_STATE_TIME.
  pose proof (Z.rem_bound_pos r (10 + 1 - 5) Hr ltac:(lia)). lia.
Qed.

Ltac state_time :=
  apply after_randomRange_within;
    [unfold INT_MIN, MIN_STATE_TIME; lia
    |unfold MIN_STATE_TIME, MAX_STATE_TIME; lia
    |unfold INT_MAX, MAX_STATE_TIME; lia
    |unfold INT_MAX, MIN_STATE_TIME, MAX_STATE_TIME; lia
    |thread_norm; try done
    |].

(** The turn in which the timer of an EATING thread runs out. *)
Lemma philosopherThread_loop_meal_end iterations (st : Participant) final later :
  let philosopher := tm_base (pr_local st) in
  let timer :=
    Z.rem (tm_rand (pr_local st) (tm_drawn (pr_local st)))
      (MAX_STATE_TIME + 1 - MIN_STATE_TIME) + MIN_STATE_TIME in
  p_state philosopher = EATING ->
  INT_MIN < p_stateTimer philosopher <= 1 ->
  pr_outgoing st = final :: later -> final <> -1 ->
  0 <= tm_rand (pr_local st) (tm_drawn (pr_local st)) ->
  philosopherThread_loop (S iterations) st =
    philosopherThread_loop iterations
      (mkProcess
         (mkThreadMemory (mkPhilosopher (p_id philosopher) THINKING timer)
            (tm_rand (pr_local st)) (S (tm_drawn (pr_local st))))
         (pr_incoming st) later
         (pr_actions st ++
            [ActSleep 1;
             ActWrite (Wire.updateRequest (mkPhilosopher (p_id philosopher) THINKING timer))
               final])).
Proof.
  intros philosopher timer Hs Ht Hout Hfinal Hr. unfold philosopher, timer in *.
  clear philosopher timer.
  apply after_run. cbn [philosopherThread_loop].
  thread_run. apply after_checked_within; [unfold INT_MIN, INT_MAX in *; lia|].
  thread_run.
  destruct (Z.leb_spec (p_stateTimer (tm_base (pr_local st)) - 1) 0) as [_|?]; [|lia].
  rewrite Hs. thread_run. state_time.
  thread_run. eapply after_trySocketWrite_first; [exact Hout|done|].
  thread_step. destruct (Z.eqb_spec final (-1)); [done|].
  thread_run.
  unfold wrote, with_base, acted, drew;
    cbn [pr_local pr_incoming pr_outgoing pr_actions tm_base tm_rand tm_drawn fmap list_fmap
         p_id p_state p_stateTimer];
    rewrite <- app_assoc; apply after_self.
Qed.

(** X17. [randomRange] returns a value between its two arguments, both
    included, when [rand] returns a value that is not negative and the
    arguments are in order and far enough from the ends of [int] for
    [max + 1 - min] to be one. *)
Theorem randomRange_within {L In Out} `{Randomness L} min max (st : Process L In Out) :
  INT_MIN <= min -> min <= max -> max < INT_MAX -> max - min < INT_MAX ->
  0 <= next_rand (pr_local st) ->
  exists v, randomRange min max st = Returns v (drew st) /\ min <= v <= max.
Proof.
  intros H1 H2 H3 H4 H5.
  destruct (randomRange_returns min max st H1 H2 H3 H4 H5) as [Hrun Hv]. eauto.
Qed.

Lemma randomRange_within_witness :
  let st : Participant :=
    mkProcess (mkThreadMemory (mkPhilosopher 1 THINKING 5) (fun _ => 1804289383) 0) [] [] [] in
  INT_MIN <= MIN_STATE_TIME /\ MIN_STATE_TIME <= MAX_STATE_TIME /\
  MAX_STATE_TIME < INT_MAX /\ MAX_STATE_TIME - MIN_STATE_TIME < INT_MAX /\
  0 <= next_rand (pr_local st) /\
  exists v, randomRange MIN_STATE_TIME MAX_STATE_TIME st = Returns v (drew st) /\
            MIN_STATE_TIME <= v <= MAX_STATE_TIME.
Proof.
  intros st.
  assert (H1 : INT_MIN <= MIN_STATE_TIME) by (vm_compute; discriminate).
  assert (H2 : MIN_STATE_TIME <= MAX_STATE_TIME) by (vm_compute; discriminate).
  assert (H3 : MAX_STATE_TIME < INT_MAX) by (vm_compute; reflexivity).
  assert (H4 : MAX_STATE_TIME - MIN_STATE_TIME < INT_MAX) by (vm_compute; reflexivity).
  assert (H5 : 0 <= next_rand (pr_local st)) by (vm_compute; discriminate).
  split; [exact H1|]. split; [exact H2|]. split; [exact H3|]. split; [exact H4|].
  split; [exact H5|].
  exact (randomRange_within MIN_STATE_TIME MAX_STATE_TIME st H1 H2 H3 H4 H5).
Defined.

(** X18. A thread that starts in another state than EATING delivers,
    until it stops, updates for its own participant only, and never
    EATING right after THINKING: an EATING follows a HUNGRY that has been
    answered, or another EATING. The thread stops at the latest when
    [write] has nothing left to return. *)
Theorem philosopherThread_asks_before_eating (st : Participant) :
  pr_actions st = [] ->
  p_state (tm_base (pr_local st)) <> EATING ->
  exists e st',
    philosopherThread st = Ends e st' /\
    Forall (own (p_id (tm_base (pr_local st)))) (delivered (pr_actions st')) /\
    eats_after_asking THINKING (sent_states (pr_actions st')) = true.
Proof.
  intros Hacts Hs.
  assert (HA : Asking (p_id (tm_base (pr_local st))) st).
  { unfold Asking, Asked, last_sent, sent_states. rewrite Hacts. cbn. done. }
  pose proof (philosopherThread_loop_asks _ (S (length (pr_outgoing st))) st HA) as H.
  unfold after in H. unfold philosopherThread.
  destruct (philosopherThread_loop _ st) as [[] st'|e st'].
  - destruct H as [_ H]. lia.
  - exists e, st'. destruct H. done.
Qed.

Lemma philosopherThread_asks_before_eating_witness :
  let st : Participant :=
    mkProcess (mkThreadMemory (mkPhilosopher 1 THINKING 2) (fun _ => 1804289383) 0)
      [(16, Wire.updateResponse (mkPhilosopher 1 EATING 0))]
      [16; 16; 16; 16] [] in
  pr_actions st = [] /\
  p_state (tm_base (pr_local st)) <> EATING /\
  exists e st',
    philosopherThread st = Ends e st' /\
    Forall (own (p_id (tm_base (pr_local st)))) (delivered (pr_actions st')) /\
    eats_after_asking THINKING (sent_states (pr_actions st')) = true.
Proof.
  intros st.
  assert (H1 : pr_actions st = []) by reflexivity.
  assert (H2 : p_state (tm_base (pr_local st)) <> EATING) by (cbn; discriminate).
  split; [exact H1|]. split; [exact H2|].
  exact (philosopherThread_asks_before_eating st H1 H2).
Defined.

(** X19. A thread that is EATING with [t] seconds on its timer, and whose
    calls of [write] succeed at once, sends EATING once a second for
    [t - 1] seconds, with the timer going down, and at the [t]-th second
    THINKING with a new timer between MIN_STATE_TIME and
    MAX_STATE_TIME. *)
Theorem meal_lasts_its_timer (st : Participant) eating final later :
  let philosopher := tm_base (pr_local st) in
  p_state philosopher = EATING ->
  p_stateTimer philosopher = Z.of_nat (length eating) + 1 ->
  p_stateTimer philosopher <= INT_MAX ->
  pr_outgoing st = (eating ++ final :: later)%list ->
  Forall (fun count => count <> -1) (eating ++ [final])%list ->
  0 <= tm_rand (pr_local st) (tm_drawn (pr_local st)) ->
  exists timer,
    MIN_STATE_TIME <= timer <= MAX_STATE_TIME /\
    philosopherThread_loop (S (length eating)) st =
      Returns tt
        (mkProcess
           (mkThreadMemory (mkPhilosopher (p_id philosopher) THINKING timer)
              (tm_rand (pr_local st)) (S (tm_drawn (pr_local st))))
           (pr_incoming st) later
           (pr_actions st ++
              ticks (p_id philosopher) EATING (p_stateTimer philosopher) eating ++
              [ActSleep 1;
               ActWrite (Wire.updateRequest (mkPhilosopher (p_id philosopher) THINKING timer))
                 final])%list).
Proof.
  intros philosopher Hs Ht Hmax Hout Hf Hr. unfold philosopher in *. clear philosopher.
  apply Forall_app in Hf as [Hf Hfinal]. apply Forall_inv in Hfinal.
  eexists. split; [by apply state_time_within|].
  replace (S (length eating)) with (length eating + 1)%nat by lia.
  rewrite (philosopherThread_loop_ticks eating 1 st (final :: later));
    [|rewrite Hs; done|lia|done|done].
  rewrite (philosopherThread_loop_meal_end 0 _ final later);
    cbn [pr_local pr_incoming pr_outgoing pr_actions tm_base tm_rand tm_drawn
         p_id p_state p_stateTimer]; [|done|unfold INT_MIN; lia|done|done|done].
  cbn [philosopherThread_loop]. rewrite Hs, <- app_assoc. done.
Qed.

Lemma meal_lasts_its_timer_witness :
  let st : Participant :=
    mkProcess (mkThreadMemory (mkPhilosopher 1 EATING 3) (fun _ => 1804289383) 0)
      [] [16; 16; 16] [] in
  let philosopher := tm_base (pr_local st) in
  p_state philosopher = EATING /\
  p_stateTimer philosopher = Z.of_nat (length [16; 16]) + 1 /\
  p_stateTimer philosopher <= INT_MAX /\
  pr_outgoing st = ([16; 16] ++ [16])%list /\
  Forall (fun count => count <> -1) ([16; 16] ++ [16])%list /\
  0 <= tm_rand (pr_local st) (tm_drawn (pr_local st)) /\
  exists timer,
    MIN_STATE_TIME <= timer <= MAX_STATE_TIME /\
    philosopherThread_loop 3 st =
      Returns tt
        (mkProcess
           (mkThreadMemory (mkPhilosopher 1 THINKING timer) (tm_rand (pr_local st)) 1)
           [] []
           (ticks 1 EATING 3 [16; 16] ++
              [ActSleep 1;
               ActWrite (Wire.updateRequest (mkPhilosopher 1 THINKING timer)) 16])%list).
Proof.
  intros st philosopher.
  assert (H1 : p_state philosopher = EATING) by reflexivity.
  assert (H2 : p_stateTimer philosopher = Z.of_nat (length [16; 16]) + 1) by reflexivity.
  assert (H3 : p_stateTimer philosopher <= INT_MAX) by (vm_compute; discriminate).
  assert (H4 : pr_outgoing st = ([16; 16] ++ [16])%list) by reflexivity.
  assert (H5 : Forall (fun count => count <> -1) ([16; 16] ++ [16])%list)
    by (repeat constructor; lia).
  assert (H6 : 0 <= tm_rand (pr_local st) (tm_drawn (pr_local st)))
    by (vm_compute; discriminate).
  split; [exact H1|]. split; [exact H2|]. split; [exact H3|]. split; [exact H4|].
  split; [exact H5|]. split; [exact H6|].
  exact (meal_lasts_its_timer st [16; 16] 16 [] H1 H2 H3 H4 H5 H6).
Defined.

(** X20. A THINKING thread whose timer runs out sends HUNGRY and reads
    the answer: it sends nothing more as long as there is none. An answer
    of the type RESPONSE_UPDATE, whatever count other than -1 [read] has
    returned for it -- 0 as well --, gives the thread its state, and the
    thread a new timer between MIN_STATE_TIME and MAX_STATE_TIME. *)
Theorem hungry_thread_waits_for_its_answer iterations (st : Participant) count later :
  let philosopher := tm_base (pr_local st) in
  let asked := mkPhilosopher (p_id philosopher) HUNGRY (p_stateTimer philosopher - 1) in
  let sent := (pr_actions st ++ [ActSleep 1; ActWrite (Wire.updateRequest asked) count])%list in
  p_state philosopher = THINKING ->
  INT_MIN < p_stateTimer philosopher <= 1 ->
  pr_outgoing st = count :: later -> count <> -1 ->
  (pr_incoming st = [] ->
   philosopherThread_loop (S iterations) st =
     Ends Reading (mkProcess (mkThreadMemory asked (tm_rand (pr_local st)) (tm_drawn (pr_local st)))
                     [] later sent)) /\
  (forall bytes response rest,
     pr_incoming st = (bytes, response) :: rest -> bytes <> -1 ->
     Wire.rs_type response = Wire.RESPONSE_UPDATE ->
     0 <= tm_rand (pr_local st) (tm_drawn (pr_local st)) ->
     exists timer,
       MIN_STATE_TIME <= timer <= MAX_STATE_TIME /\
       philosopherThread_loop (S iterations) st =
         philosopherThread_loop iterations
           (mkProcess
              (mkThreadMemory
                 (mkPhilosopher (p_id philosopher) (p_state (Wire.rs_philosopher response)) timer)
                 (tm_rand (pr_local st)) (S (tm_drawn (pr_local st))))
              rest later sent)).
Proof.
  intros philosopher asked sent Hs Ht Hout Hcount.
  unfold sent, asked, philosopher in *. clear sent asked philosopher.
  assert (Hsend : forall Q E,
    after (@trySocketRead ThreadMemory Wire.Response Wire.Request)
      (mkProcess
         (mkThreadMemory
            (mkPhilosopher (p_id (tm_base (pr_local st))) HUNGRY
               (p_stateTimer (tm_base (pr_local st)) - 1))
            (tm_rand (pr_local st)) (tm_drawn (pr_local st)))
         (pr_incoming st) later
         (pr_actions st ++
            [ActSleep 1;
             ActWrite
               (Wire.updateRequest
                  (mkPhilosopher (p_id (tm_base (pr_local st))) HUNGRY
                     (p_stateTimer (tm_base (pr_local st)) - 1))) count]))
      (fun received st' =>
         after
           ((if fst received =? -1 then
               act (ActPrint ERROR "Erreur lors d'une tentative d'envoi d'un requête de mise à jour.\n");;
               act (ActPerror "write");;
               act ActClose;;
               sys_exit EXIT_FAILURE
             else mret tt);;
            match Wire.rs_type (snd received) with
            | Wire.RESPONSE_UPDATE =>
                philosopher ← get_base;
                put_base (mkPhilosopher (p_id philosopher)
                            (p_state (Wire.rs_philosopher (snd received)))
                            (p_stateTimer philosopher));;
                stateTimer ← randomRange MIN_STATE_TIME MAX_STATE_TIME;
                philosopher ← get_base;
                put_base (mkPhilosopher (p_id philosopher) (p_state philosopher) stateTimer)
            | Wire.RESPONSE_CREATE =>
                act (ActPrint ERROR "Le type de réponse attendu n'est pas correct.\n");;
                act ActClose;;
                thread_return
            end) st' (fun _ st'' => after (philosopherThread_loop iterations) st'' Q E) E) E ->
    after (philosopherThread_loop (S iterations)) st Q E).
  { intros Q E Hrest. cbn [philosopherThread_loop].
    thread_run. apply after_checked_within; [unfold INT_MIN, INT_MAX in *; lia|].
    thread_run.
    destruct (Z.leb_spec (p_stateTimer (tm_base (pr_local st)) - 1) 0) as [_|?]; [|lia].
    rewrite Hs. thread_run. eapply after_trySocketWrite_first; [exact Hout|done|].
    thread_step. destruct (Z.eqb_spec count (-1)); [done|].
    thread_run.
    unfold wrote, with_base, acted;
      cbn [pr_local pr_incoming pr_outgoing pr_actions tm_base tm_rand tm_drawn fmap list_fmap
           p_id p_state p_stateTimer].
    rewrite <- app_assoc. apply after_bind. exact Hrest. }
  split.
  - intros Hin. apply after_run, Hsend. rewrite Hin.
    unfold after at 1. cbn. done.
  - intros bytes response rest Hin Hbytes Htype Hr.
    eexists. split; [by apply state_time_within|].
    apply after_run, Hsend. rewrite Hin.
    unfold after at 1, trySocketRead, MAX_ATTEMPTS.
    cbn [Nat.sub trySocketRead_loop]. unfold mbind at 1, Proc_bind at 1, sys_read.
    cbn [pr_incoming fst]. rewrite (proj2 (Z.eqb_neq bytes (-1)) Hbytes).
    cbn [mret Proc_ret snd fst]. rewrite (proj2 (Z.eqb_neq bytes (-1)) Hbytes), Htype.
    thread_run. state_time.
    thread_run. unfold with_base, drew.
    cbn [pr_local pr_incoming pr_outgoing pr_actions tm_base tm_rand tm_drawn
         p_id p_state p_stateTimer].
    apply after_self.
Qed.

Lemma hungry_thread_waits_for_its_answer_witness :
  let st : Participant :=
    mkProcess (mkThreadMemory (mkPhilosopher 1 THINKING 1) (fun _ => 1804289383) 0)
      [] [16] [] in
  let asked := mkPhilosopher 1 HUNGRY 0 in
  p_state (tm_base (pr_local st)) = THINKING /\
  INT_MIN < p_stateTimer (tm_base (pr_local st)) <= 1 /\
  pr_outgoing st = [16] /\ 16 <> -1 /\
  philosopherThread_loop 1 st =
    Ends Reading
      (mkProcess (mkThreadMemory asked (tm_rand (pr_local st)) 0) [] []
         [ActSleep 1; ActWrite (Wire.updateRequest asked) 16]).
Proof.
  intros st asked.
  assert (H1 : p_state (tm_base (pr_local st)) = THINKING) by reflexivity.
  assert (H2 : INT_MIN < p_stateTimer (tm_base (pr_local st)) <= 1)
    by (split; [vm_compute; reflexivity | vm_compute; discriminate]).
  assert (H3 : pr_outgoing st = [16]) by reflexivity.
  assert (H4 : 16 <> -1) by lia.
  split; [exact H1|]. split; [exact H2|]. split; [exact H3|]. split; [exact H4|].
  destruct (hungry_thread_waits_for_its_answer 0 st 16 [] H1 H2 H3 H4) as [Hwaits _].
  exact (Hwaits eq_refl).
Defined.

(** ** Joining the table *)

Lemma after_trySocketRead_loop_from {L In Out} attemptsLeft :
  forall (st : Process L In Out) (Q : Z * In -> Process L In Out -> Prop) E,
  (forall received later, List.In received (pr_incoming st) -> Q received (set_incoming later st)) ->
  E Reading (set_incoming [] st) ->
  after (trySocketRead_loop attemptsLeft) st Q E.
Proof.
  induction attemptsLeft as [|k IH]; intros st Q E HQ HE;
    cbn [trySocketRead_loop]; apply after_bind; unfold after at 1, sys_read;
    destruct (pr_incoming st) as [|received later] eqn:Hin.
  - unfold set_incoming in HE. rewrite <- Hin in HE. by destruct st.
  - destruct (fst received =? -1); apply (HQ received later); by left.
  - unfold set_incoming in HE. rewrite <- Hin in HE. by destruct st.
  - destruct (fst received =? -1); [|apply (HQ received later); by left].
    apply IH; [|apply HE].
    intros r l Hr. apply (HQ r l). cbn in Hr. by right.
Qed.

Lemma after_trySocketRead_from {L In Out} (st : Process L In Out)
    (Q : Z * In -> Process L In Out -> Prop) E :
  (forall received later, List.In received (pr_incoming st) -> Q received (set_incoming later st)) ->
  E Reading (set_incoming [] st) ->
  after trySocketRead st Q E.
Proof. apply after_trySocketRead_loop_from. Qed.

Lemma Added_none turns before after :
  cm_started after = cm_started before ->
  cm_currentNumber after = cm_currentNumber before ->
  length (cm_philosophers after) = length (cm_philosophers before) ->
  cm_rand after = cm_rand before ->
  cm_attempts after = cm_attempts before ->
  (forall k, (k < Z.to_nat (cm_currentNumber before))%nat ->
     cm_philosophers after !! k = cm_philosophers before !! k) ->
  Added turns before after.
Proof.
  intros Hs Hc Hl Hr Ha Hk. exists 0%nat.
  split; [lia|]. split; [by rewrite Hs, app_nil_r|]. split; [lia|].
  split; [done|]. split; [done|]. split; [done|]. split; [done|].
  intros k Hrange. rewrite Hc in Hrange. lia.
Qed.

Lemma Added_one before after philosopher :
  0 <= cm_currentNumber before ->
  cm_started after = (cm_started before ++ [Z.to_nat (cm_currentNumber before)])%list ->
  cm_currentNumber after = cm_currentNumber before + 1 ->
  length (cm_philosophers after) = length (cm_philosophers before) ->
  cm_rand after = cm_rand before ->
  cm_attempts after = cm_attempts before ->
  (forall k, (k < Z.to_nat (cm_currentNumber before))%nat ->
     cm_philosophers after !! k = cm_philosophers before !! k) ->
  cm_philosophers after !! Z.to_nat (cm_currentNumber before) = Some philosopher ->
  seated (cm_attempts before) philosopher ->
  Added 1 before after.
Proof.
  intros H0 Hs Hc Hl Hr Ha Hk Hslot Hseated. exists 1%nat.
  split; [lia|]. split; [done|]. split; [lia|].
  split; [done|]. split; [done|]. split; [done|]. split; [done|].
  intros k Hrange. rewrite Hc in Hrange.
  assert (k = Z.to_nat (cm_currentNumber before)) as -> by lia. eauto.
Qed.

Lemma Added_trans a b m0 m1 m2 :
  0 <= cm_currentNumber m0 ->
  Added a m0 m1 -> Added b m1 m2 -> Added (a + b) m0 m2.
Proof.
  intros H0 (a' & Ha & Hs1 & Hc1 & Hl1 & Hr1 & Ht1 & Hk1 & Hn1)
            (b' & Hb & Hs2 & Hc2 & Hl2 & Hr2 & Ht2 & Hk2 & Hn2).
  exists (a' + b')%nat.
  assert (Hcur1 : Z.to_nat (cm_currentNumber m1) = (Z.to_nat (cm_currentNumber m0) + a')%nat)
    by lia.
  split; [lia|]. split.
  { rewrite Hs2, Hs1, <- app_assoc, Hcur1. f_equal. by rewrite seq_app. }
  split; [lia|]. split; [congruence|]. split; [congruence|]. split; [congruence|]. split.
  - intros k Hk. rewrite Hk2 by lia. by apply Hk1.
  - intros k Hk. destruct (decide (k < Z.to_nat (cm_currentNumber m1))%nat) as [Hlt|Hge].
    + destruct (Hn1 k ltac:(lia)) as (p & Hp & Hseated).
      exists p. split; [|done]. by rewrite Hk2.
    + destruct (Hn2 k ltac:(lia)) as (p & Hp & Hseated).
      exists p. split; [done|]. by rewrite <- Ht1.
Qed.

Lemma Added_more a b m0 m1 : (a <= b)%nat -> Added a m0 m1 -> Added b m0 m1.
Proof. intros Hab (a' & Ha & H). exists a'. split; [lia|done]. Qed.

Lemma after_getSocket (st : Client) Q E :
  (let memory := pr_local st in
   let attempt := cm_attempts memory (cm_opened memory) in
   Q (at_socket attempt)
     (mkProcess
        (mkClientMemory (cm_philosophers memory) (cm_currentNumber memory) (cm_rand memory)
           (cm_drawn memory) (cm_attempts memory) (S (cm_opened memory)) (cm_started memory))
        (at_incoming attempt) (at_outgoing attempt) (pr_actions st))) ->
  after getSocket st Q E.
Proof. done. Qed.

Lemma after_sys_connect (st : Client) Q E :
  Q (at_connect (attempt_of (pr_local st))) st -> after sys_connect st Q E.
Proof. done. Qed.

Lemma after_get_currentNumber (st : Client) Q E :
  Q (cm_currentNumber (pr_local st)) st -> after get_currentNumber st Q E.
Proof. done. Qed.

Lemma after_put_currentNumber n (st : Client) Q E :
  (let memory := pr_local st in
   Q tt
     (mkProcess
        (mkClientMemory (cm_philosophers memory) n (cm_rand memory) (cm_drawn memory)
           (cm_attempts memory) (cm_opened memory) (cm_started memory))
        (pr_incoming st) (pr_outgoing st) (pr_actions st))) ->
  after (put_currentNumber n) st Q E.
Proof. done. Qed.

Lemma after_put_philosopher index philosopher (st : Client) Q E :
  0 <= index < Z.of_nat (length (cm_philosophers (pr_local st))) ->
  (let memory := pr_local st in
   Q tt
     (mkProcess
        (mkClientMemory (<[Z.to_nat index := philosopher]> (cm_philosophers memory))
           (cm_currentNumber memory) (cm_rand memory) (cm_drawn memory)
           (cm_attempts memory) (cm_opened memory) (cm_started memory))
        (pr_incoming st) (pr_outgoing st) (pr_actions st))) ->
  after (put_philosopher index philosopher) st Q E.
Proof.
  intros [H1 H2] HQ. unfold after, put_philosopher.
  by rewrite (proj2 (Z.leb_le _ _) H1), (proj2 (Z.ltb_lt _ _) H2).
Qed.

Lemma after_pthread_create index (st : Client) Q E :
  (let memory := pr_local st in
   let result := at_thread (attempt_of memory) in
   Q result
     (mkProcess
        (mkClientMemory (cm_philosophers memory) (cm_currentNumber memory) (cm_rand memory)
           (cm_drawn memory) (cm_attempts memory) (cm_opened memory)
           (if result =? 0 then (cm_started memory ++ [Z.to_nat index])%list
            else cm_started memory))
        (pr_incoming st) (pr_outgoing st) (pr_actions st))) ->
  after (pthread_create index) st Q E.
Proof. done. Qed.

Ltac join_step :=
  lazymatch goal with
  | |- after (mbind _ _) _ _ _ => apply after_bind
  | |- after (act _) _ _ _ => apply after_act
  | |- after (mret _) _ _ _ => apply after_ret
  | |- after getSocket _ _ _ => apply after_getSocket
  | |- after sys_connect _ _ _ => apply after_sys_connect
  | |- after get_currentNumber _ _ _ => apply after_get_currentNumber
  | |- after (put_currentNumber _) _ _ _ => apply after_put_currentNumber
  | |- after (pthread_create _) _ _ _ => apply after_pthread_create
  end; cbv beta zeta.

Ltac join_norm :=
  unfold acted, wrote, set_incoming, drew, attempt_of;
  cbn [pr_local pr_incoming pr_outgoing pr_actions
       cm_philosophers cm_currentNumber cm_rand cm_drawn cm_attempts cm_opened cm_started
       next_rand after_rand ClientMemory_randomness Nat.pred p_id p_state p_stateTimer].

Ltac join_run := repeat join_step; join_norm.

Ltac added_none := apply Added_none; cbn; done.

Lemma addPhilosophers_loop_adds turns :
  forall st : Client,
    length (cm_philosophers (pr_local st)) = Z.to_nat MAX_PHILOSOPHERS ->
    0 <= cm_currentNumber (pr_local st) ->
    cm_currentNumber (pr_local st) + Z.of_nat turns <= MAX_PHILOSOPHERS ->
    (forall n, 0 <= cm_rand (pr_local st) n) ->
    after (addPhilosophers_loop turns) st
      (fun _ st' => Added turns (pr_local st) (pr_local st'))
      (fun e st' => (e = Reading \/ e = Writing) /\ Added turns (pr_local st) (pr_local st')).
Proof.
  induction turns as [|turns IH]; intros st Hlen H0 Hroom Hrand.
  { apply after_ret. by apply Added_none. }
  destruct st as [[philosophers current rand drawn attempts opened started] incoming outgoing actions].
  cbn [pr_local cm_philosophers cm_currentNumber cm_rand] in *.
  cbn [addPhilosophers_loop].
  join_run.
  destruct (_ =? -1); [join_run; added_none|].
  join_run. apply after_trySocketWrite; cycle 1.
  { intros failures _ _. join_norm. split; [by right|]. added_none. }
  intros failures count later _ _. join_norm.
  destruct (count =? -1); [join_run; added_none|].
  join_run. apply after_trySocketRead_from; cycle 1.
  { join_norm. split; [by left|]. added_none. }
  intros received later' Hreceived. join_norm. cbn [pr_incoming] in Hreceived.
  destruct (Z.eqb_spec (fst received) (-1)) as [|Hbytes]; [join_run; added_none|].
  destruct (Wire.rs_type (snd received)) eqn:Htype; [|join_run; added_none].
  join_run.
  apply after_randomRange_within;
    [unfold INT_MIN, MIN_STATE_TIME; lia
    |unfold MIN_STATE_TIME, MAX_STATE_TIME; lia
    |unfold INT_MAX, MAX_STATE_TIME; lia
    |unfold INT_MAX, MIN_STATE_TIME, MAX_STATE_TIME; lia
    |join_norm; apply Hrand
    |].
  join_norm.
  pose proof (state_time_within (rand drawn) (Hrand drawn)) as Htimer.
  set (timer := Z.rem (rand drawn) (MAX_STATE_TIME + 1 - MIN_STATE_TIME) + MIN_STATE_TIME) in *.
  set (newPhilosopher :=
         mkClientPhilosopher
           (mkPhilosopher (p_id (Wire.rs_philosopher (snd received))) THINKING timer)
           (at_socket (attempts opened))).
  assert (Hseated : seated attempts newPhilosopher).
  { split; [done|]. split; [done|]. exists opened, received. done. }
  clearbody newPhilosopher timer.
  join_run. apply after_put_philosopher.
  { join_norm. rewrite Hlen. unfold MAX_PHILOSOPHERS in *. lia. }
  cbv beta zeta. join_run.
  assert (Hslot : <[Z.to_nat current := newPhilosopher]> philosophers !! Z.to_nat current =
                  Some newPhilosopher).
  { apply list_lookup_insert_eq. rewrite Hlen. unfold MAX_PHILOSOPHERS in *. lia. }
  assert (Hbelow : forall k, (k < Z.to_nat current)%nat ->
            <[Z.to_nat current := newPhilosopher]> philosophers !! k = philosophers !! k).
  { intros k Hk. apply list_lookup_insert_ne. lia. }
  destruct (Z.eqb_spec (at_thread (attempts opened)) 0) as [Hcreated|Hfailed].
  - (* a thread has been started *)
    join_run. apply after_checked_within.
    { unfold INT_MIN, INT_MAX, MAX_PHILOSOPHERS in *. lia. }
    join_run.
    eapply after_mono.
    + apply IH; cbn [pr_local cm_philosophers cm_currentNumber cm_rand];
        [by rewrite length_insert | lia | lia | done].
    + intros [] st' HA. cbn [pr_local] in HA.
      change (S turns) with (1 + turns)%nat.
      eapply Added_trans; [exact H0| |exact HA].
      eapply Added_one; cbn; try done. by rewrite length_insert.
    + intros e st' [He HA]. cbn [pr_local] in HA. split; [done|].
      change (S turns) with (1 + turns)%nat.
      eapply Added_trans; [exact H0| |exact HA].
      eapply Added_one; cbn; try done. by rewrite length_insert.
  - (* no thread: the element is written, and not counted *)
    join_run.
    eapply after_mono.
    + apply IH; cbn [pr_local cm_philosophers cm_currentNumber cm_rand];
        [by rewrite length_insert | lia | lia | done].
    + intros [] st' HA. cbn [pr_local] in HA.
      change (S turns) with (0 + S turns)%nat.
      eapply Added_trans; [exact H0| |apply (Added_more turns); [lia|exact HA]].
      apply Added_none; cbn; try done. by rewrite length_insert.
    + intros e st' [He HA]. cbn [pr_local] in HA. split; [done|].
      change (S turns) with (0 + S turns)%nat.
      eapply Added_trans; [exact H0| |apply (Added_more turns); [lia|exact HA]].
      apply Added_none; cbn; try done. by rewrite length_insert.
Qed.

(** X21. [addPhilosophers], called with a number for which the array has
    room, writes no element outside of the array and stops only by
    returning or in a call of [read] or [write] on a socket. Each thread
    it has started is on the next free element, which is counted; the
    participant of this element is THINKING, for a time between
    MIN_STATE_TIME and MAX_STATE_TIME, under the identifier of a
    RESPONSE_CREATE read on its socket, whatever state and timer the
    response carries. The elements of the threads started before are left
    as they were. *)
Theorem addPhilosophers_seats_thinkers number (st : Client) :
  length (cm_philosophers (pr_local st)) = Z.to_nat MAX_PHILOSOPHERS ->
  0 <= cm_currentNumber (pr_local st) ->
  cm_currentNumber (pr_local st) + number <= MAX_PHILOSOPHERS ->
  (forall n, 0 <= cm_rand (pr_local st) n) ->
  match addPhilosophers number st with
  | Returns _ st' => Added (Z.to_nat number) (pr_local st) (pr_local st')
  | Ends e st' =>
      (e = Reading \/ e = Writing) /\ Added (Z.to_nat number) (pr_local st) (pr_local st')
  end.
Proof.
  intros Hlen H0 Hroom Hrand.
  change (after (addPhilosophers number) st
            (fun _ st' => Added (Z.to_nat number) (pr_local st) (pr_local st'))
            (fun e st' => (e = Reading \/ e = Writing) /\
                          Added (Z.to_nat number) (pr_local st) (pr_local st'))).
  unfold addPhilosophers. apply after_bind, after_act. cbv beta.
  destruct (Z.neg_nonneg_cases number) as [Hneg|Hpos].
  - replace (Z.to_nat number) with 0%nat by lia. apply after_ret. by apply Added_none.
  - apply (addPhilosophers_loop_adds (Z.to_nat number) (acted _ st)); cbn; try done. lia.
Qed.

Lemma addPhilosophers_seats_thinkers_witness :
  let st : Client :=
    mkProcess
      (mkClientMemory (replicate 7 (mkClientPhilosopher zeroPhilosopher 0)) 0
         (fun _ => 1804289383) 0
         (fun turn =>
            mkAttempt (Z.of_nat turn + 3) 0 [16]
              [(16, Wire.createResponse (mkPhilosopher (Z.of_nat turn + 1) THINKING 0))] 0)
         0 [])
      [] [] [] in
  length (cm_philosophers (pr_local st)) = Z.to_nat MAX_PHILOSOPHERS /\
  0 <= cm_currentNumber (pr_local st) /\
  cm_currentNumber (pr_local st) + 2 <= MAX_PHILOSOPHERS /\
  (forall n, 0 <= cm_rand (pr_local st) n) /\
  match addPhilosophers 2 st with
  | Returns _ st' => Added (Z.to_nat 2) (pr_local st) (pr_local st')
  | Ends e st' =>
      (e = Reading \/ e = Writing) /\ Added (Z.to_nat 2) (pr_local st) (pr_local st')
  end.
Proof.
  intros st.
  assert (H1 : length (cm_philosophers (pr_local st)) = Z.to_nat MAX_PHILOSOPHERS)
    by reflexivity.
  assert (H2 : 0 <= cm_currentNumber (pr_local st)) by (cbn; lia).
  assert (H3 : cm_currentNumber (pr_local st) + 2 <= MAX_PHILOSOPHERS)
    by (vm_compute; discriminate).
  assert (H4 : forall n, 0 <= cm_rand (pr_local st) n) by (intros n; cbn; lia).
  split; [exact H1|]. split; [exact H2|]. split; [exact H3|]. split; [exact H4|].
  exact (addPhilosophers_seats_thinkers 2 st H1 H2 H3 H4).
Defined.

(** ** Commands *)

Lemma substring_all s : substring 0 (String.length s) s = s.
Proof. induction s as [|c s IH]; cbn; [done|by rewrite IH]. Qed.

Lemma substring_skip prefix s :
  substring (String.length prefix) (String.length s) (prefix ++ s) = s.
Proof.
  induction prefix as [|c prefix IH]; cbn; [apply substring_all|exact IH].
Qed.

Lemma length_append (a b : string) :
  String.length (a ++ b) = (String.length a + String.length b)%nat.
Proof. induction a as [|c a IH]; cbn; [done|by rewrite IH]. Qed.

Lemma strncpy_prefix prefix s : strncpy (prefix ++ s) (String.length prefix) = prefix.
Proof. unfold strncpy. induction prefix as [|c prefix IH]; cbn; [by destruct s|by rewrite IH]. Qed.

Lemma strncpy_is_prefix s n : exists rest, s = strncpy s n ++ rest.
Proof.
  unfold strncpy. revert n. induction s as [|c s IH]; intros n.
  - exists "". by destruct n.
  - destruct n as [|n]; cbn; [by exists (String c s)|].
    destruct (IH n) as [rest Hrest]. exists rest. by rewrite <- Hrest.
Qed.

Lemma digits_of_uint d :
  forallb isdigit (characters (NilEmpty.string_of_uint d)) = true.
Proof. induction d; cbn; done. Qed.

Lemma atoi_digits_of_uint d :
  forall n : nat,
    atoi_digits (Z.of_nat n) (NilEmpty.string_of_uint d) = Z.of_nat (Nat.of_uint_acc d n).
Proof.
  induction d; intros n; cbn [NilEmpty.string_of_uint atoi_digits Nat.of_uint_acc];
    [done|..];
    rewrite Nat.tail_mul_spec;
    match goal with
    | |- atoi_digits ?z _ = Z.of_nat (Nat.of_uint_acc _ ?m) =>
        replace z with (Z.of_nat m)
          by (match goal with
              | |- context [nat_of_ascii ?c] =>
                  let v := eval vm_compute in (nat_of_ascii c) in
                  change (nat_of_ascii c) with v
              end; lia)
    end; apply IHd.
Qed.

Lemma atoi_decimal n : atoi_digits 0 (decimal n) = Z.of_nat n.
Proof.
  unfold decimal. rewrite (atoi_digits_of_uint _ 0).
  change (Nat.of_uint_acc (Nat.to_uint n) 0) with (Nat.of_uint (Nat.to_uint n)).
  by rewrite DecimalNat.Unsigned.of_to.
Qed.

(** X22. A command made of "/add", any one character and a number
    written in base ten is an add command and gives this number: the
    character after "/add" is not looked at. A command is an add command
    exactly when it starts with "/add", whatever follows, and only "/quit"
    itself is the quit command. *)
Theorem add_command_gives_its_number :
  (forall (separator : ascii) (n : nat),
     Z.of_nat n <= 2147483647 ->
     let command := ADD_COMMAND ++ String separator (decimal n) in
     isAddCommand command = true /\ getAddCommandNumber command = Some (Z.of_nat n)) /\
  (forall command,
     isAddCommand command = true <-> exists rest, command = ADD_COMMAND ++ rest) /\
  (forall command, isQuitCommand command = true <-> command = QUIT_COMMAND).
Proof.
  split; [|split].
  - intros separator n Hn command. unfold command. clear command. split.
    + unfold isAddCommand.
      by rewrite (strncpy_prefix ADD_COMMAND).
    + unfold getAddCommandNumber.
      change (ADD_COMMAND ++ String separator (decimal n))
        with (("/add" ++ String separator "") ++ decimal n).
      rewrite length_append.
      change (String.length ADD_COMMAND + 1)%nat with (String.length ("/add" ++ String separator "")).
      destruct (Nat.ltb_spec (String.length ("/add" ++ String separator "") +
                              String.length (decimal n))
                             (String.length ("/add" ++ String separator ""))) as [?|_]; [lia|].
      replace (String.length ("/add" ++ String separator "") + String.length (decimal n) -
               String.length ("/add" ++ String separator ""))%nat
        with (String.length (decimal n)) by lia.
      rewrite substring_skip. unfold decimal at 1. rewrite digits_of_uint.
      unfold atoi. rewrite atoi_decimal.
      by destruct (Z.leb_spec (Z.of_nat n) 2147483647); [|lia].
  - intros command. unfold isAddCommand. split.
    + destruct (String.eqb_spec (strncpy command (String.length ADD_COMMAND)) ADD_COMMAND)
        as [E|]; [intros _|done].
      destruct (strncpy_is_prefix command (String.length ADD_COMMAND)) as [rest Hrest].
      exists rest. by rewrite <- E.
    + intros [rest ->]. by rewrite strncpy_prefix.
  - intros command. unfold isQuitCommand.
    by destruct (String.eqb_spec command QUIT_COMMAND).
Qed.

Lemma atoi_digits_nonneg digits :
  forall accumulator,
    forallb isdigit (characters digits) = true -> 0 <= accumulator ->
    0 <= atoi_digits accumulator digits.
Proof.
  induction digits as [|c digits IH]; intros accumulator Hd Ha; cbn in *; [done|].
  apply andb_true_iff in Hd as [Hc Hd]. apply IH; [done|].
  unfold isdigit in Hc. apply andb_true_iff in Hc as [Hc _]. apply Nat.leb_le in Hc. lia.
Qed.

(** X23. [getAddCommandNumber] gives -1 exactly when one of the
    characters after the fifth is not a digit -- a sign is none --, and
    otherwise a number that is not negative: 0 when nothing follows the
    fifth character. *)
Theorem getAddCommandNumber_wants_digits command number :
  getAddCommandNumber command = Some number ->
  let written := substring 5 (String.length command - 5) command in
  (number = -1 <-> forallb isdigit (characters written) = false) /\
  -1 <= number <= 2147483647 /\
  (String.length command = 5%nat -> number = 0).
Proof.
  unfold getAddCommandNumber. cbn [String.length ADD_COMMAND Nat.add].
  destruct (Nat.ltb_spec (String.length command) 5) as [|Hlen]; [done|].
  cbv zeta.
  destruct (forallb isdigit (characters (substring 5 (String.length command - 5) command)))
    eqn:Hd.
  - unfold atoi.
    pose proof (atoi_digits_nonneg _ 0 Hd ltac:(done)) as Hv.
    destruct (Z.leb_spec (atoi_digits 0 (substring 5 (String.length command - 5) command))
                2147483647) as [Hmax|]; [|done].
    intros [= <-]. split; [split; [lia|done]|]. split; [lia|].
    intros E. rewrite E. by destruct command as [|? [|? [|? [|? [|? [|]]]]]].
  - intros [= <-]. split; [done|]. split; [lia|].
    intros E. rewrite E in Hd. by destruct command as [|? [|? [|? [|? [|? [|]]]]]].
Qed.

Lemma getAddCommandNumber_wants_digits_witness :
  let command := "/add 3" in
  let written := substring 5 (String.length command - 5) command in
  getAddCommandNumber command = Some 3 /\
  (3 = -1 <-> forallb isdigit (characters written) = false) /\
  -1 <= 3 <= 2147483647 /\
  (String.length command = 5%nat -> 3 = 0).
Proof.
  intros command written.
  assert (H : getAddCommandNumber command = Some 3) by (vm_compute; reflexivity).
  split; [exact H|].
  exact (getAddCommandNumber_wants_digits command 3 H).
Defined.
